(** * Mini-RAG core (rag_core.py): a shallow embedding and its properties

    The first half embeds [rag_core.py] function by function: Python
    strings and slices, the chunker, the store behind SQLite, the
    query-embedding cache, retrieval, indexing and the RAG pipeline.
    The module-level state (the cache, the database, the documents
    directory) is one record that every function threads, with the
    calls to the embedding model and to the chat service logged in it.
    What the module only calls (the embedding model, NumPy, float
    formatting, the chat service) is a class of collaborators.

    The second half states and proves the properties of the chunker,
    the cache, retrieval, the store, the pipeline and indexing, and
    ends with each property applied to a small instance. *)

From Stdlib Require Import String Ascii.
From Stdlib Require Import List ZArith NArith Lia Bool DecimalString.
From Stdlib Require Import Sorted Permutation.
Import ListNotations.

Local Open Scope Z_scope.

(** ** Python strings *)

(** A Python [str] is a sequence of Unicode code points. *)
Definition pychar := N.
Definition pystr := list pychar.

(** Literals of the source, written as Rocq strings of ASCII characters. *)
Definition lit (s : string) : pystr := map N_of_ascii (list_ascii_of_string s).

(** [len(s)] *)
Definition len {A : Type} (s : list A) : Z := Z.of_nat (length s).

(** Normalisation of one bound of a slice [s[i:j]] (step 1): a negative
    bound counts from the end, and the result is clamped to [0, len]. *)
Definition slice_index (n i : Z) : Z :=
  if i <? 0 then Z.max 0 (i + n) else Z.min i n.

(** [s[start:stop]] *)
Definition py_slice {A : Type} (s : list A) (start stop : Z) : list A :=
  let lo := slice_index (len s) start in
  let hi := slice_index (len s) stop in
  firstn (Z.to_nat (hi - lo)) (skipn (Z.to_nat lo) s).

(** ** Chunker: [chunk_text] *)

Module Chunker.

(** The two local variables of [chunk_text]. *)
Record state := mk_state { start : Z; chunks : list pystr }.

(** [while start < len(text)] *)
Definition guard (text : pystr) (st : state) : bool :=
  start st <? len text.

(** One iteration of the loop body:
    [end = start + max_chars; chunks.append(text[start:end]); start = end]. *)
Definition body (text : pystr) (max_chars : Z) (st : state) : state :=
  let end_ := start st + max_chars in
  mk_state end_ (chunks st ++ [py_slice text (start st) end_]).

(** The [while] loop, run for at most [fuel] evaluations of its guard;
    [None] means the loop is still running when the fuel is spent. *)
Fixpoint loop (fuel : nat) (text : pystr) (max_chars : Z) (st : state)
  : option (list pystr) :=
  match fuel with
  | O => None
  | S fuel' =>
      if guard text st
      then loop fuel' text max_chars (body text max_chars st)
      else Some (chunks st)
  end.

Definition init : state := mk_state 0 [].

Definition chunk_text_fuel (fuel : nat) (text : pystr) (max_chars : Z)
  : option (list pystr) :=
  loop fuel text max_chars init.

(** [chunk_text(text, max_chars)] with the fuel that is enough whenever
    [max_chars > 0]: one guard evaluation per character and a final one. *)
Definition chunk_text (text : pystr) (max_chars : Z) : option (list pystr) :=
  chunk_text_fuel (S (length text)) text max_chars.

(** [ceil(n / m)] for [m > 0]. *)
Definition ceil_div (n m : Z) : Z := (n + m - 1) / m.

End Chunker.

(** ** More of Python's [str] and [dict] *)

Definition pystr_eq_dec : forall a b : pystr, {a = b} + {a <> b} :=
  list_eq_dec N.eq_dec.

Definition nl : pychar := 10%N.          (* "\n" *)
Definition space : pychar := 32%N.       (* " " *)
Definition dquote : pychar := 34%N.      (* the double quote *)
Definition comma : pychar := 44%N.       (* "," *)
Definition dot : pychar := 46%N.         (* "." *)
Definition rarrow : pychar := 8594%N.    (* U+2192, the arrow of a source line *)

(** [c.isspace()] for one code point: the white space that [str.strip()]
    removes. *)
Definition isspace (c : pychar) : bool :=
  (((9 <=? c) && (c <=? 13)) || ((28 <=? c) && (c <=? 32))
   || (c =? 133) || (c =? 160) || (c =? 5760)
   || ((8192 <=? c) && (c <=? 8202))
   || (c =? 8232) || (c =? 8233) || (c =? 8239) || (c =? 8287)
   || (c =? 12288))%N.

Fixpoint lstrip (s : pystr) : pystr :=
  match s with
  | [] => []
  | c :: s' => if isspace c then lstrip s' else s
  end.

Definition rstrip (s : pystr) : pystr := rev (lstrip (rev s)).

(** [s.strip()] *)
Definition strip (s : pystr) : pystr := rstrip (lstrip s).

(** [s.replace(old, new)] for one-character [old] and [new]. *)
Definition replace_char (old new : pychar) (s : pystr) : pystr :=
  map (fun c => if (c =? old)%N then new else c) s.

(** [sep.join(parts)] *)
Fixpoint join (sep : pystr) (parts : list pystr) : pystr :=
  match parts with
  | [] => []
  | [p] => p
  | p :: ps => p ++ sep ++ join sep ps
  end.

(** [s.rfind(c)] for one character: the index of its last occurrence,
    or -1. *)
Fixpoint rfind_from (c : pychar) (s : pystr) (pos last : Z) : Z :=
  match s with
  | [] => last
  | x :: s' => rfind_from c s' (pos + 1) (if (x =? c)%N then pos else last)
  end.

Definition rfind (c : pychar) (s : pystr) : Z := rfind_from c s 0 (-1).

(** [PurePath.suffix] of a file name: the last dot and what follows it,
    unless that dot is the first or the last character of the name. *)
Definition path_suffix (name : pystr) : pystr :=
  let i := rfind dot name in
  if (0 <? i) && (i <? len name - 1) then skipn (Z.to_nat i) name else [].

(** A [dict] with [str] keys, in insertion order. *)
Definition dict (V : Type) : Type := list (pystr * V).

(** [d.get(k)], and so [k in d] and [d[k]]. *)
Fixpoint dict_get {V : Type} (k : pystr) (d : dict V) : option V :=
  match d with
  | [] => None
  | (k', v) :: d' => if pystr_eq_dec k' k then Some v else dict_get k d'
  end.

(** [d[k] = v]: an existing key keeps its place, a new key goes last. *)
Fixpoint dict_set {V : Type} (k : pystr) (v : V) (d : dict V) : dict V :=
  match d with
  | [] => [(k, v)]
  | (k', v') :: d' =>
      if pystr_eq_dec k' k then (k', v) :: d' else (k', v') :: dict_set k v d'
  end.

(** What is left of [d] after [d.pop(k)]. *)
Fixpoint dict_remove {V : Type} (k : pystr) (d : dict V) : dict V :=
  match d with
  | [] => []
  | (k', v) :: d' =>
      if pystr_eq_dec k' k then d' else (k', v) :: dict_remove k d'
  end.

Definition dict_keys {V : Type} (d : dict V) : list pystr := map fst d.

(** ** Exceptions and results *)

(** What a [raise] carries: an instance of [Exception] (caught by
    [except Exception]) or of a [BaseException] outside it, such as
    [KeyboardInterrupt]. *)
Inductive exn : Type :=
| Exception (name : string)
| BaseException (name : string).

(** The outcome of running a piece of the program: a value, a raised
    exception, or a loop that never ends. *)
Inductive res (A : Type) : Type :=
| Ok (a : A)
| Raise (e : exn)
| Diverge.
Arguments Ok {A} a.
Arguments Raise {A} e.
Arguments Diverge {A}.

(** ** JSON text of a flat array *)

(** White space between JSON tokens. *)
Definition json_ws (c : pychar) : bool :=
  ((c =? 32) || (c =? 9) || (c =? 10) || (c =? 13))%N.

Fixpoint json_lskip (s : pystr) : pystr :=
  match s with
  | [] => []
  | c :: s' => if json_ws c then json_lskip s' else s
  end.

Definition json_skip (s : pystr) : pystr :=
  rev (json_lskip (rev (json_lskip s))).

(** The pieces of [s] between the occurrences of [sep]. *)
Fixpoint split_on (sep : pychar) (s : pystr) : list pystr :=
  match s with
  | [] => [[]]
  | c :: s' =>
      if (c =? sep)%N then [] :: split_on sep s'
      else match split_on sep s' with
           | t :: ts => (c :: t) :: ts
           | [] => [[c]]
           end
  end.

(** A number token as [json.dumps] writes it: not empty, no comma and no
    white space inside. *)
Definition number_char (c : pychar) : bool :=
  negb (c =? comma)%N && negb (json_ws c).

Definition number_token (t : pystr) : Prop :=
  t <> [] /\ forallb number_char t = true.

(** ** The file system under [DOCS_DIR] *)

(** One entry that [docs_path.glob("*")] yields: its name, whether it is
    a regular file, and what [read_text(encoding="utf-8")] returns for it
    ([None] when the bytes are not valid UTF-8). *)
Record dirent : Type := mk_dirent {
  d_name : pystr;
  d_is_file : bool;
  d_text : option pystr
}.

(** ** Configuration (config.py) and constants *)

Definition TOP_K : Z := 3.
Definition MAX_QUERY_CACHE_SIZE : Z := 100.
Definition DEFAULT_MAX_CHARS : Z := 500.

Definition NO_DOCS_MESSAGE : pystr :=
  lit "I have no documents indexed yet. Check your docs/ folder.".
Definition LLM_ERROR_MESSAGE : pystr :=
  lit "Error calling LLM. Check server logs/config.".
Definition SYSTEM_PROMPT : pystr :=
  lit "You are a helpful assistant. Answer the user's question using ONLY the given context. If the answer is not in the context, say you don't know.".

(** [f"[DOC: {doc_name}]\n{c}"] *)
Definition with_header (doc_name c : pystr) : pystr :=
  lit "[DOC: " ++ doc_name ++ lit "]" ++ [nl] ++ c.

(** [list.sort(key=..., reverse=True)]: the list is reversed, sorted
    stably in ascending order with [<] on the keys, and reversed again. *)
Section Sort.
Variables (A K : Type) (key : A -> K) (ltb : K -> K -> bool).

Fixpoint insert_sorted (x : A) (l : list A) : list A :=
  match l with
  | [] => [x]
  | y :: l' =>
      if ltb (key y) (key x) then y :: insert_sorted x l' else x :: y :: l'
  end.

Fixpoint stable_sort (l : list A) : list A :=
  match l with
  | [] => []
  | x :: l' => insert_sorted x (stable_sort l')
  end.

Definition sort_reverse (l : list A) : list A :=
  rev (stable_sort (rev l)).
End Sort.
Arguments insert_sorted {A K} key ltb x l.
Arguments stable_sort {A K} key ltb l.
Arguments sort_reverse {A K} key ltb l.

(** ** The program state and its collaborators *)

(** The collaborators that the module only calls: float32 values and
    their JSON text, the embedding model, NumPy's dot product, float
    comparison and formatting, and the remote chat completion. *)
Class Collaborators : Type := {
  f32 : Type;
  (** The JSON text of [float(x)], as [json.dumps] writes it. *)
  float_repr : f32 -> pystr;
  (** A JSON number token read back and cast to float32. *)
  float_parse : pystr -> option f32;
  (** A Python [float], the type of a similarity score. *)
  score : Type;
  (** [np.dot(a, b)] converted with [float]; every vector comes from the
      same model, so the shapes agree. *)
  np_dot : list f32 -> list f32 -> score;
  (** [x < y] on scores. *)
  score_ltb : score -> score -> bool;
  (** [f"{score:.3f}"] *)
  format_3f : score -> pystr;
  (** [embed_model.encode] on one text, with [normalize_embeddings=True]. *)
  encode : pystr -> list f32;
  (** [openai.ChatCompletion.create(...).choices[0].message["content"]]
      for a system and a user prompt, after the calls made so far: the
      text of the reply, or the exception raised. *)
  chat_completion : list (pystr * pystr) -> pystr -> pystr -> pystr + exn
}.

Section Core.

Context {C : Collaborators}.

(** An embedding: a one-dimensional float32 array. *)
Definition vec : Type := list f32.

(** A row of table [chunks]: id, doc_name, chunk_text, embedding (the
    JSON text). *)
Definition row : Type := (Z * pystr * pystr * pystr)%type.

(** Table [chunks] with the AUTOINCREMENT counter, which survives
    [DELETE FROM chunks]. *)
Record table : Type := mk_table { rows : list row; seq : Z }.

Record world : Type := mk_world {
  cache : dict vec;                  (* _query_embedding_cache *)
  db : option table;                 (* rag_index.sqlite; None: no table yet *)
  docs : option (list dirent);       (* DOCS_DIR; None: it does not exist *)
  embed_calls : list (list pystr);   (* the calls of the embedding model *)
  llm_calls : list (pystr * pystr)   (* the chat completions requested *)
}.

(** Computations of the program: state passing with exceptions. *)
Definition M (A : Type) : Type := world -> res A * world.

Definition ret {A : Type} (a : A) : M A := fun w => (Ok a, w).

Definition bind {A B : Type} (m : M A) (f : A -> M B) : M B :=
  fun w =>
    match m w with
    | (Ok a, w') => f a w'
    | (Raise e, w') => (Raise e, w')
    | (Diverge, w') => (Diverge, w')
    end.

Definition raise {A : Type} (e : exn) : M A := fun w => (Raise e, w).

Definition diverge {A : Type} : M A := fun w => (Diverge, w).

(** [try: m  except Exception as e: h e] *)
Definition try_except {A : Type} (m : M A) (h : exn -> M A) : M A :=
  fun w =>
    match m w with
    | (Raise (Exception n), w') => h (Exception n) w'
    | r => r
    end.

Notation "x <- m ;; k" := (bind m (fun x => k))
  (at level 61, m at next level, right associativity).
Notation "m ;;; k" := (bind m (fun _ => k))
  (at level 61, right associativity).

(** [for x in l: f x] *)
Fixpoint for_each {A : Type} (l : list A) (f : A -> M unit) : M unit :=
  match l with
  | [] => ret tt
  | x :: l' => f x ;;; for_each l' f
  end.

Definition get_cache : M (dict vec) := fun w => (Ok (cache w), w).
Definition set_cache (c : dict vec) : M unit :=
  fun w => (Ok tt, mk_world c (db w) (docs w) (embed_calls w) (llm_calls w)).
Definition get_db : M (option table) := fun w => (Ok (db w), w).
Definition set_db (t : table) : M unit :=
  fun w =>
    (Ok tt, mk_world (cache w) (Some t) (docs w) (embed_calls w) (llm_calls w)).
Definition get_docs : M (option (list dirent)) := fun w => (Ok (docs w), w).

(** ** Database utilities *)

Definition no_such_table : exn := Exception "sqlite3.OperationalError".

(** [CREATE TABLE IF NOT EXISTS chunks (...)] *)
Definition init_db : M unit :=
  t <- get_db ;;
  match t with
  | Some _ => ret tt
  | None => set_db (mk_table [] 0)
  end.

(** [DELETE FROM chunks] *)
Definition clear_db : M unit :=
  t <- get_db ;;
  match t with
  | Some t => set_db (mk_table [] (seq t))
  | None => raise no_such_table
  end.

(** [json.dumps(embedding.tolist())] *)
Definition json_dumps (v : vec) : pystr :=
  lit "[" ++ join (lit ", ") (map float_repr v) ++ lit "]".

Fixpoint parse_tokens (ts : list pystr) : option vec :=
  match ts with
  | [] => Some []
  | t :: ts' =>
      match float_parse (json_skip t), parse_tokens ts' with
      | Some x, Some v => Some (x :: v)
      | _, _ => None
      end
  end.

Definition json_decode_error : exn := Exception "json.JSONDecodeError".

(** [np.array(json.loads(s), dtype=np.float32)] on the texts that
    [insert_chunk] writes, flat arrays of numbers; any other text is
    reported as a decoding error. *)
Definition json_loads (s : pystr) : res vec :=
  match json_skip s with
  | c :: body =>
      if (c =? 91)%N then
        match rev body with
        | c' :: inner_rev =>
            if (c' =? 93)%N then
              let inner := rev inner_rev in
              match json_lskip inner with
              | [] => Ok []
              | _ :: _ =>
                  match parse_tokens (split_on comma inner) with
                  | Some v => Ok v
                  | None => Raise json_decode_error
                  end
              end
            else Raise json_decode_error
        | [] => Raise json_decode_error
        end
      else Raise json_decode_error
  | [] => Raise json_decode_error
  end.

(** [INSERT INTO chunks (doc_name, chunk_text, embedding) VALUES (?, ?, ?)] *)
Definition insert_chunk (doc_name chunk_text : pystr) (embedding : vec)
  : M unit :=
  let emb_json := json_dumps embedding in
  t <- get_db ;;
  match t with
  | Some t =>
      let id := seq t + 1 in
      set_db (mk_table (rows t ++ [(id, doc_name, chunk_text, emb_json)]) id)
  | None => raise no_such_table
  end.

(** The loop of [load_all_chunks] over the fetched rows. *)
Fixpoint decode_rows (rs : list row) (chunks : list (Z * pystr * pystr * vec))
  : res (list (Z * pystr * pystr * vec)) :=
  match rs with
  | [] => Ok chunks
  | (_id, doc_name, chunk_text, emb_json) :: rs' =>
      match json_loads emb_json with
      | Ok emb => decode_rows rs' (chunks ++ [(_id, doc_name, chunk_text, emb)])
      | Raise e => Raise e
      | Diverge => Diverge
      end
  end.

(** [SELECT id, doc_name, chunk_text, embedding FROM chunks], a scan of
    the table in the order of its row ids, and the decoding of every
    row. *)
Definition load_all_chunks : M (list (Z * pystr * pystr * vec)) :=
  t <- get_db ;;
  match t with
  | Some t => fun w => (decode_rows (rows t) [], w)
  | None => raise no_such_table
  end.

(** ** Embeddings + retrieval *)

Definition embed_text (texts : list pystr) : M (list vec) :=
  fun w =>
    (Ok (map encode texts),
     mk_world (cache w) (db w) (docs w) (embed_calls w ++ [texts])
              (llm_calls w)).

Definition cosine_sim (a b : vec) : score := np_dot a b.

(** [l[0]] *)
Definition index0 {A : Type} (l : list A) : M A :=
  match l with
  | x :: _ => ret x
  | [] => raise (Exception "IndexError")
  end.

Definition get_query_embedding (query : pystr) : M vec :=
  let q := strip query in
  c <- get_cache ;;
  match dict_get q c with
  | Some v => ret v
  | None =>
      embs <- embed_text [q] ;;
      emb <- index0 embs ;;
      c <- get_cache ;;
      (if MAX_QUERY_CACHE_SIZE <=? len c then
         match c with
         | (k0, _) :: _ => set_cache (dict_remove k0 c)
         | [] => raise (Exception "StopIteration")
         end
       else ret tt) ;;;
      c <- get_cache ;;
      set_cache (dict_set q emb c) ;;;
      ret emb
  end.

Definition scored_chunk : Type := (score * pystr * pystr)%type.

Definition score_of (x : scored_chunk) : score := fst (fst x).

(** The scoring loop of [retrieve_top_k]. *)
Definition score_chunks (query_vec : vec)
    (chunks : list (Z * pystr * pystr * vec)) : list scored_chunk :=
  fold_left
    (fun scored '(_, doc_name, chunk_text, emb) =>
       scored ++ [(cosine_sim query_vec emb, doc_name, chunk_text)])
    chunks [].

Definition retrieve_top_k (query : pystr) (k : Z) : M (list scored_chunk) :=
  query_vec <- get_query_embedding query ;;
  chunks <- load_all_chunks ;;
  let scored := score_chunks query_vec chunks in
  let scored := sort_reverse score_of score_ltb scored in
  ret (py_slice scored 0 k).

(** ** Document indexing *)

Definition unicode_decode_error : exn := Exception "UnicodeDecodeError".

Definition allowed_suffix (name : pystr) : bool :=
  let sfx := path_suffix name in
  if pystr_eq_dec sfx (lit ".txt") then true
  else if pystr_eq_dec sfx (lit ".md") then true else false.

(** The body of the loop of [index_documents] for one directory entry. *)
Definition index_one (path : dirent) : M unit :=
  if negb (d_is_file path) then ret tt
  else if negb (allowed_suffix (d_name path)) then ret tt
  else
    let doc_name := d_name path in
    match d_text path with
    | None => raise unicode_decode_error
    | Some text =>
        match Chunker.chunk_text text DEFAULT_MAX_CHARS with
        | None => diverge
        | Some raw_chunks =>
            let chunks_with_header := map (with_header doc_name) raw_chunks in
            embeddings <- embed_text chunks_with_header ;;
            for_each (combine chunks_with_header embeddings)
              (fun '(chunk_text_str, emb_vec) =>
                 insert_chunk doc_name chunk_text_str emb_vec)
        end
    end.

Definition index_documents : M unit :=
  init_db ;;;
  clear_db ;;;
  d <- get_docs ;;
  match d with
  | None => ret tt
  | Some entries => for_each entries index_one
  end.

(** ** LLM call *)

(** [f"Context:\n{context}\n\nQuestion: {question}"] *)
Definition user_prompt (context question : pystr) : pystr :=
  lit "Context:" ++ [nl] ++ context ++ [nl; nl] ++ lit "Question: "
  ++ question.

Definition call_llm (context question : pystr) : M pystr :=
  fun w =>
    let prompt := user_prompt context question in
    let w' := mk_world (cache w) (db w) (docs w) (embed_calls w)
                       (llm_calls w ++ [(SYSTEM_PROMPT, prompt)]) in
    match chat_completion (llm_calls w) SYSTEM_PROMPT prompt with
    | inl content => (Ok (strip content), w')
    | inr e => (Raise e, w')
    end.

(** ** RAG pipeline *)

(** [snippet = chunk_text.replace("\n", " ")] and its cut at 120. *)
Definition make_snippet (chunk_text : pystr) : pystr :=
  let snippet := replace_char nl space chunk_text in
  if 120 <? len snippet then py_slice snippet 0 120 ++ lit "..." else snippet.

(** [f"- {doc_name} (score={score:.3f}) → \"{snippet}\""] *)
Definition source_line (doc_name : pystr) (s : score) (snippet : pystr)
  : pystr :=
  lit "- " ++ doc_name ++ lit " (score=" ++ format_3f s ++ lit ") "
  ++ [rarrow] ++ lit " " ++ [dquote] ++ snippet ++ [dquote].

(** [f"[From {doc_name}, score={score:.3f}]\n{chunk_text}\n\n"] *)
Definition context_block (doc_name : pystr) (s : score) (chunk_text : pystr)
  : pystr :=
  lit "[From " ++ doc_name ++ lit ", score=" ++ format_3f s ++ lit "]"
  ++ [nl] ++ chunk_text ++ [nl; nl].

(** One iteration of the loop over [top_chunks], on the pair
    [(context_str, sources_lines)]. *)
Definition pipeline_step (acc : pystr * list pystr) (c : scored_chunk)
  : pystr * list pystr :=
  let '(context_str, sources_lines) := acc in
  let '(s, doc_name, chunk_text) := c in
  (context_str ++ context_block doc_name s chunk_text,
   sources_lines ++ [source_line doc_name s (make_snippet chunk_text)]).

Definition run_rag_pipeline (query : pystr) : M (pystr * list pystr) :=
  top_chunks <- retrieve_top_k query TOP_K ;;
  match top_chunks with
  | [] => ret (NO_DOCS_MESSAGE, [])
  | _ :: _ =>
      let '(context_str, sources_lines) :=
        fold_left pipeline_step top_chunks ([], []) in
      r <- try_except
             (answer <- call_llm context_str query ;; ret (inl answer))
             (fun e => ret (inr (LLM_ERROR_MESSAGE, []))) ;;
      match r with
      | inl answer => ret (answer, sources_lines)
      | inr early => ret early
      end
  end.

(** A run of the cache over a sequence of queries. *)
Definition run_queries (qs : list pystr) : M unit :=
  for_each qs (fun q => get_query_embedding q ;;; ret tt).

(** ** Loop invariant of the chunker *)

(** After [n] iterations the index is [n * max_chars], the chunks are
    the first [n] windows of the text and together spell its prefix up
    to the index; the index never overshoots by a full window. *)
Definition chunk_inv (text : pystr) (m : Z) (st : Chunker.state) : Prop :=
  Chunker.start st = len (Chunker.chunks st) * m /\
  Chunker.start st < len text + m /\
  concat (Chunker.chunks st) = py_slice text 0 (Chunker.start st) /\
  Forall (fun c => len c <= m) (Chunker.chunks st) /\
  (forall i, (i < length (Chunker.chunks st))%nat ->
     nth i (Chunker.chunks st) [] =
     py_slice text (Z.of_nat i * m) (Z.of_nat i * m + m)).

(** ** Vocabulary of the cache properties *)

(** A string of white space only. *)
Definition blank (s : pystr) : Prop := Forall (fun c => isspace c = true) s.

(** The entry that a miss on [q] adds. *)
Definition entry_of (q : pystr) : pystr * vec := (strip q, encode (strip q)).

(** ** Vocabulary of the store and retrieval properties *)

Definition row_id (r : row) : Z := fst (fst (fst r)).

(** The ids of a table grow along its rows and stay below the counter:
    what AUTOINCREMENT keeps true. *)
Definition table_ok (t : table) : Prop :=
  StronglySorted Z.lt (map row_id (rows t)) /\
  Forall (fun r => row_id r <= seq t) (rows t).

(** A loaded chunk is the decoded form of a row. *)
Definition decodes (r : row) (c : Z * pystr * pystr * vec) : Prop :=
  let '(id, doc_name, chunk_text, emb_json) := r in
  let '(id', doc_name', chunk_text', emb) := c in
  id' = id /\ doc_name' = doc_name /\ chunk_text' = chunk_text /\
  json_loads emb_json = Ok emb.

(** A scored chunk together with the id of its row. *)
Definition tagged (query_vec : vec) (c : Z * pystr * pystr * vec)
  : Z * scored_chunk :=
  let '(id, doc_name, chunk_text, emb) := c in
  (id, (cosine_sim query_vec emb, doc_name, chunk_text)).


(** [a] ranks before [b]: it does not score below [b], and when the
    two scores tie its row id is the smaller one. *)
Definition ranks_before (a b : Z * scored_chunk) : Prop :=
  score_ltb (score_of (snd a)) (score_of (snd b)) = false /\
  (score_ltb (score_of (snd b)) (score_of (snd a)) = false -> fst a < fst b).


(** ** Vocabulary of the indexing and pipeline properties *)

Definition row_doc_text (r : row) : pystr * pystr :=
  (snd (fst (fst r)), snd (fst r)).

Definition row_json (r : row) : pystr := snd r.

(** An entry that [index_documents] does not skip. *)
Definition indexable (e : dirent) : bool :=
  d_is_file e && allowed_suffix (d_name e).

(** The raw chunks of a text at the default width. *)
Definition windows (text : pystr) : list pystr :=
  match Chunker.chunk_text text DEFAULT_MAX_CHARS with
  | Some cs => cs
  | None => []
  end.

(** The stored texts of one entry. *)
Definition entry_texts (e : dirent) : list pystr :=
  if indexable e then
    match d_text e with
    | Some text => map (with_header (d_name e)) (windows text)
    | None => []
    end
  else [].

(** The (doc_name, chunk_text) pairs that one entry contributes. *)
Definition labelled_chunks (e : dirent) : list (pystr * pystr) :=
  map (fun c => (d_name e, c)) (entry_texts e).

(** Rows for the texts [cs] of document [doc_name], numbered after [s]. *)
Fixpoint number_rows (s : Z) (doc_name : pystr) (cs : list pystr) : list row :=
  match cs with
  | [] => []
  | c :: cs' =>
      (s + 1, doc_name, c, json_dumps (encode c))
      :: number_rows (s + 1) doc_name cs'
  end.

(** Rows for a whole directory, numbered after [s]. *)
Fixpoint directory_rows (s : Z) (entries : list dirent) : list row :=
  match entries with
  | [] => []
  | e :: es =>
      number_rows s (d_name e) (entry_texts e)
      ++ directory_rows (s + len (entry_texts e)) es
  end.

(** Every entry that is indexed can be read as UTF-8. *)
Definition readable (entries : list dirent) : Prop :=
  Forall (fun e => indexable e = true -> d_text e <> None) entries.

(** The context string and the source lines that the loop of
    [run_rag_pipeline] builds. *)
Definition context_of (top_chunks : list scored_chunk) : pystr :=
  fst (fold_left pipeline_step top_chunks ([], [])).

Definition sources_of (top_chunks : list scored_chunk) : list pystr :=
  snd (fold_left pipeline_step top_chunks ([], [])).

(** The source line of one retrieved chunk. *)
Definition citation (c : scored_chunk) : pystr :=
  let '(s, doc_name, chunk_text) := c in
  source_line doc_name s (make_snippet chunk_text).


(** ** Vocabulary of the sorting properties *)

(** In an ascending stable sort of a list whose tags fall, [a] may come
    before [b]: the key of [b] is not below that of [a], and when the
    two keys tie the tag of [b] is the smaller one. *)
Definition rises {A K : Type} (key : A -> K) (ltb : K -> K -> bool)
    (tag : A -> Z) (a b : A) : Prop :=
  ltb (key b) (key a) = false /\
  (ltb (key a) (key b) = false -> tag b < tag a).

(** The table exists, its ids are in order and its rows decode: what
    [retrieve_top_k] relies on. *)
Definition store_ok (w : world) : Prop :=
  exists t chunks,
    db w = Some t /\ table_ok t /\ decode_rows (rows t) [] = Ok chunks.

(** ** Vocabulary of the further properties *)

(** A string that [strip] leaves as it is. *)
Definition trimmed (s : pystr) : Prop := strip s = s.

(** A cache as the program builds it: distinct keys, every key a
    stripped query, every value the embedding of its key. *)
Definition cache_coherent (c : dict vec) : Prop :=
  NoDup (dict_keys c) /\
  Forall (fun e => trimmed (fst e) /\ snd e = encode (fst e)) c.

(** The context block of one retrieved chunk. *)
Definition block_of (c : scored_chunk) : pystr :=
  let '(s, doc_name, chunk_text) := c in context_block doc_name s chunk_text.

(** The AUTOINCREMENT counter of a database: 0 before the table exists. *)
Definition counter (w : world) : Z :=
  match db w with
  | Some t => seq t
  | None => 0
  end.

(** What a row holds besides its id. *)
Definition row_content (r : row) : pystr * pystr * pystr :=
  (snd (fst (fst r)), snd (fst r), snd r).

(** What the table holds besides the ids, when there is a table. *)
Definition stored (w : world) : option (list (pystr * pystr * pystr)) :=
  match db w with
  | Some t => Some (map row_content (rows t))
  | None => None
  end.

(** The contents that indexing a directory stores. *)
Definition directory_contents (entries : list dirent)
  : list (pystr * pystr * pystr) :=
  flat_map
    (fun e => map (fun c => (d_name e, c, json_dumps (encode c)))
                  (entry_texts e))
    entries.

(** [key] is [query] without its surrounding white space: white space
    before it and after it, none at either end of it. *)
Definition stripped_of (query key : pystr) : Prop :=
  (exists a b, query = a ++ key ++ b /\ blank a /\ blank b) /\
  (forall c r, key = c :: r -> isspace c = false) /\
  (forall c r, key = r ++ [c] -> isspace c = false).

(** A regular file whose name is a non-empty stem followed by [.txt] or
    by [.md]. *)
Definition text_file (e : dirent) : Prop :=
  d_is_file e = true /\
  exists stem,
    stem <> [] /\
    (d_name e = stem ++ lit ".txt" \/ d_name e = stem ++ lit ".md").

End Core.

Notation "x <- m ;; k" := (bind m (fun x => k))
  (at level 61, m at next level, right associativity).
Notation "m ;;; k" := (bind m (fun _ => k))
  (at level 61, right associativity).

(** ** The callers of the pipeline: [rag_answer] and the bot handlers *)

(** [str.lower()] on a string that is not all ASCII, which follows the
    Unicode case tables. *)
Class CaseTable : Type := {
  lower_unicode : pystr -> pystr
}.

Section FrontEnds.

Context {C : Collaborators} {U : CaseTable}.

Definition is_ascii (c : pychar) : bool := (c <? 128)%N.

Definition ascii_lower (c : pychar) : pychar :=
  if ((65 <=? c) && (c <=? 90))%N then (c + 32)%N else c.

(** [s.lower()]: on an ASCII string, [A]-[Z] become [a]-[z]. *)
Definition lower (s : pystr) : pystr :=
  if forallb is_ascii s then map ascii_lower s else lower_unicode s.

(** [x in l] for a list of strings. *)
Definition pystr_in (x : pystr) (l : list pystr) : bool :=
  existsb (fun y => if pystr_eq_dec y x then true else false) l.

Definition emdash : pychar := 8212%N.     (* U+2014 *)
Definition endash : pychar := 8211%N.     (* U+2013 *)
Definition ellipsis : pychar := 8230%N.   (* U+2026 *)

Definition get_help_text : pystr :=
  lit "Hi! I am a simple RAG bot." ++ [nl; nl]
  ++ lit "Commands:" ++ [nl]
  ++ lit "/ask <your question> - Ask me something about the docs." ++ [nl]
  ++ lit "/image - (Not enabled in this variant, I only handle text.)" ++ [nl]
  ++ lit "/help - Show this message." ++ [nl]
  ++ lit "/summarize - Summarize your recent interactions." ++ [nl].

Definition ENTER_QUESTION : pystr := lit "Please enter a question.".
Definition LOCAL_HELP_NOTE : pystr :=
  lit "Local help message " ++ [emdash] ++ lit " no retrieval done.".
Definition IMAGE_MESSAGE : pystr :=
  lit "This bot is running the Mini-RAG (text) variant." ++ [nl]
  ++ lit "Image mode is not enabled here; I only handle text questions "
  ++ lit "over the stored documents.".
Definition IMAGE_NOTE : pystr := lit "Image mode disabled in this variant.".
Definition NO_SOURCES : pystr := lit "Sources used: (none)".

(** ["Sources used:\n" + "\n".join(sources_lines)], or the note that
    there is none. *)
Definition human_sources (sources_lines : list pystr) : pystr :=
  match sources_lines with
  | [] => NO_SOURCES
  | _ :: _ => lit "Sources used:" ++ [nl] ++ join [nl] sources_lines
  end.

Definition rag_answer (query : pystr) : M (pystr * pystr) :=
  let query := strip query in
  match query with
  | [] => ret (ENTER_QUESTION, [])
  | _ :: _ =>
      if pystr_in (lower query) [lit "/start"; lit "/help"]
      then ret (get_help_text, LOCAL_HELP_NOTE)
      else if pystr_in (lower query) [lit "image"; lit "/image"]
      then ret (IMAGE_MESSAGE, IMAGE_NOTE)
      else
        r <- run_rag_pipeline query ;;
        let '(answer, sources_lines) := r in
        ret (answer, human_sources sources_lines)
  end.

(** *** telegram_bot.py *)

(** One question with its answer. *)
Definition turn : Type := (pystr * pystr)%type.

(** The bot process: the state of the core, [user_history] (a dict from
    user id to a [deque(maxlen=3)], in insertion order) and the texts
    sent with [reply_text], in order. *)
Record bot : Type := mk_bot {
  core : world;
  user_history : list (Z * list turn);
  replies : list pystr
}.

Definition HISTORY_MAXLEN : Z := 3.

(** [d.append(x)] on a deque with [maxlen]: the item goes to the right
    end, and the left end goes when the deque is then too long. *)
Definition deque_append (d : list turn) (x : turn) : list turn :=
  let d' := d ++ [x] in
  if HISTORY_MAXLEN <? len d' then tl d' else d'.

(** [user_history.get(user_id)] *)
Fixpoint history_get (user_id : Z) (h : list (Z * list turn))
  : option (list turn) :=
  match h with
  | [] => None
  | (u, d) :: h' => if (u =? user_id) then Some d else history_get user_id h'
  end.

Fixpoint history_set (user_id : Z) (d : list turn) (h : list (Z * list turn))
  : list (Z * list turn) :=
  match h with
  | [] => [(user_id, d)]
  | (u, d') :: h' =>
      if (u =? user_id) then (u, d) :: h'
      else (u, d') :: history_set user_id d h'
  end.

(** [user_history[user_id].append(x)]: a missing user first gets an
    empty deque. *)
Definition record_turn (user_id : Z) (x : turn) (h : list (Z * list turn))
  : list (Z * list turn) :=
  let d := match history_get user_id h with Some d => d | None => [] end in
  history_set user_id (deque_append d x) h.

(** [await update.message.reply_text(text)] *)
Definition reply_text (text : pystr) (b : bot) : bot :=
  mk_bot (core b) (user_history b) (replies b ++ [text]).

Definition USAGE : pystr := lit "Usage: /ask <your question>".
Definition THINKING : pystr :=
  lit "Thinking" ++ [ellipsis] ++ lit " retrieving relevant info from docs...".

(** The reply of [ask]: [f"Answer:\n{answer}"], then the sources when
    there are some. *)
Definition answer_reply (answer : pystr) (sources_lines : list pystr) : pystr :=
  lit "Answer:" ++ [nl] ++ answer
  ++ match sources_lines with
     | [] => []
     | _ :: _ =>
         [nl; nl] ++ lit "Sources used:" ++ [nl] ++ join [nl] sources_lines
     end.

(** The handler of [/ask], for the arguments of the command and the id
    of the user. *)
Definition ask (args : list pystr) (user_id : Z) (b : bot) : res unit * bot :=
  match args with
  | [] => (Ok tt, reply_text USAGE b)
  | _ :: _ =>
      let query := strip (join [space] args) in
      let b := reply_text THINKING b in
      match run_rag_pipeline query (core b) with
      | (Ok (answer, sources_lines), c') =>
          let b := mk_bot c' (user_history b) (replies b) in
          let b := reply_text (answer_reply answer sources_lines) b in
          (Ok tt,
           mk_bot (core b) (record_turn user_id (query, answer) (user_history b))
                  (replies b))
      | (Raise e, c') => (Raise e, mk_bot c' (user_history b) (replies b))
      | (Diverge, c') => (Diverge, mk_bot c' (user_history b) (replies b))
      end
  end.

(** [str(i)] for an integer. *)
Definition str_of_int (i : Z) : pystr :=
  lit (NilZero.string_of_int (Z.to_int i)).

(** One iteration of the loop of [summarize_cmd] over
    [enumerate(history, start=1)], on the index and the text so far:
    [convo_text += f"Q{i}: {q}\nA{i}: {a}\n\n"]. *)
Definition convo_step (acc : Z * pystr) (t : turn) : Z * pystr :=
  let '(i, convo_text) := acc in
  let '(q, a) := t in
  (i + 1,
   convo_text ++ lit "Q" ++ str_of_int i ++ lit ": " ++ q ++ [nl]
   ++ lit "A" ++ str_of_int i ++ lit ": " ++ a ++ [nl; nl]).

Definition convo_text_of (history : list turn) : pystr :=
  snd (fold_left convo_step history (1, [])).

Definition NOTHING_TO_SUMMARIZE : pystr :=
  lit "I don't have any recent interactions to summarize yet." ++ [nl]
  ++ lit "Ask me something first using /ask, then try /summarize.".
Definition SUMMARY_QUESTION : pystr :=
  lit "Please provide a short, clear summary (2" ++ [endash]
  ++ lit "3 sentences) of the conversation above.".
Definition SUMMARY_ERROR : pystr := lit "Error summarizing the conversation.".

(** The handler of [/summarize]. *)
Definition summarize_cmd (user_id : Z) (b : bot) : res unit * bot :=
  match history_get user_id (user_history b) with
  | None | Some [] => (Ok tt, reply_text NOTHING_TO_SUMMARIZE b)
  | Some ((_ :: _) as history) =>
      let convo_text := convo_text_of history in
      match call_llm convo_text SUMMARY_QUESTION (core b) with
      | (Ok summary, c') =>
          (Ok tt,
           reply_text
             (lit "Summary of your recent interactions:" ++ [nl] ++ summary)
             (mk_bot c' (user_history b) (replies b)))
      | (Raise (Exception n), c') =>
          (Ok tt,
           reply_text SUMMARY_ERROR (mk_bot c' (user_history b) (replies b)))
      | (Raise (BaseException n), c') =>
          (Raise (BaseException n), mk_bot c' (user_history b) (replies b))
      | (Diverge, c') => (Diverge, mk_bot c' (user_history b) (replies b))
      end
  end.

(** A command that reaches the bot. *)
Inductive command : Type :=
| Ask (args : list pystr) (user_id : Z)
| Summarize (user_id : Z).

Definition handle (c : command) (b : bot) : res unit * bot :=
  match c with
  | Ask args user_id => ask args user_id b
  | Summarize user_id => summarize_cmd user_id b
  end.

(** The bot over a sequence of commands; a handler that raises ends its
    own command only. *)
Fixpoint serve (cs : list command) (b : bot) : bot :=
  match cs with
  | [] => b
  | c :: cs' => serve cs' (snd (handle c b))
  end.

(** *** Vocabulary of their properties *)

(** The turns on record for a user. *)
Definition history_of (user_id : Z) (b : bot) : list turn :=
  match history_get user_id (user_history b) with
  | Some d => d
  | None => []
  end.

(** The four inputs that [rag_answer] answers by itself. *)
Definition local_command (q : pystr) : bool :=
  pystr_in (lower q) [lit "/start"; lit "/help"]
  || pystr_in (lower q) [lit "image"; lit "/image"].

End FrontEnds.

(** ** A small instance of the collaborators, to run the model *)

Module Toy.

(** Vectors of bits in place of float32 arrays: a bit is written ["1.0"]
    or ["0.0"], and the score of two vectors counts their common bits. *)
Definition bit_repr (b : bool) : pystr := if b then lit "1.0" else lit "0.0".

Definition bit_parse (s : pystr) : option bool :=
  if pystr_eq_dec s (lit "1.0") then Some true
  else if pystr_eq_dec s (lit "0.0") then Some false
  else None.

Definition bit_dot (a b : list bool) : Z :=
  fold_right Z.add 0
    (map (fun p => if fst p && snd p then 1 else 0) (combine a b)).

Definition format_count (z : Z) : pystr :=
  lit (NilZero.string_of_int (Z.to_int z)) ++ lit ".000".

(** The embedding of a text: whether it holds an [a], and whether it
    holds a [b]. *)
Definition bit_encode (s : pystr) : list bool :=
  [existsb (N.eqb 97) s; existsb (N.eqb 98) s].

(** A chat service that answers its first request and refuses the
    later ones. *)
Definition chat_once (history : list (pystr * pystr)) (system user : pystr)
  : pystr + exn :=
  match history with
  | [] => inl (lit " From the context: yes. ")
  | _ :: _ => inr (Exception "openai.error.RateLimitError")
  end.

Definition bits : Collaborators := {|
  f32 := bool;
  float_repr := bit_repr;
  float_parse := bit_parse;
  score := Z;
  np_dot := bit_dot;
  score_ltb := Z.ltb;
  format_3f := format_count;
  encode := bit_encode;
  chat_completion := chat_once
|}.

(** Three stored chunks. *)
Definition stored_rows : list row :=
  [ (1, lit "a.txt", with_header (lit "a.txt") (lit "alpha"), lit "[1.0, 0.0]");
    (2, lit "b.md", with_header (lit "b.md") (lit "beta"), lit "[1.0, 1.0]");
    (3, lit "c.txt", with_header (lit "c.txt") (lit "gamma"), lit "[1.0, 0.0]") ].

Definition stored_table : table := mk_table stored_rows 3.

Definition stored_chunks : list (Z * pystr * pystr * list bool) :=
  [ (1, lit "a.txt", with_header (lit "a.txt") (lit "alpha"), [true; false]);
    (2, lit "b.md", with_header (lit "b.md") (lit "beta"), [true; true]);
    (3, lit "c.txt", with_header (lit "c.txt") (lit "gamma"), [true; false]) ].

(** A fresh process over that store: empty cache, no call made yet. *)
Definition fresh : world (C := bits) :=
  mk_world (C := bits) [] (Some stored_table) None [] [].

(** The same store after one chat completion was requested. *)
Definition busy : world (C := bits) :=
  mk_world (C := bits) [] (Some stored_table) None []
           [(SYSTEM_PROMPT, lit "earlier")].

(** A process started over a documents directory that holds [a.txt]. *)
Definition one_file : world (C := bits) :=
  mk_world (C := bits) [] None
    (Some [mk_dirent (lit "a.txt") true (Some (lit "hello world"))]) [] [].

(** A process started where the documents directory is missing. *)
Definition no_docs : world (C := bits) :=
  mk_world (C := bits) [] None None [] [].

(** 101 queries with distinct keys. *)
Definition many_queries : list pystr :=
  map (fun n => [N.of_nat n]) (List.seq 200%nat 101%nat).

(** What retrieval returns for the query [" ab "], and the state it
    leaves. *)
Definition top_of (w : world (C := bits)) : list (scored_chunk (C := bits)) :=
  match fst (retrieve_top_k (C := bits) (lit " ab ") TOP_K w) with
  | Ok top => top
  | _ => []
  end.

Definition after_retrieval (w : world (C := bits)) : world (C := bits) :=
  snd (retrieve_top_k (C := bits) (lit " ab ") TOP_K w).

End Toy.


(** ** More small worlds, for the further properties *)

Module Examples.

(** A case table that leaves non-ASCII strings as they are. *)
Definition plain_case : CaseTable := {| lower_unicode := fun s => s |}.

(** A process whose cache is full: the state after the 101 queries. *)
Definition full_cache : world (C := Toy.bits) :=
  snd (run_queries (C := Toy.bits) Toy.many_queries Toy.no_docs).

Definition a_txt : dirent :=
  mk_dirent (lit "a.txt") true (Some (lit "hello world")).
Definition b_md_bad : dirent := mk_dirent (lit "b.md") true None.
Definition c_txt : dirent := mk_dirent (lit "c.txt") true (Some (lit "more")).

(** A process over the stored table and a directory that holds [a.txt]. *)
Definition reindex : world (C := Toy.bits) :=
  mk_world (C := Toy.bits) [] (Some Toy.stored_table) (Some [a_txt]) [] [].

(** The same with a file in the middle that is not valid UTF-8. *)
Definition broken_dir : world (C := Toy.bits) :=
  mk_world (C := Toy.bits) [] (Some Toy.stored_table)
           (Some ([a_txt] ++ b_md_bad :: [c_txt])) [] [].

(** The pipeline run for the query [" ab "] on the fresh process. *)
Definition piped
  : res (pystr * list pystr) * world (C := Toy.bits) :=
  run_rag_pipeline (C := Toy.bits) (lit " ab ") Toy.fresh.

Definition piped_answer : pystr :=
  match fst piped with Ok r => fst r | _ => [] end.
Definition piped_sources : list pystr :=
  match fst piped with Ok r => snd r | _ => [] end.

(** The pipeline run for the stripped query ["ab"]. *)
Definition asked
  : res (pystr * list pystr) * world (C := Toy.bits) :=
  run_rag_pipeline (C := Toy.bits) (lit "ab") Toy.fresh.

Definition asked_answer : pystr :=
  match fst asked with Ok r => fst r | _ => [] end.
Definition asked_sources : list pystr :=
  match fst asked with Ok r => snd r | _ => [] end.

(** A bot that has just started, and a conversation with two users. *)
Definition idle : bot (C := Toy.bits) := mk_bot (C := Toy.bits) Toy.fresh [] [].

Definition chat : list command :=
  [ Ask [lit "ab"] 7; Ask [] 7; Ask [lit "a"; lit "b"] 7; Summarize 7;
    Ask [lit "b"] 8; Ask [lit "x"] 7; Ask [lit "y"] 7 ].

(** A stored chunk of 163 characters, fifty-one of them newlines. *)
Definition long_text : pystr :=
  with_header (lit "n.txt") (concat (repeat (lit "ab" ++ [nl]) 50)).

(** A fresh process over a store that holds that one chunk. *)
Definition long_store : world (C := Toy.bits) :=
  mk_world (C := Toy.bits) []
    (Some (mk_table [(1, lit "n.txt", long_text, lit "[1.0, 1.0]")] 1))
    None [] [].

End Examples.

Section Properties.

Context {C : Collaborators}.

(** ** Lemmas on slices *)

Lemma len_nonneg {A : Type} (s : list A) : 0 <= len s.
Proof. unfold len; lia. Qed.

Lemma len_app {A : Type} (s t : list A) : len (s ++ t) = len s + len t.
Proof. unfold len; rewrite length_app; lia. Qed.

Lemma slice_index_nonneg (n i : Z) :
  0 <= n -> 0 <= i -> slice_index n i = Z.min i n.
Proof.
  intros Hn Hi; unfold slice_index.
  destruct (Z.ltb_spec i 0); [lia | reflexivity].
Qed.

Lemma py_slice_nonneg {A : Type} (s : list A) (i j : Z) :
  0 <= i -> 0 <= j ->
  py_slice s i j =
  firstn (Z.to_nat (Z.min j (len s) - Z.min i (len s)))
         (skipn (Z.to_nat (Z.min i (len s))) s).
Proof.
  intros Hi Hj; unfold py_slice.
  rewrite !slice_index_nonneg by (auto using len_nonneg).
  reflexivity.
Qed.

Lemma py_slice_length {A : Type} (s : list A) (i m : Z) :
  0 <= i -> 0 < m -> len (py_slice s i (i + m)) <= m.
Proof.
  intros Hi Hm; rewrite py_slice_nonneg by lia.
  unfold len; rewrite length_firstn; lia.
Qed.

Lemma py_slice_prefix_snoc {A : Type} (s : list A) (i m : Z) :
  0 <= i -> 0 <= m ->
  py_slice s 0 i ++ py_slice s i (i + m) = py_slice s 0 (i + m).
Proof.
  intros Hi Hm; rewrite !py_slice_nonneg by lia.
  pose proof (len_nonneg s) as Hs.
  replace (Z.min 0 (len s)) with 0 by lia.
  change (Z.to_nat 0) with 0%nat; cbn [skipn].
  rewrite !Z.sub_0_r.
  set (a := Z.to_nat (Z.min i (len s))).
  set (b := Z.to_nat (Z.min (i + m) (len s) - Z.min i (len s))).
  replace (Z.to_nat (Z.min (i + m) (len s))) with (a + b)%nat by (subst a b; lia).
  rewrite <- (firstn_skipn a (firstn (a + b) s)).
  rewrite firstn_firstn, skipn_firstn_comm.
  replace (Nat.min a (a + b)) with a by lia.
  replace (a + b - a)%nat with b by lia.
  reflexivity.
Qed.

Lemma py_slice_all {A : Type} (s : list A) (j : Z) :
  len s <= j -> py_slice s 0 j = s.
Proof.
  intros Hj; pose proof (len_nonneg s) as Hs.
  rewrite py_slice_nonneg by lia.
  replace (Z.min 0 (len s)) with 0 by lia.
  replace (Z.min j (len s)) with (len s) by lia.
  cbn [Z.to_nat skipn]; rewrite Z.sub_0_r.
  unfold len; rewrite Nat2Z.id; apply firstn_all.
Qed.

(** ** The chunker *)

Lemma chunk_inv_init (text : pystr) (m : Z) :
  0 < m -> chunk_inv text m Chunker.init.
Proof.
  intros Hm; pose proof (len_nonneg text).
  unfold chunk_inv; cbn [Chunker.init Chunker.start Chunker.chunks concat length].
  repeat split; try (unfold len; cbn [length]; lia).
  - unfold py_slice; rewrite Z.sub_diag; reflexivity.
  - constructor.
Qed.

Lemma chunk_inv_body (text : pystr) (m : Z) (st : Chunker.state) :
  0 < m -> chunk_inv text m st -> Chunker.guard text st = true ->
  chunk_inv text m (Chunker.body text m st).
Proof.
  intros Hm (Hs & Hlt & Hcat & Hall & Hnth) Hg.
  unfold Chunker.guard in Hg; apply Z.ltb_lt in Hg.
  pose proof (len_nonneg (Chunker.chunks st)) as Hn.
  assert (Hs0 : 0 <= Chunker.start st) by nia.
  unfold chunk_inv, Chunker.body; cbn [Chunker.start Chunker.chunks].
  rewrite len_app; change (len [_]) with 1.
  repeat split.
  - lia.
  - lia.
  - rewrite concat_app; cbn [concat]; rewrite app_nil_r, Hcat.
    apply py_slice_prefix_snoc; lia.
  - apply Forall_app; split; [assumption|].
    constructor; [|constructor].
    apply py_slice_length; lia.
  - intros i Hi; rewrite length_app in Hi; cbn in Hi.
    destruct (Nat.eq_dec i (length (Chunker.chunks st))) as [->|Hne].
    + rewrite nth_middle.
      unfold len in Hs; rewrite <- Hs; reflexivity.
    + rewrite app_nth1 by lia. apply Hnth; lia.
Qed.

Lemma chunk_loop_runs (text : pystr) (m : Z) :
  0 < m ->
  forall (fuel : nat) (st : Chunker.state),
    chunk_inv text m st ->
    (Z.to_nat (len text - Chunker.start st) < fuel)%nat ->
    exists st',
      Chunker.loop fuel text m st = Some (Chunker.chunks st') /\
      chunk_inv text m st' /\ len text <= Chunker.start st'.
Proof.
  intros Hm; induction fuel as [|fuel IH]; intros st Hinv Hfuel; [lia|].
  cbn [Chunker.loop].
  destruct (Chunker.guard text st) eqn:Hg.
  - apply IH.
    + apply chunk_inv_body; assumption.
    + unfold Chunker.guard in Hg; apply Z.ltb_lt in Hg.
      unfold Chunker.body; cbn [Chunker.start]; lia.
  - exists st; repeat split; try assumption; try apply Hinv.
    unfold Chunker.guard in Hg; apply Z.ltb_ge in Hg; exact Hg.
Qed.

Lemma chunk_loop_more_fuel (text : pystr) (m : Z) (cs : list pystr) :
  forall (fuel fuel' : nat) (st : Chunker.state),
    Chunker.loop fuel text m st = Some cs -> (fuel <= fuel')%nat ->
    Chunker.loop fuel' text m st = Some cs.
Proof.
  induction fuel as [|fuel IH]; intros fuel' st Hrun Hle; [discriminate|].
  destruct fuel' as [|fuel']; [lia|].
  cbn [Chunker.loop] in *.
  destruct (Chunker.guard text st); [|assumption].
  apply IH; [assumption | lia].
Qed.

Lemma chunk_loop_stuck (text : pystr) (m : Z) :
  m <= 0 -> text <> [] ->
  forall (fuel : nat) (st : Chunker.state),
    Chunker.start st <= 0 -> Chunker.loop fuel text m st = None.
Proof.
  intros Hm Hne; induction fuel as [|fuel IH]; intros st Hst; [reflexivity|].
  cbn [Chunker.loop].
  assert (Hg : Chunker.guard text st = true).
  { unfold Chunker.guard; apply Z.ltb_lt.
    destruct text; [congruence | unfold len; cbn [length]; lia]. }
  rewrite Hg; apply IH.
  unfold Chunker.body; cbn [Chunker.start]; lia.
Qed.

Lemma ceil_div_bracket (n m k : Z) :
  0 < m -> n <= k * m -> k * m < n + m -> k = Chunker.ceil_div n m.
Proof.
  intros Hm Hlo Hhi; unfold Chunker.ceil_div.
  apply Z.div_unique with (r := n + m - 1 - k * m); lia.
Qed.

Lemma chunk_text_returns (text : pystr) (m : Z) :
  0 < m -> exists cs, Chunker.chunk_text text m = Some cs.
Proof.
  intros Hm.
  destruct (chunk_loop_runs text m Hm (S (length text)) Chunker.init)
    as (st & Hrun & _).
  - apply chunk_inv_init; assumption.
  - cbn [Chunker.start Chunker.init]; unfold len; lia.
  - exists (Chunker.chunks st); exact Hrun.
Qed.

(** C1: for [max_chars > 0], [chunk_text] returns the consecutive windows
    of the text of width [max_chars]; their concatenation is the text,
    none is longer than [max_chars], there are [ceil(len(text) / max_chars)]
    of them, and the empty text gives no chunk. *)
Theorem chunk_text_partition (text : pystr) (max_chars : Z) :
  0 < max_chars ->
  exists cs,
    Chunker.chunk_text text max_chars = Some cs /\
    concat cs = text /\
    Forall (fun c => len c <= max_chars) cs /\
    len cs = Chunker.ceil_div (len text) max_chars /\
    (forall i, (i < length cs)%nat ->
       nth i cs [] =
       py_slice text (Z.of_nat i * max_chars)
                     (Z.of_nat i * max_chars + max_chars)) /\
    (text = [] -> cs = []).
Proof.
  intros Hm.
  destruct (chunk_loop_runs text max_chars Hm (S (length text)) Chunker.init)
    as (st & Hrun & (Hs & Hlt & Hcat & Hall & Hnth) & Hend).
  - apply chunk_inv_init; assumption.
  - cbn [Chunker.start Chunker.init]; unfold len; lia.
  - exists (Chunker.chunks st).
    assert (Hcount : len (Chunker.chunks st)
                     = Chunker.ceil_div (len text) max_chars).
    { apply ceil_div_bracket; lia. }
    repeat split; try assumption.
    + rewrite Hcat; apply py_slice_all; assumption.
    + intros ->. change (len (@nil pychar)) with 0 in Hcount.
      unfold Chunker.ceil_div in Hcount.
      rewrite Z.div_small in Hcount by lia.
      destruct (Chunker.chunks st); [reflexivity | discriminate].
Qed.

(** C9: for [max_chars > 0] the loop of [chunk_text] ends, whatever the
    text: the index grows by [max_chars] at every iteration, and one
    guard evaluation per character plus one is enough.  For
    [max_chars <= 0] and a non-empty text it never ends. *)
Theorem chunk_text_terminates (text : pystr) (max_chars : Z) :
  (0 < max_chars ->
   exists cs, forall fuel, (S (length text) <= fuel)%nat ->
     Chunker.chunk_text_fuel fuel text max_chars = Some cs) /\
  (forall st,
     Chunker.start (Chunker.body text max_chars st)
     = Chunker.start st + max_chars) /\
  (max_chars <= 0 -> text <> [] ->
   forall fuel, Chunker.chunk_text_fuel fuel text max_chars = None).
Proof.
  split; [|split].
  - intros Hm.
    destruct (chunk_loop_runs text max_chars Hm (S (length text)) Chunker.init)
      as (st & Hrun & _ & _).
    + apply chunk_inv_init; assumption.
    + cbn [Chunker.start Chunker.init]; unfold len; lia.
    + exists (Chunker.chunks st); intros fuel Hfuel.
      unfold Chunker.chunk_text_fuel.
      eapply chunk_loop_more_fuel; eassumption.
  - reflexivity.
  - intros Hm Hne fuel; unfold Chunker.chunk_text_fuel.
    apply chunk_loop_stuck; cbn; auto; lia.
Qed.

(** ** The query-embedding cache *)

Lemma dict_get_None_keys {V : Type} (k : pystr) (d : dict V) :
  dict_get k d = None <-> ~ In k (dict_keys d).
Proof.
  induction d as [|[k' v] d IH]; cbn.
  - tauto.
  - destruct (pystr_eq_dec k' k) as [->|Hne].
    + split; [discriminate | intros H; exfalso; apply H; now left].
    + rewrite IH; tauto.
Qed.

Lemma dict_set_fresh {V : Type} (k : pystr) (v : V) (d : dict V) :
  dict_get k d = None -> dict_set k v d = d ++ [(k, v)].
Proof.
  induction d as [|[k' v'] d IH]; cbn; [reflexivity|].
  destruct (pystr_eq_dec k' k); [discriminate|].
  intros H; rewrite IH by assumption; reflexivity.
Qed.

Lemma dict_get_last {V : Type} (k : pystr) (v : V) (d : dict V) :
  dict_get k d = None -> dict_get k (d ++ [(k, v)]) = Some v.
Proof.
  induction d as [|[k' v'] d IH]; cbn.
  - destruct (pystr_eq_dec k k); [reflexivity | congruence].
  - destruct (pystr_eq_dec k' k); [discriminate | exact IH].
Qed.

Lemma dict_get_tl_None {V : Type} (k : pystr) (d : dict V) :
  dict_get k d = None -> dict_get k (tl d) = None.
Proof.
  destruct d as [|[k' v'] d]; cbn; [reflexivity|].
  destruct (pystr_eq_dec k' k); [discriminate | trivial].
Qed.

Lemma dict_remove_head {V : Type} (k : pystr) (v : V) (d : dict V) :
  dict_remove k ((k, v) :: d) = d.
Proof.
  cbn; destruct (pystr_eq_dec k k); [reflexivity | congruence].
Qed.

(** The cache that a miss leaves: the oldest entry goes when the cache
    is full, and the new entry comes last. *)
Lemma get_query_embedding_miss (w : world) (query : pystr) :
  dict_get (strip query) (cache w) = None ->
  get_query_embedding query w =
  (Ok (encode (strip query)),
   mk_world
     ((if MAX_QUERY_CACHE_SIZE <=? len (cache w) then tl (cache w) else cache w)
      ++ [(strip query, encode (strip query))])
     (db w) (docs w) (embed_calls w ++ [[strip query]]) (llm_calls w)).
Proof.
  intros Hmiss.
  unfold get_query_embedding, bind, get_cache, embed_text, index0, ret.
  rewrite Hmiss; cbn [map cache db docs embed_calls llm_calls].
  destruct (MAX_QUERY_CACHE_SIZE <=? len (cache w)) eqn:Hfull.
  - destruct (cache w) as [|[k0 v0] c] eqn:Hc.
    + apply Z.leb_le in Hfull; unfold MAX_QUERY_CACHE_SIZE, len in Hfull.
      cbn in Hfull; lia.
    + unfold set_cache; cbn [cache db docs embed_calls llm_calls tl].
      rewrite dict_remove_head, dict_set_fresh; [reflexivity|].
      apply (dict_get_tl_None _ _ Hmiss).
  - unfold set_cache; cbn [cache db docs embed_calls llm_calls].
    rewrite dict_set_fresh by assumption; reflexivity.
Qed.

Lemma get_query_embedding_hit (w : world) (query : pystr) (v : vec) :
  dict_get (strip query) (cache w) = Some v ->
  get_query_embedding query w = (Ok v, w).
Proof.
  intros Hhit; unfold get_query_embedding, bind, get_cache, ret.
  rewrite Hhit; reflexivity.
Qed.

(** *** [strip] ignores surrounding white space *)

Lemma lstrip_blank (s : pystr) : blank s -> lstrip s = [].
Proof.
  induction 1 as [|c s Hc _ IH]; cbn; [reflexivity|].
  rewrite Hc; exact IH.
Qed.

Lemma lstrip_nil_blank (s : pystr) : lstrip s = [] -> blank s.
Proof.
  induction s as [|c s IH]; cbn; [constructor|].
  destruct (isspace c) eqn:Hc; [|discriminate].
  intros H; constructor; [exact Hc | exact (IH H)].
Qed.

Lemma lstrip_app (s t : pystr) :
  lstrip (s ++ t) =
  match lstrip s with [] => lstrip t | _ :: _ => lstrip s ++ t end.
Proof.
  induction s as [|c s IH]; cbn.
  - destruct (lstrip t); reflexivity.
  - destruct (isspace c); [exact IH | reflexivity].
Qed.

Lemma rstrip_app_blank (s t : pystr) : blank t -> rstrip (s ++ t) = rstrip s.
Proof.
  intros Ht; unfold rstrip; rewrite rev_app_distr, lstrip_app.
  rewrite lstrip_blank; [reflexivity|].
  apply Forall_rev; exact Ht.
Qed.

Lemma strip_surround (a core b : pystr) :
  blank a -> blank b -> strip (a ++ core ++ b) = strip core.
Proof.
  intros Ha Hb; unfold strip.
  rewrite lstrip_app, (lstrip_blank a Ha), lstrip_app.
  destruct (lstrip core) as [|c r] eqn:Hcore.
  - rewrite (lstrip_blank b Hb); reflexivity.
  - apply rstrip_app_blank; exact Hb.
Qed.

Lemma lstrip_fixed (s : pystr) :
  lstrip s = s <-> s = [] \/ exists c r, s = c :: r /\ isspace c = false.
Proof.
  split.
  - destruct s as [|c r]; [now left|]; intros H; right.
    exists c, r; split; [reflexivity|].
    destruct (isspace c) eqn:Hc; [|reflexivity].
    exfalso; cbn in H; rewrite Hc in H.
    assert (Hlen : (length (lstrip r) <= length r)%nat).
    { clear; induction r as [|x r IH]; cbn; [lia|].
      destruct (isspace x); cbn; lia. }
    rewrite H in Hlen; cbn in Hlen; lia.
  - intros [->|(c & r & -> & Hc)]; [reflexivity|].
    cbn; rewrite Hc; reflexivity.
Qed.

Lemma lstrip_idem (s : pystr) : lstrip (lstrip s) = lstrip s.
Proof.
  induction s as [|c s IH]; [reflexivity|].
  cbn; destruct (isspace c) eqn:Hc; [exact IH|].
  cbn; rewrite Hc; reflexivity.
Qed.

Lemma lstrip_snoc (s : pystr) (c : pychar) :
  isspace c = false -> lstrip (s ++ [c]) = lstrip s ++ [c].
Proof.
  intros Hc; rewrite lstrip_app.
  destruct (lstrip s); [cbn; rewrite Hc|]; reflexivity.
Qed.

Lemma strip_idem (s : pystr) : strip (strip s) = strip s.
Proof.
  unfold strip.
  assert (Hl : lstrip (rstrip (lstrip s)) = rstrip (lstrip s)).
  { pose proof (lstrip_idem s) as Hfix; apply lstrip_fixed in Hfix.
    destruct Hfix as [->|(c & r & -> & Hc)]; [reflexivity|].
    unfold rstrip; cbn [rev]; rewrite (lstrip_snoc _ _ Hc).
    rewrite rev_app_distr; cbn; rewrite Hc; reflexivity. }
  rewrite Hl; unfold rstrip; rewrite rev_involutive, lstrip_idem.
  reflexivity.
Qed.

Lemma lstrip_split (s : pystr) :
  exists a, s = a ++ lstrip s /\ blank a.
Proof.
  induction s as [|c s (a & Hs & Ha)].
  - exists []; split; [reflexivity | constructor].
  - cbn [lstrip]; destruct (isspace c) eqn:Hc.
    + exists (c :: a); split; [cbn; congruence | constructor; assumption].
    + exists []; split; [reflexivity | constructor].
Qed.

Lemma rstrip_split (s : pystr) :
  exists b, s = rstrip s ++ b /\ blank b.
Proof.
  destruct (lstrip_split (rev s)) as (a & Hs & Ha).
  exists (rev a); split; [|apply Forall_rev; exact Ha].
  unfold rstrip; rewrite <- rev_app_distr, <- Hs, rev_involutive.
  reflexivity.
Qed.

Lemma strip_lstrip_fixed (s : pystr) : lstrip (strip s) = strip s.
Proof.
  unfold strip.
  pose proof (lstrip_idem s) as Hfix; apply lstrip_fixed in Hfix.
  destruct Hfix as [->|(c & r & -> & Hc)]; [reflexivity|].
  unfold rstrip; cbn [rev]; rewrite (lstrip_snoc _ _ Hc).
  rewrite rev_app_distr; cbn; rewrite Hc; reflexivity.
Qed.

Lemma strip_rstrip_fixed (s : pystr) : rstrip (strip s) = strip s.
Proof.
  unfold strip, rstrip; rewrite rev_involutive, lstrip_idem; reflexivity.
Qed.

Lemma rstrip_fixed_last (s r : pystr) (c : pychar) :
  rstrip s = s -> s = r ++ [c] -> isspace c = false.
Proof.
  unfold rstrip; intros Hfix ->.
  apply (f_equal (@rev pychar)) in Hfix.
  rewrite rev_involutive, rev_app_distr in Hfix; cbn [rev app] in Hfix.
  apply lstrip_fixed in Hfix as [Hnil|(c' & r' & Heq & Hc')];
    [discriminate|].
  injection Heq as <- _; exact Hc'.
Qed.

(** [strip] returns the query without its surrounding white space, and
    nothing else does. *)
Lemma stripped_of_iff (query key : pystr) :
  stripped_of query key <-> key = strip query.
Proof.
  split.
  - intros ((a & b & -> & Ha & Hb) & Hfirst & Hlast).
    rewrite (strip_surround a key b Ha Hb); unfold strip.
    assert (Hl : lstrip key = key).
    { apply lstrip_fixed; destruct key as [|c r]; [now left | right].
      exists c, r; split; [reflexivity | exact (Hfirst c r eq_refl)]. }
    rewrite Hl; unfold rstrip.
    assert (Hr : lstrip (rev key) = rev key).
    { apply lstrip_fixed; destruct (rev key) as [|c r] eqn:Hrev;
        [now left | right].
      exists c, r; split; [reflexivity|].
      apply (Hlast c (rev r)).
      rewrite <- (rev_involutive key), Hrev; reflexivity. }
    rewrite Hr, rev_involutive; reflexivity.
  - intros ->; split; [|split].
    + destruct (lstrip_split query) as (a & Hq & Ha).
      destruct (rstrip_split (lstrip query)) as (b & Hs & Hb).
      exists a, b; split; [|split; assumption].
      unfold strip; rewrite <- Hs; exact Hq.
    + intros c r Heq.
      pose proof (strip_lstrip_fixed query) as Hfix.
      apply lstrip_fixed in Hfix as [Hnil|(c' & r' & Heq' & Hc')];
        [congruence|].
      rewrite Heq in Heq'; injection Heq' as <- _; exact Hc'.
    + intros c r Heq.
      exact (rstrip_fixed_last _ r c (strip_rstrip_fixed query) Heq).
Qed.

(** C7: the cache key is the query without its surrounding white space:
    the query is white space, then the key, then white space, and the
    key neither starts nor ends with a white-space character; [strip]
    returns that key and no other string fits.  With [key] the key of
    [query]: a hit on [key] returns the cached vector and leaves the
    whole state, the log of embedding calls included, as it was; a miss
    embeds [key] once, stores the vector under [key] and returns it.
    Two queries with the same core and any surrounding white space,
    asked one after the other, get the same vector with at most one
    embedding call. *)
Theorem get_query_embedding_correct (w : world) :
  (forall query key, stripped_of query key <-> key = strip query) /\
  (forall query key v,
     stripped_of query key ->
     dict_get key (cache w) = Some v ->
     get_query_embedding query w = (Ok v, w)) /\
  (forall query key,
     stripped_of query key ->
     dict_get key (cache w) = None ->
     exists w',
       get_query_embedding query w = (Ok (encode key), w') /\
       embed_calls w' = embed_calls w ++ [[key]] /\
       dict_get key (cache w') = Some (encode key)) /\
  (forall a b c d core,
     blank a -> blank b -> blank c -> blank d ->
     exists v w1,
       get_query_embedding (a ++ core ++ b) w = (Ok v, w1) /\
       get_query_embedding (c ++ core ++ d) w1 = (Ok v, w1) /\
       (length (embed_calls w1) <= length (embed_calls w) + 1)%nat).
Proof.
  assert (Hmiss : forall query,
     dict_get (strip query) (cache w) = None ->
     exists w',
       get_query_embedding query w = (Ok (encode (strip query)), w') /\
       embed_calls w' = embed_calls w ++ [[strip query]] /\
       dict_get (strip query) (cache w') = Some (encode (strip query))).
  { intros query Hnone; eexists; split; [|split].
    - apply get_query_embedding_miss; exact Hnone.
    - reflexivity.
    - cbn [cache]; apply dict_get_last.
      destruct (MAX_QUERY_CACHE_SIZE <=? len (cache w));
        [apply dict_get_tl_None|]; exact Hnone. }
  split; [|split; [|split]].
  - exact stripped_of_iff.
  - intros query key v Hkey; apply stripped_of_iff in Hkey; subst key.
    apply get_query_embedding_hit.
  - intros query key Hkey; apply stripped_of_iff in Hkey; subst key.
    exact (Hmiss query).
  - intros a b c d core Ha Hb Hc Hd.
    pose proof (strip_surround a core b Ha Hb) as E1.
    pose proof (strip_surround c core d Hc Hd) as E2.
    destruct (dict_get (strip core) (cache w)) as [v|] eqn:Hget.
    + exists v, w; repeat split.
      * apply get_query_embedding_hit; rewrite E1; exact Hget.
      * apply get_query_embedding_hit; rewrite E2; exact Hget.
      * lia.
    + rewrite <- E1 in Hget.
      destruct (Hmiss _ Hget) as (w1 & Hrun & Hlog & Hin).
      exists (encode (strip (a ++ core ++ b))), w1; repeat split.
      * exact Hrun.
      * apply get_query_embedding_hit; rewrite E2, <- E1; exact Hin.
      * rewrite Hlog, length_app; cbn; lia.
Qed.

(** *** The bound of the cache and the order of eviction *)

Lemma get_query_embedding_ok (w : world) (q : pystr) :
  exists v, fst (get_query_embedding q w) = Ok v.
Proof.
  destruct (dict_get (strip q) (cache w)) as [v|] eqn:Hget.
  - exists v; rewrite (get_query_embedding_hit _ _ _ Hget); reflexivity.
  - eexists; rewrite (get_query_embedding_miss _ _ Hget); reflexivity.
Qed.

Lemma run_queries_cons (w : world) (q : pystr) (qs : list pystr) :
  run_queries (q :: qs) w = run_queries qs (snd (get_query_embedding q w)).
Proof.
  unfold run_queries; cbn [for_each]; unfold bind at 1 2.
  destruct (get_query_embedding_ok w q) as [v Hv].
  destruct (get_query_embedding q w) as [r w1]; cbn in Hv; subst r.
  reflexivity.
Qed.

Lemma run_queries_bounded (qs : list pystr) :
  forall w, len (cache w) <= MAX_QUERY_CACHE_SIZE ->
    fst (run_queries qs w) = Ok tt /\
    len (cache (snd (run_queries qs w))) <= MAX_QUERY_CACHE_SIZE.
Proof.
  induction qs as [|q qs IH]; intros w Hw.
  - split; [reflexivity | exact Hw].
  - rewrite run_queries_cons; apply IH.
    destruct (dict_get (strip q) (cache w)) as [v|] eqn:Hget.
    + rewrite (get_query_embedding_hit _ _ _ Hget); exact Hw.
    + rewrite (get_query_embedding_miss _ _ Hget); cbn [snd cache].
      rewrite len_app; change (len [_]) with 1.
      destruct (MAX_QUERY_CACHE_SIZE <=? len (cache w)) eqn:Hfull.
      * apply Z.leb_le in Hfull.
        unfold MAX_QUERY_CACHE_SIZE in *.
        destruct (cache w); unfold len in *; cbn [tl length] in *; lia.
      * apply Z.leb_gt in Hfull; lia.
Qed.

Lemma run_queries_fresh (qs : list pystr) :
  forall w,
    len (cache w) <= MAX_QUERY_CACHE_SIZE ->
    NoDup (dict_keys (cache w) ++ map strip qs) ->
    cache (snd (run_queries qs w)) =
    skipn (length (cache w ++ map entry_of qs)
           - Z.to_nat MAX_QUERY_CACHE_SIZE)
          (cache w ++ map entry_of qs).
Proof.
  induction qs as [|q qs IH]; intros w Hw Hnd.
  - cbn [map run_queries for_each ret snd]; rewrite app_nil_r.
    replace (length (cache w) - Z.to_nat MAX_QUERY_CACHE_SIZE)%nat with 0%nat
      by (unfold len in Hw; lia).
    reflexivity.
  - rewrite run_queries_cons.
    assert (Hget : dict_get (strip q) (cache w) = None).
    { apply dict_get_None_keys; intros Hin.
      apply NoDup_remove_2 in Hnd; apply Hnd.
      apply in_or_app; now left. }
    rewrite (get_query_embedding_miss _ _ Hget).
    cbn [snd map]; fold (entry_of q).
    destruct (MAX_QUERY_CACHE_SIZE <=? len (cache w)) eqn:Hfull.
    + apply Z.leb_le in Hfull.
      destruct (cache w) as [|e c] eqn:Hc;
        [unfold MAX_QUERY_CACHE_SIZE, len in Hfull; cbn in Hfull; lia|].
      cbn [tl].
      rewrite IH; cbn [cache].
      * rewrite <- !app_assoc; cbn [app].
        set (l := c ++ entry_of q :: map entry_of qs).
        assert (Hl : (Z.to_nat MAX_QUERY_CACHE_SIZE <= length l)%nat).
        { subst l; rewrite length_app; cbn [length].
          unfold len in Hfull; cbn [length] in Hfull; lia. }
        cbn [length].
        replace (S (length l) - Z.to_nat MAX_QUERY_CACHE_SIZE)%nat
          with (S (length l - Z.to_nat MAX_QUERY_CACHE_SIZE)) by lia.
        reflexivity.
      * rewrite len_app; change (len [entry_of q]) with 1.
        unfold len in *; cbn [length] in *; lia.
      * unfold dict_keys in *; rewrite map_app; cbn [map fst entry_of].
        rewrite <- app_assoc; cbn [app].
        cbn [map app] in Hnd; inversion Hnd; assumption.
    + apply Z.leb_gt in Hfull.
      rewrite IH; cbn [cache].
      * rewrite <- !app_assoc; reflexivity.
      * rewrite len_app; change (len [entry_of q]) with 1; lia.
      * unfold dict_keys in *; rewrite map_app; cbn [map fst entry_of].
        rewrite <- app_assoc; exact Hnd.
Qed.

(** C3: the cache never holds more than [MAX_QUERY_CACHE_SIZE] = 100
    entries.  From an empty cache, 101 queries with distinct stripped
    keys leave exactly the 100 entries of the last 100 queries, in the
    order of insertion: the first key is gone.  Whenever a miss finds the
    cache full, the entry that goes is the head, the oldest one. *)
Theorem query_cache_bounded_fifo (w : world) :
  cache w = [] ->
  (forall qs,
     fst (run_queries qs w) = Ok tt /\
     len (cache (snd (run_queries qs w))) <= MAX_QUERY_CACHE_SIZE) /\
  (forall qs,
     NoDup (map strip qs) -> len qs = MAX_QUERY_CACHE_SIZE + 1 ->
     let c := cache (snd (run_queries qs w)) in
     len c = MAX_QUERY_CACHE_SIZE /\
     c = map entry_of (tl qs) /\
     dict_get (strip (hd [] qs)) c = None) /\
  (forall w0 q,
     dict_get (strip q) (cache w0) = None ->
     MAX_QUERY_CACHE_SIZE <= len (cache w0) ->
     cache (snd (get_query_embedding q w0)) = tl (cache w0) ++ [entry_of q]).
Proof.
  intros Hempty; split; [|split].
  - intros qs; apply run_queries_bounded.
    rewrite Hempty; unfold MAX_QUERY_CACHE_SIZE, len; cbn; lia.
  - intros qs Hnd Hlen c.
    assert (Hc : c = map entry_of (tl qs)).
    { subst c; rewrite run_queries_fresh.
      - rewrite Hempty; cbn [app]; rewrite length_map.
        unfold len, MAX_QUERY_CACHE_SIZE in *.
        destruct qs as [|q qs]; [cbn in Hlen; lia|].
        cbn [length] in *.
        replace (S (length qs) - Z.to_nat 100)%nat with 1%nat by lia.
        reflexivity.
      - rewrite Hempty; unfold MAX_QUERY_CACHE_SIZE, len; cbn; lia.
      - rewrite Hempty; exact Hnd. }
    split; [|split].
    + rewrite Hc; unfold len in *; rewrite length_map.
      destruct qs; cbn [length tl] in *;
        unfold MAX_QUERY_CACHE_SIZE in *; lia.
    + exact Hc.
    + rewrite Hc; apply dict_get_None_keys.
      unfold dict_keys; rewrite map_map; cbn [entry_of fst].
      destruct qs as [|q qs]; cbn [hd tl map]; [tauto|].
      cbn [map] in Hnd; inversion Hnd; assumption.
  - intros w0 q Hget Hfull.
    rewrite (get_query_embedding_miss _ _ Hget); cbn [snd cache].
    apply Z.leb_le in Hfull; rewrite Hfull; reflexivity.
Qed.

(** ** Sorting *)

Lemma StronglySorted_snoc {A : Type} (R : A -> A -> Prop) (l : list A) (x : A) :
  StronglySorted R l -> Forall (fun y => R y x) l -> StronglySorted R (l ++ [x]).
Proof.
  induction 1 as [|a l Hl IH Ha]; intros Hx; cbn.
  - constructor; constructor.
  - inversion Hx; subst; constructor; [auto|].
    apply Forall_app; split; [assumption | constructor; auto].
Qed.

Lemma StronglySorted_rev {A : Type} (R : A -> A -> Prop) (l : list A) :
  StronglySorted R l -> StronglySorted (fun a b => R b a) (rev l).
Proof.
  induction 1 as [|a l Hl IH Ha]; cbn; [constructor|].
  apply StronglySorted_snoc; [assumption|].
  apply Forall_rev; exact Ha.
Qed.



Lemma StronglySorted_unmap {A B : Type} (f : A -> B) (R : B -> B -> Prop)
    (l : list A) :
  StronglySorted R (map f l) -> StronglySorted (fun a b => R (f a) (f b)) l.
Proof.
  induction l as [|a l IH]; cbn; intros H; [constructor|].
  inversion H as [|? ? Hl Ha]; subst; constructor; [auto|].
  rewrite Forall_map in Ha; exact Ha.
Qed.

Lemma insert_sorted_perm {A K : Type} (key : A -> K) (ltb : K -> K -> bool)
    (x : A) (l : list A) :
  Permutation (insert_sorted key ltb x l) (x :: l).
Proof.
  induction l as [|y l IH]; cbn; [reflexivity|].
  destruct (ltb (key y) (key x)); [|reflexivity].
  rewrite IH; apply perm_swap.
Qed.

Lemma stable_sort_perm {A K : Type} (key : A -> K) (ltb : K -> K -> bool)
    (l : list A) :
  Permutation (stable_sort key ltb l) l.
Proof.
  induction l as [|x l IH]; cbn; [reflexivity|].
  rewrite insert_sorted_perm; constructor; exact IH.
Qed.

Lemma sort_reverse_perm {A K : Type} (key : A -> K) (ltb : K -> K -> bool)
    (l : list A) :
  Permutation (sort_reverse key ltb l) l.
Proof.
  unfold sort_reverse.
  rewrite <- Permutation_rev, stable_sort_perm, <- Permutation_rev.
  reflexivity.
Qed.

Lemma insert_sorted_map {A B K : Type} (f : A -> B) (key : B -> K)
    (ltb : K -> K -> bool) (x : A) (l : list A) :
  insert_sorted key ltb (f x) (map f l)
  = map f (insert_sorted (fun a => key (f a)) ltb x l).
Proof.
  induction l as [|y l IH]; cbn; [reflexivity|].
  destruct (ltb (key (f y)) (key (f x))); cbn; [rewrite IH|]; reflexivity.
Qed.

Lemma sort_reverse_map {A B K : Type} (f : A -> B) (key : B -> K)
    (ltb : K -> K -> bool) (l : list A) :
  sort_reverse key ltb (map f l)
  = map f (sort_reverse (fun a => key (f a)) ltb l).
Proof.
  unfold sort_reverse; rewrite map_rev, <- map_rev; f_equal.
  induction (rev l) as [|x r IH]; cbn; [reflexivity|].
  rewrite IH; apply insert_sorted_map.
Qed.

(** Sorting a list whose tags fall from head to tail: the keys rise,
    and among equal keys the tags still fall. *)
Section TaggedSort.
Variables (A K : Type) (key : A -> K) (ltb : K -> K -> bool) (tag : A -> Z).
Hypothesis ltb_asym : forall x y, ltb x y = true -> ltb y x = false.
Hypothesis ltb_negtrans :
  forall x y z, ltb x y = false -> ltb y z = false -> ltb x z = false.

Lemma insert_sorted_tagged (x : A) (l : list A) :
  StronglySorted (rises key ltb tag) l -> Forall (fun y => tag y < tag x) l ->
  StronglySorted (rises key ltb tag) (insert_sorted key ltb x l).
Proof.
  induction 1 as [|y l Hl IH Hy]; intros Hx; cbn.
  - constructor; constructor.
  - inversion Hx as [|? ? Hyx Hlx]; subst.
    destruct (ltb (key y) (key x)) eqn:Hlt.
    + constructor; [auto|].
      eapply Permutation_Forall;
        [symmetry; apply insert_sorted_perm|].
      constructor; [|assumption].
      split; [apply ltb_asym; assumption | congruence].
    + constructor; [constructor; assumption|].
      constructor; [split; auto|].
      rewrite Forall_forall in *; intros z Hz.
      destruct (Hy z Hz) as [Hzy _].
      split; [eapply ltb_negtrans; eassumption | auto].
Qed.

Lemma stable_sort_tagged (l : list A) :
  StronglySorted (fun a b => tag b < tag a) l ->
  StronglySorted (rises key ltb tag) (stable_sort key ltb l).
Proof.
  induction 1 as [|x l Hl IH Hx]; cbn; [constructor|].
  apply insert_sorted_tagged; [assumption|].
  eapply Permutation_Forall; [symmetry; apply stable_sort_perm | exact Hx].
Qed.

Lemma sort_reverse_tagged (l : list A) :
  StronglySorted (fun a b => tag a < tag b) l ->
  StronglySorted
    (fun a b => ltb (key a) (key b) = false /\
                (ltb (key b) (key a) = false -> tag a < tag b))
    (sort_reverse key ltb l).
Proof.
  intros Hl; unfold sort_reverse.
  apply (StronglySorted_rev (rises key ltb tag)).
  apply stable_sort_tagged.
  apply (StronglySorted_rev _ _ Hl).
Qed.
End TaggedSort.

(** ** The store and retrieval *)

Lemma py_slice_firstn {A : Type} (l : list A) (k : Z) :
  0 <= k -> py_slice l 0 k = firstn (Z.to_nat k) l.
Proof.
  intros Hk; pose proof (len_nonneg l) as Hl.
  rewrite py_slice_nonneg by lia.
  replace (Z.min 0 (len l)) with 0 by lia.
  cbn [Z.to_nat skipn]; rewrite Z.sub_0_r.
  destruct (Z.le_ge_cases k (len l)) as [Hle|Hge].
  - rewrite Z.min_l by assumption; reflexivity.
  - rewrite Z.min_r by assumption.
    unfold len in *; rewrite Nat2Z.id.
    rewrite firstn_all, firstn_all2 by lia; reflexivity.
Qed.

Lemma score_chunks_acc (query_vec : vec)
    (chunks : list (Z * pystr * pystr * vec)) :
  forall acc,
    fold_left
      (fun scored '(_, doc_name, chunk_text, emb) =>
         scored ++ [(cosine_sim query_vec emb, doc_name, chunk_text)])
      chunks acc
    = acc ++ map (fun c => snd (tagged query_vec c)) chunks.
Proof.
  induction chunks as [|[[[id d] t] emb] chunks IH]; intros acc; cbn.
  - rewrite app_nil_r; reflexivity.
  - rewrite IH, <- app_assoc; reflexivity.
Qed.

Lemma score_chunks_map (query_vec : vec)
    (chunks : list (Z * pystr * pystr * vec)) :
  score_chunks query_vec chunks
  = map (fun c => snd (tagged query_vec c)) chunks.
Proof. apply score_chunks_acc. Qed.

Lemma decode_rows_spec (rs : list row) :
  forall acc cs,
    decode_rows rs acc = Ok cs ->
    exists cs', cs = acc ++ cs' /\ Forall2 decodes rs cs'.
Proof.
  induction rs as [|[[[id d] t] j] rs IH]; intros acc cs H; cbn in H.
  - injection H as <-; exists []; rewrite app_nil_r; split; constructor.
  - destruct (json_loads j) as [emb| |] eqn:Hj; try discriminate.
    destruct (IH _ _ H) as (cs' & -> & Hcs').
    exists ((id, d, t, emb) :: cs'); rewrite <- app_assoc; split; [reflexivity|].
    constructor; [cbn; auto | assumption].
Qed.

Lemma decodes_ids (query_vec : vec) (rs : list row)
    (cs : list (Z * pystr * pystr * vec)) :
  Forall2 decodes rs cs ->
  map fst (map (tagged query_vec) cs) = map row_id rs.
Proof.
  induction 1 as [|[[[id d] t] j] [[[id' d'] t'] e] rs cs Hd _ IH]; cbn;
    [reflexivity|].
  destruct Hd as (-> & _); rewrite IH; reflexivity.
Qed.

Lemma get_query_embedding_frame (w : world) (q : pystr) :
  let w' := snd (get_query_embedding q w) in
  db w' = db w /\ docs w' = docs w /\ llm_calls w' = llm_calls w.
Proof.
  destruct (dict_get (strip q) (cache w)) as [v|] eqn:Hget.
  - rewrite (get_query_embedding_hit _ _ _ Hget); cbn; auto.
  - rewrite (get_query_embedding_miss _ _ Hget); cbn; auto.
Qed.

Lemma load_all_chunks_run (w : world) (t : table) :
  db w = Some t -> load_all_chunks w = (decode_rows (rows t) [], w).
Proof.
  intros Hdb; unfold load_all_chunks, get_db, bind; rewrite Hdb; reflexivity.
Qed.

Lemma retrieve_top_k_unfold (w : world) (t : table) (query : pystr) (k : Z)
    (chunks : list (Z * pystr * pystr * vec)) :
  db w = Some t -> decode_rows (rows t) [] = Ok chunks ->
  exists query_vec w',
    get_query_embedding query w = (Ok query_vec, w') /\
    retrieve_top_k query k w =
    (Ok (py_slice
           (sort_reverse score_of score_ltb (score_chunks query_vec chunks))
           0 k), w').
Proof.
  intros Hdb Hdec.
  destruct (get_query_embedding_ok w query) as [qv Hqv].
  pose proof (get_query_embedding_frame w query) as (Hdb' & _).
  destruct (get_query_embedding query w) as [r w'] eqn:Hrun.
  cbn in Hqv, Hdb'; subst r.
  exists qv, w'; split; [reflexivity|].
  unfold retrieve_top_k, bind at 1; rewrite Hrun.
  unfold bind; rewrite (load_all_chunks_run w' t) by congruence.
  rewrite Hdec; reflexivity.
Qed.


(** ** JSON text of an embedding read back *)

Lemma json_lskip_head (c : pychar) (s : pystr) :
  json_ws c = false -> json_lskip (c :: s) = c :: s.
Proof. intros Hc; cbn; rewrite Hc; reflexivity. Qed.

Lemma json_skip_ends (c d : pychar) (s : pystr) :
  json_ws c = false -> json_ws d = false ->
  json_skip (c :: s ++ [d]) = c :: s ++ [d].
Proof.
  intros Hc Hd; unfold json_skip.
  rewrite (json_lskip_head _ _ Hc).
  change (c :: s ++ [d]) with ((c :: s) ++ [d]).
  rewrite rev_app_distr; cbn [rev app].
  rewrite (json_lskip_head _ _ Hd).
  change (d :: rev s ++ [c]) with ([d] ++ rev (c :: s)).
  rewrite rev_app_distr, rev_involutive; reflexivity.
Qed.

Lemma number_token_ends (t : pystr) :
  number_token t ->
  (exists c s, t = c :: s /\ json_ws c = false) /\
  (exists d s, rev t = d :: s /\ json_ws d = false).
Proof.
  intros [Hne Hall]; rewrite forallb_forall in Hall.
  assert (Hws : forall c, In c t -> json_ws c = false).
  { intros c Hc; specialize (Hall c Hc); unfold number_char in Hall.
    apply andb_prop in Hall as [_ H]; now apply negb_true_iff in H. }
  split.
  - destruct t as [|c s]; [congruence|].
    exists c, s; split; [reflexivity | apply Hws; now left].
  - destruct (rev t) as [|d s] eqn:Hrev.
    + apply (f_equal (@rev pychar)) in Hrev.
      rewrite rev_involutive in Hrev; cbn in Hrev; congruence.
    + exists d, s; split; [reflexivity|].
      apply Hws, in_rev; rewrite Hrev; now left.
Qed.

Lemma json_skip_token (t : pystr) :
  number_token t -> json_skip t = t /\ json_skip (space :: t) = t.
Proof.
  intros Ht; destruct (number_token_ends t Ht) as [(c & s & -> & Hc) (d & r & Hr & Hd)].
  assert (Hskip : json_skip (c :: s) = c :: s).
  { unfold json_skip; rewrite (json_lskip_head _ _ Hc), Hr.
    rewrite (json_lskip_head _ _ Hd), <- Hr; apply rev_involutive. }
  split; [exact Hskip|].
  unfold json_skip in *; cbn [json_lskip].
  change (json_ws space) with true; cbn iota.
  fold (json_lskip (c :: s)); exact Hskip.
Qed.

Lemma split_on_nonempty (sep : pychar) (s : pystr) : split_on sep s <> [].
Proof.
  destruct s as [|c s]; cbn; [discriminate|].
  destruct (c =? sep)%N; [discriminate|].
  destruct (split_on sep s); discriminate.
Qed.

Lemma split_on_app_token (t s : pystr) :
  forallb number_char t = true ->
  split_on comma (t ++ s)
  = (t ++ hd [] (split_on comma s)) :: tl (split_on comma s).
Proof.
  induction t as [|c t IH]; cbn [app forallb]; intros Hall.
  - pose proof (split_on_nonempty comma s).
    destruct (split_on comma s); [congruence | reflexivity].
  - apply andb_prop in Hall as [Hc Hall].
    unfold number_char in Hc; apply andb_prop in Hc as [Hc _].
    apply negb_true_iff in Hc.
    cbn [split_on]; rewrite Hc, (IH Hall); reflexivity.
Qed.

Lemma split_on_join (t : pystr) (ts : list pystr) :
  Forall number_token (t :: ts) ->
  split_on comma (join [comma; space] (t :: ts)) = t :: map (cons space) ts.
Proof.
  revert t; induction ts as [|t' ts IH]; intros t Hall.
  - inversion Hall as [|? ? [_ Ht] _]; subst.
    cbn [join map]; rewrite <- (app_nil_r t) at 1.
    rewrite split_on_app_token by assumption.
    rewrite app_nil_r; reflexivity.
  - inversion Hall as [|? ? [_ Ht] Hrest]; subst.
    change (join [comma; space] (t :: t' :: ts))
      with (t ++ comma :: space :: join [comma; space] (t' :: ts)).
    rewrite split_on_app_token by assumption.
    cbn [split_on]; rewrite N.eqb_refl.
    change ((space =? comma)%N) with false; cbn iota.
    rewrite (IH t' Hrest), app_nil_r; reflexivity.
Qed.

Lemma insert_chunk_run (w : world) (t : table) (doc_name chunk_text : pystr)
    (embedding : vec) :
  db w = Some t ->
  insert_chunk doc_name chunk_text embedding w =
  (Ok tt,
   mk_world (cache w)
     (Some (mk_table
              (rows t ++ [(seq t + 1, doc_name, chunk_text, json_dumps embedding)])
              (seq t + 1)))
     (docs w) (embed_calls w) (llm_calls w)).
Proof.
  intros Hdb; unfold insert_chunk, bind, get_db, set_db; rewrite Hdb.
  reflexivity.
Qed.

(** The store after [init_db()] and [clear_db()]. *)
Lemma reset_db_run {A : Type} (k : M A) (w : world) :
  exists s,
    (init_db ;;; clear_db ;;; k) w =
    k (mk_world (cache w) (Some (mk_table [] s)) (docs w) (embed_calls w)
                (llm_calls w)).
Proof.
  unfold init_db, clear_db, bind, get_db, set_db, ret.
  destruct (db w) as [t|] eqn:Hdb; cbn; rewrite ?Hdb; eexists; reflexivity.
Qed.

Section JsonRoundTrip.
(** What Python promises of the text of a float: reading it back gives
    the same float, and the text is one number token. *)
Hypothesis float_parse_repr : forall x, float_parse (float_repr x) = Some x.
Hypothesis float_repr_token : forall x, number_token (float_repr x).

Lemma parse_tokens_spaced (v : vec) :
  parse_tokens (map (cons space) (map float_repr v)) = Some v.
Proof.
  induction v as [|x v IH]; cbn [map parse_tokens]; [reflexivity|].
  destruct (json_skip_token _ (float_repr_token x)) as [_ ->].
  rewrite float_parse_repr, IH; reflexivity.
Qed.

Lemma json_loads_dumps (v : vec) : json_loads (json_dumps v) = Ok v.
Proof.
  unfold json_dumps, json_loads.
  change (lit "[") with [91%N]; change (lit "]") with [93%N].
  change (lit ", ") with [comma; space].
  cbn [app].
  rewrite json_skip_ends by reflexivity.
  change ((91 =? 91)%N) with true; cbn iota.
  rewrite rev_app_distr; cbn [rev app].
  change ((93 =? 93)%N) with true; cbn iota.
  rewrite rev_involutive.
  destruct v as [|x v]; [reflexivity|].
  cbn [map].
  rewrite split_on_join
    by (apply Forall_forall; intros t Ht;
        change (In t (map float_repr (x :: v))) in Ht;
        apply in_map_iff in Ht as (y & <- & _); apply float_repr_token).
  destruct (number_token_ends _ (float_repr_token x))
    as [(c & s & Hx & Hc) _].
  assert (Hhead : exists c' s',
             join [comma; space] (float_repr x :: map float_repr v) = c' :: s'
             /\ json_ws c' = false).
  { destruct (map float_repr v) as [|t ts]; cbn [join]; rewrite Hx;
      cbn [app]; eauto. }
  destruct Hhead as (c' & s' & -> & Hc').
  rewrite (json_lskip_head _ _ Hc').
  cbn [parse_tokens].
  destruct (json_skip_token _ (float_repr_token x)) as [-> _].
  rewrite float_parse_repr, parse_tokens_spaced; reflexivity.
Qed.

Lemma decode_rows_app (rs rs' : list row) :
  forall acc,
    decode_rows (rs ++ rs') acc =
    match decode_rows rs acc with
    | Ok cs => decode_rows rs' cs
    | Raise e => Raise e
    | Diverge => Diverge
    end.
Proof.
  induction rs as [|[[[id d] t] j] rs IH]; intros acc; cbn; [reflexivity|].
  destruct (json_loads j); auto.
Qed.

(** C10: on a store that loads, [insert_chunk] followed by
    [load_all_chunks] returns the rows loaded before and then the new
    row: the next id, the same doc_name and text, and the embedding
    that was inserted, its JSON text read back element by element.
    The text of one float is taken to read back as that float. *)
Theorem store_round_trip (w : world) (doc_name chunk_text : pystr)
    (embedding : vec) (loaded : list (Z * pystr * pystr * vec)) :
  fst (load_all_chunks w) = Ok loaded ->
  exists t w1,
    db w = Some t /\
    insert_chunk doc_name chunk_text embedding w = (Ok tt, w1) /\
    load_all_chunks w1 =
    (Ok (loaded ++ [(seq t + 1, doc_name, chunk_text, embedding)]), w1).
Proof.
  intros Hload.
  destruct (db w) as [t|] eqn:Hdb.
  - rewrite (load_all_chunks_run _ _ Hdb) in Hload; cbn [fst] in Hload.
    exists t; eexists; split; [reflexivity|]; split.
    + unfold insert_chunk, bind, get_db, set_db; rewrite Hdb; reflexivity.
    + erewrite load_all_chunks_run by reflexivity.
      cbn [rows]; rewrite decode_rows_app, Hload.
      cbn [decode_rows]; rewrite json_loads_dumps; reflexivity.
  - unfold load_all_chunks, bind, get_db, raise in Hload.
    rewrite Hdb in Hload; discriminate.
Qed.
(** [insert_chunk] keeps the store in order and loadable. *)
Lemma insert_chunk_store_ok (w : world) (doc_name chunk_text : pystr)
    (embedding : vec) :
  store_ok w ->
  store_ok (snd (insert_chunk doc_name chunk_text embedding w)).
Proof.
  intros (t & chunks & Hdb & [Hsorted Hbound] & Hdec).
  rewrite (insert_chunk_run w t doc_name chunk_text embedding Hdb).
  eexists; eexists; cbn [snd db]; split; [reflexivity|]; split.
  - split; cbn [rows seq].
    + rewrite map_app; cbn [map row_id fst].
      apply StronglySorted_snoc; [assumption|].
      apply Forall_map; eapply Forall_impl; [|exact Hbound].
      cbn beta; intros r Hr; lia.
    + apply Forall_app; split.
      * eapply Forall_impl; [|exact Hbound]; cbn beta; intros r Hr; lia.
      * constructor; [cbn; lia | constructor].
  - cbn [rows]; rewrite decode_rows_app, Hdec.
    cbn [decode_rows]; rewrite json_loads_dumps; reflexivity.
Qed.

Lemma for_each_preserves {A : Type} (P : world -> Prop) (f : A -> M unit)
    (l : list A) :
  (forall x w, P w -> P (snd (f x w))) ->
  forall w, P w -> P (snd (for_each l f w)).
Proof.
  intros Hf; induction l as [|x l IH]; intros w Hw; cbn [for_each];
    [exact Hw|].
  unfold bind; specialize (Hf x w Hw).
  destruct (f x w) as [[[]|e|] w1]; cbn [snd] in *; auto.
Qed.

Lemma index_one_store_ok (e : dirent) (w : world) :
  store_ok w -> store_ok (snd (index_one e w)).
Proof.
  intros Hw; unfold index_one.
  destruct (negb (d_is_file e)); [exact Hw|].
  destruct (negb (allowed_suffix (d_name e))); [exact Hw|].
  destruct (d_text e) as [text|]; [|exact Hw].
  destruct (Chunker.chunk_text text DEFAULT_MAX_CHARS) as [cs|]; [|exact Hw].
  unfold bind, embed_text.
  apply for_each_preserves; [|exact Hw].
  intros [c v] w0; apply insert_chunk_store_ok.
Qed.

(** Whatever the state before, [index_documents] leaves a store in
    order and loadable. *)
Lemma index_documents_store_ok (w : world) :
  store_ok (snd (index_documents w)).
Proof.
  unfold index_documents.
  match goal with
  | |- context [(init_db ;;; clear_db ;;; ?k) w] =>
      destruct (reset_db_run k w) as [s Hreset]
  end.
  rewrite Hreset; clear Hreset.
  match goal with
  | |- context [mk_world ?c ?d ?f ?e ?l] =>
      assert (Hok : store_ok (mk_world c d f e l))
  end.
  { exists (mk_table [] s), []; repeat split; constructor. }
  unfold bind, get_docs; cbn [docs fst snd].
  destruct (docs w) as [entries|]; [|exact Hok].
  apply for_each_preserves; [|exact Hok].
  intros e w0; apply index_one_store_ok.
Qed.

End JsonRoundTrip.

(** ** The RAG pipeline *)

Lemma load_all_chunks_world (w : world) : snd (load_all_chunks w) = w.
Proof.
  unfold load_all_chunks, bind, get_db, raise.
  destruct (db w); reflexivity.
Qed.

Lemma retrieve_top_k_world (w : world) (query : pystr) (k : Z) :
  snd (retrieve_top_k query k w) = snd (get_query_embedding query w).
Proof.
  unfold retrieve_top_k, bind at 1.
  destruct (get_query_embedding_ok w query) as [qv Hqv].
  destruct (get_query_embedding query w) as [r w1]; cbn in Hqv; subst r.
  unfold bind.
  pose proof (load_all_chunks_world w1) as Hw.
  destruct (load_all_chunks w1) as [[cs|e|] w2]; cbn in Hw; subst w2;
    reflexivity.
Qed.

Lemma retrieve_top_k_frame (w : world) (query : pystr) (k : Z) :
  let w' := snd (retrieve_top_k query k w) in
  db w' = db w /\ docs w' = docs w /\ llm_calls w' = llm_calls w.
Proof.
  rewrite retrieve_top_k_world; apply get_query_embedding_frame.
Qed.

Lemma pipeline_loop (top_chunks : list scored_chunk) :
  forall context_str sources_lines,
    snd (fold_left pipeline_step top_chunks (context_str, sources_lines))
    = sources_lines ++ map citation top_chunks.
Proof.
  induction top_chunks as [|[[s d] t] top IH]; intros ctx src; cbn.
  - rewrite app_nil_r; reflexivity.
  - rewrite IH, <- app_assoc; reflexivity.
Qed.

(** [run_rag_pipeline] once retrieval has returned: the three ways on
    from there. *)
Lemma run_rag_pipeline_unfold (w w1 : world) (query : pystr)
    (top_chunks : list scored_chunk) :
  retrieve_top_k query TOP_K w = (Ok top_chunks, w1) ->
  run_rag_pipeline query w =
  match top_chunks with
  | [] => (Ok (NO_DOCS_MESSAGE, []), w1)
  | _ :: _ =>
      let prompt := user_prompt (context_of top_chunks) query in
      let w2 := mk_world (cache w1) (db w1) (docs w1) (embed_calls w1)
                         (llm_calls w1 ++ [(SYSTEM_PROMPT, prompt)]) in
      match chat_completion (llm_calls w1) SYSTEM_PROMPT prompt with
      | inl content => (Ok (strip content, sources_of top_chunks), w2)
      | inr (Exception n) => (Ok (LLM_ERROR_MESSAGE, []), w2)
      | inr (BaseException n) => (Raise (BaseException n), w2)
      end
  end.
Proof.
  intros Hret; unfold run_rag_pipeline, bind at 1; rewrite Hret.
  destruct top_chunks as [|c top]; [reflexivity|].
  unfold context_of, sources_of.
  destruct (fold_left pipeline_step (c :: top) ([], [])) as [ctx src].
  cbn [fst snd].
  unfold bind, try_except, call_llm, ret.
  destruct (chat_completion (llm_calls w1) SYSTEM_PROMPT (user_prompt ctx query))
    as [content|[n|n]]; reflexivity.
Qed.

(** C4: when retrieval gives a non-empty result and the chat completion
    raises an [Exception], [run_rag_pipeline] returns the fixed error
    message with no source lines; it returns, and raises nothing. *)
Theorem run_rag_pipeline_llm_error (w w1 : world) (query : pystr)
    (top_chunks : list scored_chunk) (name : string) :
  retrieve_top_k query TOP_K w = (Ok top_chunks, w1) ->
  top_chunks <> [] ->
  chat_completion (llm_calls w1) SYSTEM_PROMPT
                  (user_prompt (context_of top_chunks) query)
  = inr (Exception name) ->
  exists w2, run_rag_pipeline query w = (Ok (LLM_ERROR_MESSAGE, []), w2).
Proof.
  intros Hret Hne Hllm.
  rewrite (run_rag_pipeline_unfold w w1 query top_chunks Hret).
  destruct top_chunks as [|c top]; [congruence|].
  cbv zeta; rewrite Hllm; eexists; reflexivity.
Qed.

Lemma replace_char_length (old new : pychar) (s : pystr) :
  len (replace_char old new s) = len s.
Proof. unfold len, replace_char; rewrite length_map; reflexivity. Qed.

Lemma replace_char_gone (old new : pychar) (s : pystr) :
  new <> old -> ~ In old (replace_char old new s).
Proof.
  intros Hne Hin; unfold replace_char in Hin.
  apply in_map_iff in Hin as (c & Hc & _).
  destruct (N.eqb_spec c old); congruence.
Qed.

Lemma replace_char_nth (old new : pychar) (s : pystr) (i : nat) (c : pychar) :
  nth_error s i = Some c ->
  nth_error (replace_char old new s) i
  = Some (if (c =? old)%N then new else c).
Proof.
  intros Hc; unfold replace_char.
  rewrite nth_error_map; unfold pystr, pychar in *.
  rewrite Hc; reflexivity.
Qed.

(** C8: for a non-empty retrieval result the pipeline builds one source
    line per retrieved chunk, in order: the document name, the score
    with three decimals and the snippet.  The snippet comes from the
    chunk text with every newline turned into a space: the same length,
    a space wherever the chunk text has a newline and the character of
    the chunk text everywhere else.  It is cut to its first 120
    characters and followed by three dots exactly when it is longer
    than 120, and is then 123 characters long.  When the chat completion
    succeeds these lines are returned with the answer. *)
Theorem run_rag_pipeline_citations (w w1 : world) (query : pystr)
    (top_chunks : list scored_chunk) (content : pystr) :
  retrieve_top_k query TOP_K w = (Ok top_chunks, w1) ->
  top_chunks <> [] ->
  chat_completion (llm_calls w1) SYSTEM_PROMPT
                  (user_prompt (context_of top_chunks) query) = inl content ->
  (exists w2, run_rag_pipeline query w
     = (Ok (strip content, map citation top_chunks), w2)) /\
  len (map citation top_chunks) = len top_chunks /\
  (forall s doc_name chunk_text,
     citation (s, doc_name, chunk_text)
     = lit "- " ++ doc_name ++ lit " (score=" ++ format_3f s ++ lit ") "
       ++ [rarrow] ++ lit " " ++ [dquote] ++ make_snippet chunk_text
       ++ [dquote]) /\
  (forall chunk_text,
     let flat := replace_char nl space chunk_text in
     len flat = len chunk_text /\ ~ In nl flat /\
     (forall i c,
        nth_error chunk_text i = Some c ->
        nth_error flat i = Some (if (c =? nl)%N then space else c)) /\
     (120 < len chunk_text ->
      make_snippet chunk_text = firstn 120 flat ++ lit "..." /\
      len (make_snippet chunk_text) = 123) /\
     (len chunk_text <= 120 -> make_snippet chunk_text = flat)).
Proof.
  intros Hret Hne Hllm; split; [|split; [|split]].
  - rewrite (run_rag_pipeline_unfold w w1 query top_chunks Hret).
    destruct top_chunks as [|c top]; [congruence|].
    cbv zeta; rewrite Hllm; eexists.
    unfold sources_of; rewrite pipeline_loop; reflexivity.
  - unfold len; rewrite length_map; reflexivity.
  - reflexivity.
  - intros chunk_text flat; subst flat.
    assert (Hcut : 120 < len chunk_text ->
              make_snippet chunk_text
              = firstn 120 (replace_char nl space chunk_text) ++ lit "...").
    { intros Hlong; unfold make_snippet.
      rewrite replace_char_length.
      apply Z.ltb_lt in Hlong; rewrite Hlong.
      rewrite py_slice_firstn by lia; reflexivity. }
    split; [apply replace_char_length|].
    split; [apply replace_char_gone; discriminate|].
    split; [intros i c; apply replace_char_nth|].
    split.
    + intros Hlong; split; [exact (Hcut Hlong)|].
      rewrite (Hcut Hlong); unfold len.
      rewrite length_app, firstn_length_le.
      * reflexivity.
      * pose proof (replace_char_length nl space chunk_text) as Hlen.
        unfold len in *; lia.
    + intros Hshort; unfold make_snippet.
      rewrite replace_char_length.
      apply Z.ltb_ge in Hshort; rewrite Hshort; reflexivity.
Qed.

(** ** Indexing *)

Lemma insert_all_run (doc_name : pystr) (cs : list pystr) :
  forall (w : world) (t : table),
    db w = Some t ->
    exists w',
      for_each (combine cs (map encode cs))
        (fun '(chunk_text_str, emb_vec) =>
           insert_chunk doc_name chunk_text_str emb_vec) w = (Ok tt, w') /\
      db w' = Some (mk_table (rows t ++ number_rows (seq t) doc_name cs)
                             (seq t + len cs)) /\
      docs w' = docs w /\ llm_calls w' = llm_calls w.
Proof.
  induction cs as [|c cs IH]; intros w t Hdb.
  - exists w; cbn; repeat split.
    rewrite Hdb, app_nil_r, Z.add_0_r; destruct t; reflexivity.
  - cbn [map combine for_each]; unfold bind.
    rewrite (insert_chunk_run w t doc_name c (encode c) Hdb).
    set (t1 := mk_table
                 (rows t ++ [(seq t + 1, doc_name, c, json_dumps (encode c))])
                 (seq t + 1)).
    set (w1 := mk_world (cache w) (Some t1) (docs w) (embed_calls w)
                        (llm_calls w)).
    destruct (IH w1 t1 eq_refl) as (w' & Hrun & Hdb' & Hdocs & Hllm).
    exists w'; split; [exact Hrun|].
    subst w1 t1; cbn [rows seq db docs llm_calls] in *.
    rewrite Hdb', <- app_assoc; cbn [number_rows app].
    repeat split; try assumption.
    do 2 f_equal; unfold len; cbn [length]; lia.
Qed.

Lemma index_one_run (e : dirent) (w : world) (t : table) :
  db w = Some t ->
  (indexable e = true -> d_text e <> None) ->
  exists w',
    index_one e w = (Ok tt, w') /\
    db w' = Some (mk_table
                    (rows t ++ number_rows (seq t) (d_name e) (entry_texts e))
                    (seq t + len (entry_texts e))) /\
    docs w' = docs w /\ llm_calls w' = llm_calls w.
Proof.
  intros Hdb Hread.
  assert (Hskip : entry_texts e = [] ->
            exists w', (Ok tt, w) = (Ok tt, w') /\
              db w' = Some (mk_table
                    (rows t ++ number_rows (seq t) (d_name e) (entry_texts e))
                    (seq t + len (entry_texts e))) /\
              docs w' = docs w /\ llm_calls w' = llm_calls w).
  { intros ->; exists w; cbn; repeat split.
    rewrite Hdb, app_nil_r, Z.add_0_r; destruct t; reflexivity. }
  unfold index_one, entry_texts, indexable in *.
  destruct (d_is_file e); cbn [negb andb] in *; [|apply Hskip; reflexivity].
  destruct (allowed_suffix (d_name e)); cbn [negb] in *;
    [|apply Hskip; reflexivity].
  destruct (d_text e) as [text|]; [|exfalso; apply Hread; reflexivity].
  unfold windows.
  destruct (chunk_text_returns text DEFAULT_MAX_CHARS) as [cs Hcs];
    [reflexivity|].
  rewrite Hcs; unfold bind, embed_text.
  set (w1 := mk_world (cache w) (db w) (docs w)
               (embed_calls w ++ [map (with_header (d_name e)) cs])
               (llm_calls w)).
  destruct (insert_all_run (d_name e) (map (with_header (d_name e)) cs) w1 t Hdb)
    as (w' & Hrun & Hdb' & Hdocs & Hllm).
  exists w'; split; [exact Hrun|]; repeat split; assumption.
Qed.

Lemma index_all_run (entries : list dirent) :
  forall (w : world) (t : table),
    db w = Some t -> readable entries ->
    exists w' s',
      for_each entries index_one w = (Ok tt, w') /\
      db w' = Some (mk_table (rows t ++ directory_rows (seq t) entries) s') /\
      llm_calls w' = llm_calls w.
Proof.
  induction entries as [|e es IH]; intros w t Hdb Hread.
  - exists w, (seq t); cbn; repeat split.
    rewrite Hdb, app_nil_r; destruct t; reflexivity.
  - inversion Hread as [|? ? He Hes]; subst.
    destruct (index_one_run e w t Hdb He) as (w1 & Hrun & Hdb1 & _ & Hllm1).
    destruct (IH w1 _ Hdb1 Hes) as (w' & s' & Hrun' & Hdb' & Hllm').
    exists w', s'; cbn [for_each]; unfold bind; rewrite Hrun.
    split; [exact Hrun'|]; split; [|congruence].
    rewrite Hdb'; cbn [rows seq directory_rows]; rewrite app_assoc.
    reflexivity.
Qed.

Lemma index_documents_run (w : world) :
  match docs w with
  | None =>
      exists w' s,
        index_documents w = (Ok tt, w') /\
        db w' = Some (mk_table [] s) /\ llm_calls w' = llm_calls w
  | Some entries =>
      readable entries ->
      exists w' s s',
        index_documents w = (Ok tt, w') /\
        db w' = Some (mk_table (directory_rows s entries) s') /\
        llm_calls w' = llm_calls w
  end.
Proof.
  unfold index_documents.
  match goal with
  | |- context [(init_db ;;; clear_db ;;; ?k) w] =>
      destruct (reset_db_run k w) as [s Hreset]
  end.
  rewrite Hreset; clear Hreset.
  unfold bind, get_docs; cbn [docs].
  destruct (docs w) as [entries|].
  - intros Hread.
    match goal with
    | |- context [for_each entries index_one ?w0] =>
        destruct (index_all_run entries w0 (mk_table [] s) eq_refl Hread)
          as (w' & s' & Hrun & Hdb & Hllm)
    end.
    exists w', s, s'; split; [exact Hrun|]; split; [exact Hdb | exact Hllm].
  - eexists; exists s; repeat split.
Qed.

Lemma number_rows_doc_text (s : Z) (doc_name : pystr) (cs : list pystr) :
  map row_doc_text (number_rows s doc_name cs)
  = map (fun c => (doc_name, c)) cs.
Proof.
  revert s; induction cs as [|c cs IH]; intros s; cbn; [reflexivity|].
  rewrite IH; reflexivity.
Qed.

Lemma directory_rows_doc_text (entries : list dirent) :
  forall s,
    map row_doc_text (directory_rows s entries)
    = flat_map labelled_chunks entries.
Proof.
  induction entries as [|e es IH]; intros s; cbn [directory_rows flat_map];
    [reflexivity|].
  rewrite map_app, number_rows_doc_text, IH; reflexivity.
Qed.

Lemma directory_rows_json (entries : list dirent) :
  forall s,
    Forall (fun r => row_json r = json_dumps (encode (snd (row_doc_text r))))
           (directory_rows s entries).
Proof.
  induction entries as [|e es IH]; intros s; cbn [directory_rows];
    [constructor|].
  apply Forall_app; split; [|apply IH].
  generalize (entry_texts e); intros cs; revert s.
  induction cs as [|c cs IHcs]; intros s; cbn; constructor; auto.
Qed.

Lemma labelled_chunks_header (e : dirent) (p : pystr * pystr) :
  In p (labelled_chunks e) ->
  exists text c,
    indexable e = true /\ d_text e = Some text /\ In c (windows text) /\
    p = (d_name e, lit "[DOC: " ++ d_name e ++ lit "]" ++ [nl] ++ c).
Proof.
  unfold labelled_chunks, entry_texts; intros Hin.
  apply in_map_iff in Hin as (c' & <- & Hc').
  destruct (indexable e); [|contradiction].
  destruct (d_text e) as [text|]; [|contradiction].
  apply in_map_iff in Hc' as (c & <- & Hc).
  exists text, c; auto.
Qed.

(** C6: indexing a readable directory stores, for every indexed file
    and every raw chunk [c] of its text, in order, one row whose
    doc_name is the file name and whose text is
    ["[DOC: <doc_name>]\n"] followed by [c]; the header is put by
    [index_documents], once, and the stored embedding is that of the
    text with its header.  A directory that holds only [a.txt] with the
    text ["hello world"] gives exactly one row, doc_name ["a.txt"] and
    text ["[DOC: a.txt]\nhello world"]. *)
Theorem index_documents_headers (w : world) (entries : list dirent) :
  docs w = Some entries -> readable entries ->
  exists w' t',
    index_documents w = (Ok tt, w') /\ db w' = Some t' /\
    map row_doc_text (rows t') = flat_map labelled_chunks entries /\
    Forall
      (fun r =>
         exists e text c,
           In e entries /\ d_text e = Some text /\ In c (windows text) /\
           row_doc_text r
           = (d_name e, lit "[DOC: " ++ d_name e ++ lit "]" ++ [nl] ++ c) /\
           row_json r = json_dumps (encode (snd (row_doc_text r))))
      (rows t') /\
    (entries = [mk_dirent (lit "a.txt") true (Some (lit "hello world"))] ->
     map row_doc_text (rows t')
     = [(lit "a.txt", lit "[DOC: a.txt]" ++ [nl] ++ lit "hello world")]).
Proof.
  intros Hdocs Hread.
  pose proof (index_documents_run w) as Hrun; rewrite Hdocs in Hrun.
  destruct (Hrun Hread) as (w' & s & s' & Hidx & Hdb & _).
  exists w', (mk_table (directory_rows s entries) s').
  assert (Hmap : map row_doc_text (directory_rows s entries)
                 = flat_map labelled_chunks entries)
    by apply directory_rows_doc_text.
  cbn [rows]; repeat split; try assumption.
  - pose proof (directory_rows_json entries s) as Hjson.
    rewrite Forall_forall in *; intros r Hr.
    assert (Hin : In (row_doc_text r) (flat_map labelled_chunks entries))
      by (rewrite <- Hmap; apply in_map; exact Hr).
    apply in_flat_map in Hin as (e & He & Hin).
    apply labelled_chunks_header in Hin as (text & c & _ & Htext & Hc & Hrow).
    exists e, text, c; repeat split; auto.
  - intros ->; rewrite Hmap; reflexivity.
Qed.

Lemma retrieve_top_k_empty (w : world) (t : table) (query : pystr) (k : Z) :
  db w = Some t -> rows t = [] ->
  exists w', retrieve_top_k query k w = (Ok [], w').
Proof.
  intros Hdb Hrows.
  destruct (retrieve_top_k_unfold w t query k [] Hdb) as (qv & w' & _ & Hrun).
  - rewrite Hrows; reflexivity.
  - exists w'; rewrite Hrun; cbn [score_chunks fold_left sort_reverse rev stable_sort].
    unfold py_slice; rewrite skipn_nil, firstn_nil; reflexivity.
Qed.

(** C5: when retrieval gives no chunk, [run_rag_pipeline] returns the
    fixed message on missing documents with no source lines and requests
    no chat completion.  That is the case after [index_documents] on a
    documents directory that is missing or empty: the table then has no
    row. *)
Theorem run_rag_pipeline_no_documents (w : world) :
  (forall query w1,
     retrieve_top_k query TOP_K w = (Ok [], w1) ->
     run_rag_pipeline query w = (Ok (NO_DOCS_MESSAGE, []), w1) /\
     llm_calls w1 = llm_calls w) /\
  (docs w = None \/ docs w = Some [] ->
   exists w' t',
     index_documents w = (Ok tt, w') /\ db w' = Some t' /\ rows t' = [] /\
     forall query,
       exists w'',
         run_rag_pipeline query w' = (Ok (NO_DOCS_MESSAGE, []), w'') /\
         llm_calls w'' = llm_calls w').
Proof.
  assert (Hshort : forall w0 query w1,
     retrieve_top_k query TOP_K w0 = (Ok [], w1) ->
     run_rag_pipeline query w0 = (Ok (NO_DOCS_MESSAGE, []), w1) /\
     llm_calls w1 = llm_calls w0).
  { intros w0 query w1 Hret; split.
    - rewrite (run_rag_pipeline_unfold w0 w1 query [] Hret); reflexivity.
    - pose proof (retrieve_top_k_frame w0 query TOP_K) as (_ & _ & Hllm).
      rewrite Hret in Hllm; exact Hllm. }
  split; [apply Hshort|].
  intros Hdocs.
  assert (Hidx : exists w' s',
            index_documents w = (Ok tt, w') /\ db w' = Some (mk_table [] s')).
  { pose proof (index_documents_run w) as Hrun.
    destruct Hdocs as [Hnone|Hnil].
    - rewrite Hnone in Hrun; destruct Hrun as (w' & s & Hrun & Hdb & _).
      exists w', s; auto.
    - rewrite Hnil in Hrun.
      destruct (Hrun (Forall_nil _)) as (w' & s & s' & Hidx & Hdb & _).
      exists w', s'; auto. }
  destruct Hidx as (w' & s' & Hidx & Hdb).
  exists w', (mk_table [] s'); repeat split; try assumption.
  intros query.
  destruct (retrieve_top_k_empty w' (mk_table [] s') query TOP_K Hdb eq_refl)
    as [w'' Hret].
  exists w''; apply Hshort; exact Hret.
Qed.

(** ** More on the chunker *)

Lemma py_slice_len {A : Type} (s : list A) (i m : Z) :
  0 <= i -> 0 <= m ->
  len (py_slice s i (i + m)) = Z.min (i + m) (len s) - Z.min i (len s).
Proof.
  intros Hi Hm; pose proof (len_nonneg s) as Hs.
  rewrite py_slice_nonneg by lia.
  unfold len in *; rewrite length_firstn, length_skipn; lia.
Qed.

Lemma py_slice_app_l {A : Type} (a b : list A) (i j : Z) :
  0 <= i -> i <= j -> j <= len a ->
  py_slice (a ++ b) i j = py_slice a i j.
Proof.
  intros Hi Hj Hja; pose proof (len_nonneg a) as Ha.
  pose proof (len_nonneg b) as Hb.
  rewrite !py_slice_nonneg by lia; rewrite len_app.
  replace (Z.min j (len a + len b)) with (Z.min j (len a)) by lia.
  replace (Z.min i (len a + len b)) with (Z.min i (len a)) by lia.
  set (lo := Z.to_nat (Z.min i (len a))).
  set (n := Z.to_nat (Z.min j (len a) - Z.min i (len a))).
  assert (Hlo : (lo <= length a)%nat) by (subst lo; unfold len in *; lia).
  assert (Hn : (n <= length a - lo)%nat) by (subst lo n; unfold len in *; lia).
  rewrite skipn_app, firstn_app, length_skipn.
  replace (lo - length a)%nat with 0%nat by lia.
  replace (n - (length a - lo))%nat with 0%nat by lia.
  cbn [skipn firstn]; apply app_nil_r.
Qed.

Lemma py_slice_app_r {A : Type} (a b : list A) (x y : Z) :
  0 <= x -> 0 <= y ->
  py_slice (a ++ b) (len a + x) (len a + y) = py_slice b x y.
Proof.
  intros Hx Hy; pose proof (len_nonneg a) as Ha.
  pose proof (len_nonneg b) as Hb.
  rewrite !py_slice_nonneg by lia; rewrite len_app.
  replace (Z.min (len a + y) (len a + len b)) with (len a + Z.min y (len b))
    by lia.
  replace (Z.min (len a + x) (len a + len b)) with (len a + Z.min x (len b))
    by lia.
  replace (len a + Z.min y (len b) - (len a + Z.min x (len b)))
    with (Z.min y (len b) - Z.min x (len b)) by lia.
  f_equal.
  replace (Z.to_nat (len a + Z.min x (len b)))
    with (length a + Z.to_nat (Z.min x (len b)))%nat by (unfold len; lia).
  rewrite skipn_app.
  replace (length a + Z.to_nat (Z.min x (len b)) - length a)%nat
    with (Z.to_nat (Z.min x (len b))) by lia.
  rewrite skipn_all2 by lia; reflexivity.
Qed.

(** What [chunk_text] returns, window by window. *)
Lemma chunk_text_windows (text : pystr) (m : Z) :
  0 < m ->
  exists cs,
    Chunker.chunk_text text m = Some cs /\
    len text <= len cs * m /\ len cs * m < len text + m /\
    (forall i, (i < length cs)%nat ->
       nth i cs [] = py_slice text (Z.of_nat i * m) (Z.of_nat i * m + m)).
Proof.
  intros Hm.
  destruct (chunk_loop_runs text m Hm (S (length text)) Chunker.init)
    as (st & Hrun & (Hs & Hlt & _ & _ & Hnth) & Hend).
  - apply chunk_inv_init; assumption.
  - cbn [Chunker.start Chunker.init]; unfold len; lia.
  - exists (Chunker.chunks st); repeat split; try assumption; lia.
Qed.

(** X1: for [max_chars > 0] no chunk that [chunk_text] returns is
    empty, every chunk but the last has exactly [max_chars] characters,
    and the last one has what is left. *)
Theorem chunk_text_chunks_full (text : pystr) (max_chars : Z)
    (cs : list pystr) :
  0 < max_chars ->
  Chunker.chunk_text text max_chars = Some cs ->
  Forall (fun c => c <> []) cs /\
  (forall i, (S i < length cs)%nat -> len (nth i cs []) = max_chars) /\
  (cs <> [] ->
   len (last cs []) = len text - (len cs - 1) * max_chars).
Proof.
  intros Hm Hrun.
  destruct (chunk_text_windows text max_chars Hm)
    as (cs' & Hrun' & Hlo & Hhi & Hnth).
  rewrite Hrun in Hrun'; injection Hrun' as <-.
  assert (Hlen : forall i, (i < length cs)%nat ->
            len (nth i cs [])
            = Z.min (Z.of_nat i * max_chars + max_chars) (len text)
              - Z.of_nat i * max_chars).
  { intros i Hi; rewrite (Hnth i Hi), py_slice_len by nia.
    unfold len in *; nia. }
  split; [|split].
  - apply Forall_forall; intros c Hc.
    apply (In_nth _ _ (@nil pychar)) in Hc as (i & Hi & <-).
    specialize (Hlen i Hi); intros Hnil.
    unfold pystr in *; rewrite Hnil in Hlen.
    change (len (@nil pychar)) with 0 in Hlen; unfold len in *; nia.
  - intros i Hi; rewrite Hlen by lia; unfold len in *; nia.
  - intros Hne.
    destruct (exists_last Hne) as (front & c & ->).
    rewrite last_last.
    specialize (Hlen (length front)).
    rewrite length_app in Hlen; cbn [length] in Hlen.
    rewrite nth_middle in Hlen; rewrite Hlen by lia.
    rewrite len_app in *; change (len [c]) with 1 in *.
    unfold len in *; nia.
Qed.

(** X2: chunking composes over concatenation at a chunk boundary: when
    the length of [a] is a multiple of [max_chars], the chunks of
    [a ++ b] are the chunks of [a] followed by the chunks of [b]. *)
Theorem chunk_text_app (a b : pystr) (max_chars k : Z)
    (ca cb : list pystr) :
  0 < max_chars -> len a = k * max_chars ->
  Chunker.chunk_text a max_chars = Some ca ->
  Chunker.chunk_text b max_chars = Some cb ->
  Chunker.chunk_text (a ++ b) max_chars = Some (ca ++ cb).
Proof.
  intros Hm Hk Ha Hb.
  destruct (chunk_text_windows a max_chars Hm) as (ca' & Ha' & Hal & Hah & Han).
  rewrite Ha in Ha'; injection Ha' as <-.
  destruct (chunk_text_windows b max_chars Hm) as (cb' & Hb' & Hbl & Hbh & Hbn).
  rewrite Hb in Hb'; injection Hb' as <-.
  destruct (chunk_text_windows (a ++ b) max_chars Hm)
    as (cs & Hrun & Hl & Hh & Hn).
  rewrite Hrun; f_equal.
  rewrite len_app in Hl, Hh.
  assert (Hca : len ca = k) by nia.
  assert (Hcs : len cs = len ca + len cb) by nia.
  unfold pystr in *.
  apply (nth_ext _ _ [] []).
  - rewrite length_app; unfold len in *; lia.
  - intros i Hi; rewrite (Hn i Hi).
    destruct (Nat.lt_ge_cases i (length ca)) as [Hlt|Hge].
    + rewrite app_nth1 by assumption; rewrite (Han i Hlt).
      apply py_slice_app_l; unfold len in *; nia.
    + rewrite app_nth2 by assumption.
      rewrite Hbn by (unfold len in *; lia).
      replace (Z.of_nat i * max_chars)
        with (len a + Z.of_nat (i - length ca) * max_chars)
        by (unfold len in *; nia).
      rewrite <- Z.add_assoc.
      apply py_slice_app_r; nia.
Qed.

(** ** More on the cache *)

Lemma dict_get_In {V : Type} (k : pystr) (v : V) (d : dict V) :
  dict_get k d = Some v -> In (k, v) d.
Proof.
  induction d as [|[k' v'] d IH]; cbn; [discriminate|].
  destruct (pystr_eq_dec k' k) as [->|_].
  - intros H; injection H as ->; now left.
  - intros H; right; auto.
Qed.

Lemma get_query_embedding_coherent (w : world) (q : pystr) :
  cache_coherent (cache w) ->
  fst (get_query_embedding q w) = Ok (encode (strip q)) /\
  cache_coherent (cache (snd (get_query_embedding q w))).
Proof.
  intros [Hnd Hall].
  destruct (dict_get (strip q) (cache w)) as [v|] eqn:Hget.
  - rewrite (get_query_embedding_hit _ _ _ Hget); cbn [fst snd].
    split; [|split; assumption].
    apply dict_get_In in Hget.
    rewrite Forall_forall in Hall; destruct (Hall _ Hget) as [_ Hv].
    cbn [fst snd] in Hv; rewrite Hv; reflexivity.
  - rewrite (get_query_embedding_miss _ _ Hget); cbn [fst snd cache].
    split; [reflexivity|].
    assert (Hsub : NoDup (dict_keys
              (if MAX_QUERY_CACHE_SIZE <=? len (cache w)
               then tl (cache w) else cache w)) /\
            Forall (fun e => trimmed (fst e) /\ snd e = encode (fst e))
              (if MAX_QUERY_CACHE_SIZE <=? len (cache w)
               then tl (cache w) else cache w) /\
            dict_get (strip q)
              (if MAX_QUERY_CACHE_SIZE <=? len (cache w)
               then tl (cache w) else cache w) = None).
    { destruct (MAX_QUERY_CACHE_SIZE <=? len (cache w)); [|auto].
      split; [|split; [|apply dict_get_tl_None; exact Hget]].
      - destruct (cache w); cbn in *; [assumption|].
        inversion Hnd; assumption.
      - destruct (cache w); cbn in *; [assumption|].
        inversion Hall; assumption. }
    destruct Hsub as (Hnd' & Hall' & Hget').
    split.
    + unfold dict_keys in *; rewrite map_app; cbn [map fst].
      apply NoDup_app; [assumption | repeat constructor; cbn; tauto |].
      intros k Hk [<-|[]].
      apply dict_get_None_keys in Hget'; contradiction.
    + apply Forall_app; split; [assumption|].
      constructor; [|constructor].
      cbn [fst snd]; split; [apply strip_idem | reflexivity].
Qed.

Lemma run_queries_coherent (qs : list pystr) :
  forall w, cache_coherent (cache w) ->
    cache_coherent (cache (snd (run_queries qs w))).
Proof.
  induction qs as [|q qs IH]; intros w Hw; [exact Hw|].
  rewrite run_queries_cons; apply IH.
  apply get_query_embedding_coherent; exact Hw.
Qed.

(** X3: the cache is transparent.  Started empty, after any run of
    queries it holds distinct stripped keys, each with the embedding of
    that key, so [get_query_embedding] returns the embedding of the
    stripped query whether it hits or misses. *)
Theorem query_cache_transparent (w : world) (qs : list pystr) (q : pystr) :
  cache w = [] ->
  let w1 := snd (run_queries qs w) in
  cache_coherent (cache w1) /\
  fst (get_query_embedding q w1) = Ok (encode (strip q)).
Proof.
  intros Hempty w1.
  assert (Hw1 : cache_coherent (cache w1)).
  { apply run_queries_coherent; rewrite Hempty.
    split; constructor. }
  split; [exact Hw1|].
  apply get_query_embedding_coherent; exact Hw1.
Qed.

(** X4: a hit does not refresh an entry.  On a full cache, a query that
    hits the oldest key followed by a query that misses leaves the
    cache without that oldest key: eviction follows insertion order,
    not use. *)
Theorem query_cache_hit_no_refresh (w : world) (k0 : pystr) (v0 : vec)
    (rest : dict vec) (q1 q2 : pystr) :
  cache w = (k0, v0) :: rest ->
  NoDup (dict_keys (cache w)) ->
  MAX_QUERY_CACHE_SIZE <= len (cache w) ->
  strip q1 = k0 ->
  dict_get (strip q2) (cache w) = None ->
  let w1 := snd (get_query_embedding q1 w) in
  let w2 := snd (get_query_embedding q2 w1) in
  fst (get_query_embedding q1 w) = Ok v0 /\
  cache w2 = rest ++ [entry_of q2] /\
  dict_get k0 (cache w2) = None.
Proof.
  intros Hc Hnd Hfull Hq1 Hq2 w1 w2.
  assert (Hhit : dict_get (strip q1) (cache w) = Some v0).
  { rewrite Hc, Hq1; cbn.
    destruct (pystr_eq_dec k0 k0); [reflexivity | congruence]. }
  assert (Hw1 : w1 = w)
    by (subst w1; rewrite (get_query_embedding_hit _ _ _ Hhit); reflexivity).
  assert (Hcache : cache w2 = rest ++ [entry_of q2]).
  { subst w2; rewrite Hw1, (get_query_embedding_miss _ _ Hq2).
    cbn [snd cache]; apply Z.leb_le in Hfull; rewrite Hfull, Hc.
    reflexivity. }
  split; [|split].
  - rewrite (get_query_embedding_hit _ _ _ Hhit); reflexivity.
  - exact Hcache.
  - rewrite Hcache; apply dict_get_None_keys.
    unfold dict_keys; rewrite map_app; cbn [map fst entry_of].
    rewrite Hc in Hnd, Hq2; cbn in Hnd, Hq2.
    apply NoDup_cons_iff in Hnd as [Hnotin _].
    intros Hin; apply in_app_or in Hin as [Hin|[Hin|[]]]; [contradiction|].
    destruct (pystr_eq_dec k0 (strip q2)); [discriminate | congruence].
Qed.

(** ** More on retrieval and the pipeline *)

Lemma py_slice_drop_last {A : Type} (l : list A) (k : Z) :
  k < 0 -> py_slice l 0 k = firstn (length l - Z.to_nat (- k)) l.
Proof.
  intros Hk; pose proof (len_nonneg l) as Hl.
  unfold py_slice, slice_index.
  destruct (Z.ltb_spec k 0) as [_|]; [|lia].
  change (0 <? 0) with false; cbn iota.
  replace (Z.min 0 (len l)) with 0 by lia.
  cbn [Z.to_nat skipn]; f_equal; unfold len in *; lia.
Qed.

(** What [retrieve_top_k] returns for any [k], cut left to the slice. *)
Lemma retrieve_top_k_slice (w : world) (t : table) (query : pystr) (k : Z)
    (chunks : list (Z * pystr * pystr * vec)) :
  (forall x y, score_ltb x y = true -> score_ltb y x = false) ->
  (forall x y z,
     score_ltb x y = false -> score_ltb y z = false -> score_ltb x z = false) ->
  db w = Some t -> table_ok t ->
  decode_rows (rows t) [] = Ok chunks ->
  exists query_vec w' ranked,
    get_query_embedding query w = (Ok query_vec, w') /\
    Permutation ranked (map (tagged query_vec) chunks) /\
    StronglySorted ranks_before ranked /\
    retrieve_top_k query k w = (Ok (py_slice (map snd ranked) 0 k), w').
Proof.
  intros Hasym Hneg Hdb [Hids _] Hdec.
  destruct (retrieve_top_k_unfold w t query k chunks Hdb Hdec)
    as (qv & w' & Hq & Hrun).
  destruct (decode_rows_spec _ _ _ Hdec) as (cs' & Hcs & Hrows).
  cbn [app] in Hcs; subst cs'.
  exists qv, w',
    (sort_reverse (fun a => score_of (snd a)) score_ltb
                  (map (tagged qv) chunks)).
  repeat split.
  - exact Hq.
  - apply sort_reverse_perm.
  - apply (sort_reverse_tagged _ _ (fun a => score_of (snd a)) score_ltb
                               (@fst Z scored_chunk) Hasym Hneg).
    apply (StronglySorted_unmap (@fst Z scored_chunk) Z.lt).
    rewrite (decodes_ids qv _ _ Hrows); exact Hids.
  - rewrite Hrun, score_chunks_map, <- (map_map (tagged qv) snd).
    rewrite sort_reverse_map; reflexivity.
Qed.

(** X5: with a negative [k], [retrieve_top_k] does not fail: as the
    slice [scored[:k]] does, it returns the ranking without its last
    [-k] entries, and nothing when there are no more than [-k]. *)
Theorem retrieve_top_k_negative (w : world) (t : table) (query : pystr)
    (k : Z) (chunks : list (Z * pystr * pystr * vec)) :
  (forall x y, score_ltb x y = true -> score_ltb y x = false) ->
  (forall x y z,
     score_ltb x y = false -> score_ltb y z = false -> score_ltb x z = false) ->
  k < 0 -> db w = Some t -> table_ok t ->
  decode_rows (rows t) [] = Ok chunks ->
  exists query_vec w' ranked,
    get_query_embedding query w = (Ok query_vec, w') /\
    Permutation ranked (map (tagged query_vec) chunks) /\
    StronglySorted ranks_before ranked /\
    let result := map snd (firstn (length ranked - Z.to_nat (- k)) ranked) in
    retrieve_top_k query k w = (Ok result, w') /\
    len result = Z.max 0 (len (rows t) + k).
Proof.
  intros Hasym Hneg Hk Hdb Hok Hdec.
  destruct (retrieve_top_k_slice w t query k chunks Hasym Hneg Hdb Hok Hdec)
    as (qv & w' & ranked & Hq & Hperm & Hsorted & Hrun).
  destruct (decode_rows_spec _ _ _ Hdec) as (cs' & Hcs & Hrows).
  cbn [app] in Hcs; subst cs'.
  assert (Hlen : length ranked = length (rows t)).
  { rewrite (Permutation_length Hperm), length_map.
    symmetry; eapply Forall2_length; exact Hrows. }
  exists qv, w', ranked; repeat split; try assumption.
  - rewrite Hrun, py_slice_drop_last by assumption.
    rewrite length_map, firstn_map; reflexivity.
  - unfold len; rewrite length_map, length_firstn; lia.
Qed.

Lemma load_all_chunks_db (w w1 : world) :
  db w1 = db w -> fst (load_all_chunks w1) = fst (load_all_chunks w).
Proof.
  intros Hdb; unfold load_all_chunks, bind, get_db, raise; rewrite Hdb.
  destruct (db w); reflexivity.
Qed.

(** [run_rag_pipeline] when retrieval does not return. *)
Lemma run_rag_pipeline_raise (w w1 : world) (query : pystr) (e : exn) :
  retrieve_top_k query TOP_K w = (Raise e, w1) ->
  run_rag_pipeline query w = (Raise e, w1).
Proof.
  intros Hret; unfold run_rag_pipeline, bind at 1; rewrite Hret; reflexivity.
Qed.

Lemma retrieve_top_k_raise (w : world) (query : pystr) (k : Z) (e : exn) :
  fst (load_all_chunks w) = Raise e ->
  retrieve_top_k query k w = (Raise e, snd (get_query_embedding query w)).
Proof.
  intros Hload.
  destruct (get_query_embedding_ok w query) as [qv Hqv].
  pose proof (get_query_embedding_frame w query) as (Hdb & _).
  unfold retrieve_top_k, bind at 1.
  destruct (get_query_embedding query w) as [r w1]; cbn in Hqv, Hdb; subst r.
  cbn [snd]; unfold bind.
  pose proof (load_all_chunks_db w w1 Hdb) as Hfst; rewrite Hload in Hfst.
  pose proof (load_all_chunks_world w1) as Hsnd.
  destruct (load_all_chunks w1) as [r w2]; cbn in Hfst, Hsnd; subst r w2.
  reflexivity.
Qed.

(** X6: a failure of the store is not caught by [run_rag_pipeline].
    When loading the chunks raises, because the table was never created
    or because a row does not decode, the pipeline raises the same
    exception, returns no message and requests no chat completion; the
    query embedding it computed on the way stays cached. *)
Theorem run_rag_pipeline_store_error (w : world) (query : pystr) (e : exn) :
  fst (load_all_chunks w) = Raise e ->
  let w1 := snd (get_query_embedding query w) in
  run_rag_pipeline query w = (Raise e, w1) /\
  llm_calls w1 = llm_calls w /\
  dict_get (strip query) (cache w1) <> None /\
  (db w = None -> e = Exception "sqlite3.OperationalError").
Proof.
  intros Hload w1; repeat split.
  - apply run_rag_pipeline_raise, retrieve_top_k_raise; exact Hload.
  - apply get_query_embedding_frame.
  - subst w1.
    destruct (dict_get (strip query) (cache w)) as [v|] eqn:Hget.
    + rewrite (get_query_embedding_hit _ _ _ Hget); cbn [snd].
      rewrite Hget; discriminate.
    + rewrite (get_query_embedding_miss _ _ Hget); cbn [snd cache].
      rewrite dict_get_last; [discriminate|].
      destruct (MAX_QUERY_CACHE_SIZE <=? len (cache w));
        [apply dict_get_tl_None|]; exact Hget.
  - intros Hdb; unfold load_all_chunks, bind, get_db, raise in Hload.
    rewrite Hdb in Hload; cbn in Hload; injection Hload as <-; reflexivity.
Qed.

Lemma context_loop (top_chunks : list scored_chunk) :
  forall context_str sources_lines,
    fst (fold_left pipeline_step top_chunks (context_str, sources_lines))
    = context_str ++ concat (map block_of top_chunks).
Proof.
  induction top_chunks as [|[[s d] t] top IH]; intros ctx src; cbn.
  - rewrite app_nil_r; reflexivity.
  - rewrite IH, <- app_assoc; reflexivity.
Qed.

(** X7: whatever happens, [run_rag_pipeline] leaves the store and the
    documents directory as they were, calls the embedding model at most
    once and requests at most one chat completion. *)
Theorem run_rag_pipeline_frame (w : world) (query : pystr) :
  let w' := snd (run_rag_pipeline query w) in
  db w' = db w /\ docs w' = docs w /\
  (exists calls, embed_calls w' = embed_calls w ++ calls
                 /\ (length calls <= 1)%nat) /\
  (exists calls, llm_calls w' = llm_calls w ++ calls
                 /\ (length calls <= 1)%nat).
Proof.
  intros w'.
  pose proof (retrieve_top_k_frame w query TOP_K) as (Hdb & Hdocs & Hllm).
  assert (Hemb : exists calls,
            embed_calls (snd (retrieve_top_k query TOP_K w))
            = embed_calls w ++ calls /\ (length calls <= 1)%nat).
  { rewrite retrieve_top_k_world.
    destruct (dict_get (strip query) (cache w)) as [v|] eqn:Hget.
    - rewrite (get_query_embedding_hit _ _ _ Hget); exists [].
      rewrite app_nil_r; cbn; auto.
    - rewrite (get_query_embedding_miss _ _ Hget); eexists.
      cbn [snd embed_calls]; split; [reflexivity | cbn; lia]. }
  subst w'.
  destruct (retrieve_top_k query TOP_K w) as [[top|e|] w1] eqn:Hret;
    cbn [snd] in *.
  - rewrite (run_rag_pipeline_unfold w w1 query top Hret).
    destruct top as [|c top].
    + cbn [snd]; repeat split; try assumption.
      exists []; rewrite app_nil_r; cbn; auto.
    + cbv zeta.
      destruct (chat_completion _ _ _) as [content|[n|n]]; cbn [snd];
        cbn [db docs embed_calls llm_calls]; repeat split; try assumption;
        eexists; (split; [rewrite Hllm; reflexivity | cbn; lia]).
  - rewrite (run_rag_pipeline_raise w w1 query e Hret); cbn [snd].
    repeat split; try assumption.
    exists []; rewrite app_nil_r; cbn; auto.
  - assert (Hrun : run_rag_pipeline query w = (Diverge, w1))
      by (unfold run_rag_pipeline, bind at 1; rewrite Hret; reflexivity).
    rewrite Hrun; cbn [snd].
    repeat split; try assumption.
    exists []; rewrite app_nil_r; cbn; auto.
Qed.

(** X8: when retrieval gives chunks, the one chat completion that
    [run_rag_pipeline] requests has the fixed system prompt and a user
    prompt made of ["Context:\n"], one block per retrieved chunk in
    rank order (document name, score, the whole chunk text), and the
    question as it was passed in; this holds whether the completion
    then succeeds or raises. *)
Theorem run_rag_pipeline_prompt (w w1 : world) (query : pystr)
    (top_chunks : list scored_chunk) :
  retrieve_top_k query TOP_K w = (Ok top_chunks, w1) ->
  top_chunks <> [] ->
  llm_calls (snd (run_rag_pipeline query w))
  = llm_calls w
    ++ [(SYSTEM_PROMPT,
         lit "Context:" ++ [nl] ++ concat (map block_of top_chunks)
         ++ [nl; nl] ++ lit "Question: " ++ query)] /\
  (forall s doc_name chunk_text,
     block_of (s, doc_name, chunk_text)
     = lit "[From " ++ doc_name ++ lit ", score=" ++ format_3f s ++ lit "]"
       ++ [nl] ++ chunk_text ++ [nl; nl]).
Proof.
  intros Hret Hne; split; [|reflexivity].
  pose proof (retrieve_top_k_frame w query TOP_K) as (_ & _ & Hllm).
  rewrite Hret in Hllm; cbn [snd] in Hllm.
  rewrite (run_rag_pipeline_unfold w w1 query top_chunks Hret).
  destruct top_chunks as [|c top]; [congruence|].
  cbv zeta.
  assert (Hctx : context_of (c :: top) = concat (map block_of (c :: top)))
    by (unfold context_of; rewrite context_loop; reflexivity).
  destruct (chat_completion _ _ _) as [content|[n|n]]; cbn [snd llm_calls];
    rewrite Hllm, Hctx; reflexivity.
Qed.

Lemma make_snippet_short (chunk_text : pystr) :
  len (make_snippet chunk_text) <= 123 /\ ~ In nl (make_snippet chunk_text).
Proof.
  unfold make_snippet.
  pose proof (replace_char_gone nl space chunk_text) as Hgone.
  assert (Hne : space <> nl) by discriminate.
  specialize (Hgone Hne).
  destruct (Z.ltb_spec 120 (len (replace_char nl space chunk_text))).
  - rewrite py_slice_firstn by lia; split.
    + rewrite len_app; unfold len; rewrite length_firstn; cbn; lia.
    + intros Hin; apply in_app_or in Hin as [Hin|Hin].
      * apply Hgone.
        rewrite <- (firstn_skipn (Z.to_nat 120) (replace_char nl space chunk_text)).
        apply in_or_app; left; exact Hin.
      * cbn in Hin; unfold nl in Hin; intuition discriminate.
  - split; [lia | exact Hgone].
Qed.

(** X10: a source line is one line of bounded length: when neither the
    document name nor the formatted score holds a newline, the line
    holds none either, and it is at most 139 characters longer than the
    name and the score together. *)
Theorem citation_single_line (s : score) (doc_name chunk_text : pystr) :
  ~ In nl doc_name -> ~ In nl (format_3f s) ->
  ~ In nl (citation (s, doc_name, chunk_text)) /\
  len (citation (s, doc_name, chunk_text))
  <= len doc_name + len (format_3f s) + 139.
Proof.
  intros Hdoc Hfmt.
  destruct (make_snippet_short chunk_text) as [Hlen Hnl].
  unfold citation, source_line; split.
  - intros Hin.
    repeat (apply in_app_or in Hin as [Hin|Hin]); try contradiction;
      cbn in Hin; unfold nl, rarrow, dquote in Hin; intuition discriminate.
  - rewrite !len_app.
    change (len (lit "- ")) with 2; change (len (lit " (score=")) with 8.
    change (len (lit ") ")) with 2; change (len (lit " ")) with 1.
    change (len [rarrow]) with 1; change (len [dquote]) with 1.
    lia.
Qed.

(** ** More on indexing *)

Lemma world_eta (w : world) :
  mk_world (cache w) (db w) (docs w) (embed_calls w) (llm_calls w) = w.
Proof. destruct w; reflexivity. Qed.

Lemma number_rows_length (s : Z) (doc_name : pystr) (cs : list pystr) :
  len (number_rows s doc_name cs) = len cs.
Proof.
  revert s; induction cs as [|c cs IH]; intros s; [reflexivity|].
  cbn [number_rows]; unfold len in *; cbn [length].
  specialize (IH (s + 1)); lia.
Qed.

Lemma insert_all_exact (doc_name : pystr) (cs : list pystr) :
  forall (w : world) (t : table),
    db w = Some t ->
    for_each (combine cs (map encode cs))
      (fun '(chunk_text_str, emb_vec) =>
         insert_chunk doc_name chunk_text_str emb_vec) w
    = (Ok tt,
       mk_world (cache w)
         (Some (mk_table (rows t ++ number_rows (seq t) doc_name cs)
                         (seq t + len cs)))
         (docs w) (embed_calls w) (llm_calls w)).
Proof.
  induction cs as [|c cs IH]; intros w t Hdb.
  - cbn [map combine for_each number_rows]; unfold ret.
    rewrite app_nil_r; change (len (@nil pystr)) with 0; rewrite Z.add_0_r.
    destruct t; cbn [rows seq]; rewrite <- Hdb, world_eta; reflexivity.
  - cbn [map combine for_each]; unfold bind.
    rewrite (insert_chunk_run w t doc_name c (encode c) Hdb).
    erewrite IH by reflexivity.
    cbn [cache db docs embed_calls llm_calls rows seq number_rows].
    rewrite <- app_assoc; cbn [app].
    do 4 f_equal; unfold len; cbn [length]; lia.
Qed.

Lemma index_one_exact (e : dirent) (w : world) (t : table) :
  db w = Some t ->
  (indexable e = true -> d_text e <> None) ->
  index_one e w
  = (Ok tt,
     mk_world (cache w)
       (Some (mk_table
                (rows t ++ number_rows (seq t) (d_name e) (entry_texts e))
                (seq t + len (entry_texts e))))
       (docs w)
       (embed_calls w ++ (if indexable e then [entry_texts e] else []))
       (llm_calls w)).
Proof.
  intros Hdb Hread.
  assert (Hskip : indexable e = false ->
            (Ok tt, w)
            = (Ok tt,
               mk_world (cache w)
                 (Some (mk_table
                    (rows t ++ number_rows (seq t) (d_name e) (entry_texts e))
                    (seq t + len (entry_texts e))))
                 (docs w)
                 (embed_calls w ++ (if indexable e then [entry_texts e] else []))
                 (llm_calls w))).
  { intros Hno; unfold entry_texts; rewrite Hno; cbn [number_rows].
    rewrite !app_nil_r; change (len (@nil pystr)) with 0; rewrite Z.add_0_r.
    destruct t; cbn [rows seq]; rewrite <- Hdb, world_eta; reflexivity. }
  unfold index_one.
  destruct (d_is_file e) eqn:Hfile; cbn [negb];
    [|apply Hskip; unfold indexable; rewrite Hfile; reflexivity].
  destruct (allowed_suffix (d_name e)) eqn:Hsfx; cbn [negb];
    [|apply Hskip; unfold indexable; rewrite Hfile, Hsfx; reflexivity].
  assert (Hidx : indexable e = true)
    by (unfold indexable; rewrite Hfile, Hsfx; reflexivity).
  unfold entry_texts; rewrite Hidx.
  destruct (d_text e) as [text|]; [|exfalso; apply Hread; auto].
  unfold windows.
  destruct (chunk_text_returns text DEFAULT_MAX_CHARS) as [cs Hcs];
    [reflexivity|].
  rewrite Hcs; unfold bind, embed_text.
  erewrite insert_all_exact by (cbn [db]; exact Hdb).
  cbn [cache db docs embed_calls llm_calls].
  unfold len; rewrite !length_map; reflexivity.
Qed.

Lemma directory_rows_length (entries : list dirent) :
  forall s,
    len (directory_rows s entries)
    = len (flat_map entry_texts entries).
Proof.
  induction entries as [|e es IH]; intros s; [reflexivity|].
  cbn [directory_rows flat_map]; rewrite !len_app, number_rows_length, IH.
  reflexivity.
Qed.

Lemma index_all_exact (entries : list dirent) :
  forall (w : world) (t : table),
    db w = Some t -> readable entries ->
    for_each entries index_one w
    = (Ok tt,
       mk_world (cache w)
         (Some (mk_table (rows t ++ directory_rows (seq t) entries)
                         (seq t + len (directory_rows (seq t) entries))))
         (docs w)
         (embed_calls w ++ map entry_texts (filter indexable entries))
         (llm_calls w)).
Proof.
  induction entries as [|e es IH]; intros w t Hdb Hread.
  - cbn [for_each directory_rows filter map]; unfold ret.
    rewrite !app_nil_r; change (len (@nil row)) with 0; rewrite Z.add_0_r.
    destruct t; cbn [rows seq]; rewrite <- Hdb, world_eta; reflexivity.
  - inversion Hread as [|? ? He Hes]; subst.
    cbn [for_each]; unfold bind.
    rewrite (index_one_exact e w t Hdb He).
    erewrite IH by (first [reflexivity | exact Hes]).
    cbn [cache db docs embed_calls llm_calls rows seq directory_rows filter].
    rewrite !len_app, number_rows_length, <- !app_assoc.
    rewrite !directory_rows_length.
    destruct (indexable e); cbn [map app];
      rewrite <- ?app_assoc, ?app_nil_r, ?Z.add_assoc; reflexivity.
Qed.

Lemma reset_db_exact {A : Type} (k : M A) (w : world) :
  (init_db ;;; clear_db ;;; k) w
  = k (mk_world (cache w) (Some (mk_table [] (counter w))) (docs w)
                (embed_calls w) (llm_calls w)).
Proof.
  unfold init_db, clear_db, bind, get_db, set_db, ret, counter.
  destruct (db w) as [t|] eqn:Hdb; cbn; rewrite ?Hdb; reflexivity.
Qed.

Lemma index_documents_exact (w : world) (entries : list dirent) :
  docs w = Some entries -> readable entries ->
  index_documents w
  = (Ok tt,
     mk_world (cache w)
       (Some (mk_table (directory_rows (counter w) entries)
                       (counter w + len (directory_rows (counter w) entries))))
       (docs w)
       (embed_calls w ++ map entry_texts (filter indexable entries))
       (llm_calls w)).
Proof.
  intros Hdocs Hread; unfold index_documents.
  rewrite reset_db_exact; unfold bind, get_docs; cbn [docs]; rewrite Hdocs.
  erewrite index_all_exact by (first [reflexivity | exact Hread]).
  reflexivity.
Qed.

Lemma number_rows_content (s : Z) (doc_name : pystr) (cs : list pystr) :
  map row_content (number_rows s doc_name cs)
  = map (fun c => (doc_name, c, json_dumps (encode c))) cs.
Proof.
  revert s; induction cs as [|c cs IH]; intros s; cbn; [reflexivity|].
  rewrite IH; reflexivity.
Qed.

Lemma directory_rows_content (entries : list dirent) :
  forall s,
    map row_content (directory_rows s entries) = directory_contents entries.
Proof.
  induction entries as [|e es IH]; intros s;
    cbn [directory_rows directory_contents flat_map]; [reflexivity|].
  rewrite map_app, number_rows_content, IH; reflexivity.
Qed.

Lemma number_rows_ids (doc_name : pystr) (cs : list pystr) :
  forall s,
    StronglySorted Z.lt (map row_id (number_rows s doc_name cs)) /\
    Forall (fun r => s < row_id r <= s + len cs) (number_rows s doc_name cs).
Proof.
  induction cs as [|c cs IH]; intros s; cbn [number_rows map].
  - split; constructor.
  - destruct (IH (s + 1)) as [Hsorted Hbound].
    assert (Hlen : len (c :: cs) = len cs + 1)
      by (unfold len; cbn [length]; lia).
    split.
    + constructor; [assumption|].
      apply Forall_map; eapply Forall_impl; [|exact Hbound].
      cbn; intros r Hr; lia.
    + constructor; [cbn; pose proof (len_nonneg cs); lia|].
      eapply Forall_impl; [|exact Hbound]; cbn beta; intros r Hr; lia.
Qed.

Lemma StronglySorted_app_lt (l1 l2 : list Z) (m : Z) :
  StronglySorted Z.lt l1 -> StronglySorted Z.lt l2 ->
  Forall (fun x => x <= m) l1 -> Forall (fun x => m < x) l2 ->
  StronglySorted Z.lt (l1 ++ l2).
Proof.
  intros H1 H2 Hle Hgt; induction H1 as [|x l1 Hl1 IH Hx]; [exact H2|].
  inversion Hle; subst; cbn; constructor; [auto|].
  apply Forall_app; split; [assumption|].
  eapply Forall_impl; [|exact Hgt]; cbn; intros; lia.
Qed.

Lemma directory_rows_ids (entries : list dirent) :
  forall s,
    StronglySorted Z.lt (map row_id (directory_rows s entries)) /\
    Forall (fun r => s < row_id r <= s + len (directory_rows s entries))
           (directory_rows s entries).
Proof.
  induction entries as [|e es IH]; intros s; cbn [directory_rows].
  - split; constructor.
  - destruct (number_rows_ids (d_name e) (entry_texts e) s) as [Hs1 Hb1].
    destruct (IH (s + len (entry_texts e))) as [Hs2 Hb2].
    pose proof (len_nonneg (entry_texts e)) as Hn1.
    pose proof (len_nonneg (directory_rows (s + len (entry_texts e)) es)) as Hn2.
    rewrite len_app, number_rows_length; split.
    + rewrite map_app.
      apply (StronglySorted_app_lt _ _ (s + len (entry_texts e)));
        try assumption; apply Forall_map.
      * eapply Forall_impl; [|exact Hb1]; cbn beta; intros r Hr; lia.
      * eapply Forall_impl; [|exact Hb2]; cbn beta; intros r Hr; lia.
    + apply Forall_app; split.
      * eapply Forall_impl; [|exact Hb1]; cbn beta; intros r Hr; lia.
      * eapply Forall_impl; [|exact Hb2]; cbn beta; intros r Hr; lia.
Qed.

(** X11: re-indexing never reuses an id.  On a table in order,
    [index_documents] leaves a table in order whose ids are all greater
    than every id the table held before: the AUTOINCREMENT counter
    survives [DELETE FROM chunks]. *)
Theorem index_documents_fresh_ids (w : world) (t : table)
    (entries : list dirent) :
  db w = Some t -> table_ok t ->
  docs w = Some entries -> readable entries ->
  exists w' t',
    index_documents w = (Ok tt, w') /\ db w' = Some t' /\ table_ok t' /\
    forall r r', In r (rows t) -> In r' (rows t') -> row_id r < row_id r'.
Proof.
  intros Hdb [_ Hbound] Hdocs Hread.
  rewrite (index_documents_exact w entries Hdocs Hread).
  unfold counter; rewrite Hdb.
  destruct (directory_rows_ids entries (seq t)) as [Hsorted Hids].
  eexists; eexists; split; [reflexivity|]; cbn [db]; split; [reflexivity|].
  split; [split|]; cbn [rows seq].
  - exact Hsorted.
  - eapply Forall_impl; [|exact Hids]; cbn beta; intros r Hr; lia.
  - intros r r' Hr Hr'.
    rewrite Forall_forall in Hbound, Hids.
    specialize (Hbound r Hr); specialize (Hids r' Hr'); lia.
Qed.

(** X12: indexing is a full rebuild.  On a readable directory the
    contents stored after [index_documents] (doc_name, text and
    embedding of every row, in order) depend on the directory alone, not
    on what the table held before; running it a second time stores the
    same contents again, with no duplicate. *)
Theorem index_documents_rebuild (w : world) (entries : list dirent) :
  docs w = Some entries -> readable entries ->
  let w1 := snd (index_documents w) in
  let w2 := snd (index_documents w1) in
  fst (index_documents w) = Ok tt /\
  stored w1 = Some (directory_contents entries) /\
  fst (index_documents w1) = Ok tt /\
  stored w2 = stored w1.
Proof.
  intros Hdocs Hread w1 w2.
  assert (Hrun : forall w0, docs w0 = Some entries ->
            fst (index_documents w0) = Ok tt /\
            stored (snd (index_documents w0))
            = Some (directory_contents entries) /\
            docs (snd (index_documents w0)) = Some entries).
  { intros w0 Hd; rewrite (index_documents_exact w0 entries Hd Hread).
    cbn [fst snd docs]; unfold stored; cbn [db rows].
    rewrite directory_rows_content; auto. }
  destruct (Hrun w Hdocs) as (Hok & Hst & Hd1).
  destruct (Hrun w1 Hd1) as (Hok2 & Hst2 & _).
  subst w2; rewrite Hst2; auto.
Qed.

Lemma for_each_app {A : Type} (f : A -> M unit) (l1 l2 : list A) :
  forall w,
    for_each (l1 ++ l2) f w =
    match for_each l1 f w with
    | (Ok _, w1) => for_each l2 f w1
    | other => other
    end.
Proof.
  induction l1 as [|x l1 IH]; intros w; cbn [app for_each]; [reflexivity|].
  unfold bind; destruct (f x w) as [[[]|e|] w1]; [apply IH | | ]; reflexivity.
Qed.

(** X13: a file that cannot be decoded stops indexing half way.  When
    the directory lists readable entries, then an indexed file that is
    not valid UTF-8, [index_documents] raises [UnicodeDecodeError]; the
    old rows are gone and the table holds the rows of the entries
    listed before that file only. *)
Theorem index_documents_partial (w : world) (before after : list dirent)
    (bad : dirent) :
  docs w = Some (before ++ bad :: after) ->
  readable before -> indexable bad = true -> d_text bad = None ->
  let w' := snd (index_documents w) in
  fst (index_documents w) = Raise (Exception "UnicodeDecodeError") /\
  stored w' = Some (directory_contents before).
Proof.
  intros Hdocs Hread Hidx Hbad w'; subst w'.
  assert (Hrun : index_documents w
            = (Raise unicode_decode_error,
               mk_world (cache w)
                 (Some (mk_table (directory_rows (counter w) before)
                          (counter w
                           + len (directory_rows (counter w) before))))
                 (docs w)
                 (embed_calls w ++ map entry_texts (filter indexable before))
                 (llm_calls w))).
  { unfold index_documents.
    rewrite reset_db_exact; unfold bind at 1, get_docs; cbn [docs].
    rewrite Hdocs, for_each_app.
    erewrite index_all_exact by (first [reflexivity | exact Hread]).
    cbn [for_each]; unfold bind, index_one.
    unfold indexable in Hidx; apply andb_prop in Hidx as [Hfile Hsfx].
    rewrite Hfile, Hsfx, Hbad; reflexivity. }
  rewrite Hrun; unfold stored; cbn [fst snd db rows].
  rewrite directory_rows_content; auto.
Qed.

(** X14: [index_documents] calls the embedding model once per indexed
    file, in directory order, on the chunks of that file with their
    headers (an empty batch for an empty file); entries that are
    skipped cause no call, and raw chunks are never embedded. *)
Theorem index_documents_embed_batches (w : world) (entries : list dirent) :
  docs w = Some entries -> readable entries ->
  embed_calls (snd (index_documents w))
  = embed_calls w ++ map entry_texts (filter indexable entries) /\
  Forall
    (fun e =>
       forall text, d_text e = Some text ->
         entry_texts e
         = map (fun c => lit "[DOC: " ++ d_name e ++ lit "]" ++ [nl] ++ c)
               (windows text))
    (filter indexable entries).
Proof.
  intros Hdocs Hread; split.
  - rewrite (index_documents_exact w entries Hdocs Hread); reflexivity.
  - apply Forall_forall; intros e He text Htext.
    apply filter_In in He as [_ Hidx].
    unfold entry_texts; rewrite Hidx, Htext; reflexivity.
Qed.

(** *** Which entries are indexed *)

Lemma rfind_from_app (c : pychar) (a b : pystr) :
  forall pos last,
    rfind_from c (a ++ b) pos last
    = rfind_from c b (pos + len a) (rfind_from c a pos last).
Proof.
  induction a as [|x a IH]; intros pos last; cbn [app rfind_from].
  - change (len (@nil pychar)) with 0; rewrite Z.add_0_r; reflexivity.
  - rewrite IH; f_equal; unfold len; cbn [length]; lia.
Qed.

Lemma rfind_from_absent (c : pychar) (s : pystr) :
  ~ In c s -> forall pos last, rfind_from c s pos last = last.
Proof.
  induction s as [|x s IH]; intros Hc pos last; cbn [rfind_from];
    [reflexivity|].
  destruct (N.eqb_spec x c) as [->|_]; [exfalso; apply Hc; now left|].
  apply IH; intros H; apply Hc; now right.
Qed.

Lemma rfind_last_dot (stem ext : pystr) :
  ~ In dot ext -> rfind dot (stem ++ dot :: ext) = len stem.
Proof.
  intros Hext; unfold rfind; rewrite rfind_from_app; cbn [rfind_from].
  rewrite N.eqb_refl, rfind_from_absent by assumption; lia.
Qed.

Lemma path_suffix_stem (stem ext : pystr) :
  stem <> [] -> ext <> [] -> ~ In dot ext ->
  path_suffix (stem ++ dot :: ext) = dot :: ext.
Proof.
  intros Hstem Hext Hdot; unfold path_suffix.
  rewrite rfind_last_dot by assumption.
  rewrite len_app; unfold len; cbn [length].
  destruct stem; [congruence|]; destruct ext; [congruence|].
  cbn [length].
  match goal with
  | |- (if ?b then _ else _) = _ => replace b with true
  end.
  - rewrite Nat2Z.id.
    change (S (length stem)) with (length (p :: stem)).
    rewrite skipn_app, skipn_all, Nat.sub_diag; reflexivity.
  - symmetry; apply andb_true_intro; split; apply Z.ltb_lt; lia.
Qed.

Lemma path_suffix_split (name sfx : pystr) :
  sfx <> [] -> path_suffix name = sfx ->
  exists stem, stem <> [] /\ name = stem ++ sfx.
Proof.
  unfold path_suffix; intros Hne.
  destruct ((0 <? rfind dot name) && (rfind dot name <? len name - 1)) eqn:Hg;
    [|congruence].
  apply andb_prop in Hg as [Hlo Hhi].
  apply Z.ltb_lt in Hlo, Hhi; intros Hsfx.
  exists (firstn (Z.to_nat (rfind dot name)) name); split.
  - intros Hnil; apply (f_equal (@length pychar)) in Hnil.
    rewrite length_firstn in Hnil; unfold len in *; cbn in Hnil; lia.
  - rewrite <- Hsfx; symmetry; apply firstn_skipn.
Qed.

Lemma allowed_suffix_iff (name : pystr) :
  allowed_suffix name = true <->
  exists stem,
    stem <> [] /\ (name = stem ++ lit ".txt" \/ name = stem ++ lit ".md").
Proof.
  unfold allowed_suffix; split.
  - destruct (pystr_eq_dec (path_suffix name) (lit ".txt")) as [Htxt|_].
    + intros _; apply path_suffix_split in Htxt as (stem & Hs & ->);
        [eauto | discriminate].
    + destruct (pystr_eq_dec (path_suffix name) (lit ".md")) as [Hmd|_];
        [|discriminate].
      intros _; apply path_suffix_split in Hmd as (stem & Hs & ->);
        [eauto | discriminate].
  - intros (stem & Hs & [->| ->]).
    + change (lit ".txt") with (dot :: lit "txt").
      rewrite path_suffix_stem;
        [ | assumption | discriminate
          | cbn; unfold dot; intuition discriminate ].
      destruct (pystr_eq_dec (dot :: lit "txt") (dot :: lit "txt"));
        [reflexivity | congruence].
    + change (lit ".md") with (dot :: lit "md").
      rewrite path_suffix_stem;
        [ | assumption | discriminate
          | cbn; unfold dot; intuition discriminate ].
      destruct (pystr_eq_dec (dot :: lit "md") (lit ".txt"));
        [reflexivity|].
      destruct (pystr_eq_dec (dot :: lit "md") (dot :: lit "md"));
        [reflexivity | congruence].
Qed.

Lemma indexable_text_file (e : dirent) :
  indexable e = true <-> text_file e.
Proof.
  unfold indexable, text_file.
  rewrite andb_true_iff, allowed_suffix_iff; tauto.
Qed.

Lemma index_one_skip (e : dirent) (w : world) :
  indexable e = false -> index_one e w = (Ok tt, w).
Proof.
  unfold indexable, index_one; intros Hno.
  destruct (d_is_file e); cbn [negb andb] in *; [|reflexivity].
  rewrite Hno; reflexivity.
Qed.

Lemma index_all_skip (entries : list dirent) (w : world) :
  Forall (fun e => indexable e = false) entries ->
  for_each entries index_one w = (Ok tt, w).
Proof.
  induction 1 as [|e es He _ IH]; [reflexivity|].
  cbn [for_each]; unfold bind; rewrite (index_one_skip e w He); exact IH.
Qed.

(** X15: the loop body of [index_documents] acts on a directory entry
    exactly when it is a regular file whose name is a non-empty stem
    followed by [.txt] or by [.md].  On any other entry (a directory,
    another suffix, another letter case, a name that is nothing but the
    suffix) it returns with the state untouched.  On such a file it
    reads the text: it raises [UnicodeDecodeError] with the state
    untouched when the text cannot be decoded, and otherwise appends
    one row per chunk of the text, named after the file, and makes one
    embedding call on the chunks.  A directory with no such file leaves
    the table empty and makes no embedding call. *)
Theorem index_one_by_name (w : world) :
  (forall e, ~ text_file e -> index_one e w = (Ok tt, w)) /\
  (forall e,
     text_file e -> d_text e = None ->
     index_one e w = (Raise (Exception "UnicodeDecodeError"), w)) /\
  (forall e t text,
     text_file e -> d_text e = Some text -> db w = Some t ->
     exists cs w' t',
       Chunker.chunk_text text DEFAULT_MAX_CHARS = Some cs /\
       index_one e w = (Ok tt, w') /\ db w' = Some t' /\
       map row_doc_text (rows t')
       = map row_doc_text (rows t)
         ++ map (fun c => (d_name e,
                           lit "[DOC: " ++ d_name e ++ lit "]" ++ [nl] ++ c))
                cs /\
       embed_calls w'
       = embed_calls w
         ++ [map (fun c => lit "[DOC: " ++ d_name e ++ lit "]" ++ [nl] ++ c)
                 cs]) /\
  (forall entries,
     docs w = Some entries -> Forall (fun e => ~ text_file e) entries ->
     exists w' s,
       index_documents w = (Ok tt, w') /\
       db w' = Some (mk_table [] s) /\
       embed_calls w' = embed_calls w).
Proof.
  assert (Hno : forall e, ~ text_file e -> indexable e = false).
  { intros e He; destruct (indexable e) eqn:Hi; [|reflexivity].
    exfalso; apply He, indexable_text_file, Hi. }
  split; [|split; [|split]].
  - intros e He; apply index_one_skip, Hno, He.
  - intros e He Htext; apply indexable_text_file in He.
    unfold indexable in He; apply andb_true_iff in He as (Hf & Hs).
    unfold index_one; rewrite Hf, Hs, Htext; reflexivity.
  - intros e t text He Htext Hdb; apply indexable_text_file in He.
    destruct (chunk_text_returns text DEFAULT_MAX_CHARS) as (cs & Hcs);
      [unfold DEFAULT_MAX_CHARS; lia|].
    assert (Htexts : entry_texts e = map (with_header (d_name e)) cs).
    { unfold entry_texts, windows; rewrite He, Htext, Hcs; reflexivity. }
    exists cs; do 2 eexists; split; [exact Hcs|]; split; [|split; [|split]].
    + apply (index_one_exact e w t Hdb); rewrite Htext; discriminate.
    + reflexivity.
    + cbn [rows]; rewrite map_app, number_rows_doc_text, Htexts, map_map.
      reflexivity.
    + cbn [embed_calls]; rewrite He, Htexts; reflexivity.
  - intros entries Hdocs Hall.
    assert (Hskip : Forall (fun e => indexable e = false) entries).
    { eapply Forall_impl; [|exact Hall]; exact Hno. }
    do 2 eexists; split; [|split].
    + unfold index_documents; rewrite reset_db_exact.
      unfold bind, get_docs; cbn [docs]; rewrite Hdocs.
      apply (index_all_skip entries _ Hskip).
    + reflexivity.
    + reflexivity.
Qed.

(** ** Indexing, then retrieval *)

Lemma decodes_doc_text (rs : list row) (cs : list (Z * pystr * pystr * vec)) :
  Forall2 decodes rs cs ->
  map (fun c : Z * pystr * pystr * vec => (snd (fst (fst c)), snd (fst c))) cs
  = map row_doc_text rs.
Proof.
  induction 1 as [|[[[id d] t] j] [[[id' d'] t'] e] rs cs Hd _ IH]; cbn;
    [reflexivity|].
  destruct Hd as (_ & -> & -> & _); rewrite IH; reflexivity.
Qed.

Lemma retrieve_top_k_ok (w : world) (query : pystr) (k : Z) :
  store_ok w ->
  exists t chunks query_vec w' ranked,
    db w = Some t /\ Forall2 decodes (rows t) chunks /\
    Permutation ranked (map (fun c => snd (tagged query_vec c)) chunks) /\
    retrieve_top_k query k w = (Ok (py_slice ranked 0 k), w').
Proof.
  intros (t & chunks & Hdb & _ & Hdec).
  destruct (retrieve_top_k_unfold w t query k chunks Hdb Hdec)
    as (qv & w' & _ & Hrun).
  destruct (decode_rows_spec _ _ _ Hdec) as (cs' & Hcs & Hrows).
  cbn [app] in Hcs; subst cs'.
  exists t, chunks, qv, w',
    (sort_reverse score_of score_ltb
       (map (fun c => snd (tagged qv c)) chunks)).
  repeat split; try assumption.
  - apply sort_reverse_perm.
  - rewrite Hrun, score_chunks_map; reflexivity.
Qed.

Section Indexed.

(** What Python promises of the text of a float, as for the round trip
    of the store. *)
Hypothesis float_parse_repr : forall x, float_parse (float_repr x) = Some x.
Hypothesis float_repr_token : forall x, number_token (float_repr x).

(** X16: retrieval composes with indexing.  After [index_documents] on
    a readable directory, [retrieve_top_k] with [k >= 0] returns
    without raising; it gives [min(k, number of stored chunks)] results,
    and each result is a stored chunk: the name of an indexed file with
    one of its headed chunks. *)
Theorem index_then_retrieve (w : world) (entries : list dirent)
    (query : pystr) (k : Z) :
  docs w = Some entries -> readable entries -> 0 <= k ->
  let w1 := snd (index_documents w) in
  exists result w2,
    retrieve_top_k query k w1 = (Ok result, w2) /\
    len result = Z.min k (len (flat_map labelled_chunks entries)) /\
    Forall (fun c : scored_chunk =>
              In (snd (fst c), snd c) (flat_map labelled_chunks entries))
           result.
Proof.
  intros Hdocs Hread Hk w1.
  pose proof (index_documents_store_ok float_parse_repr float_repr_token w)
    as Hok.
  fold w1 in Hok.
  destruct (retrieve_top_k_ok w1 query k Hok)
    as (t & chunks & qv & w2 & ranked & Hdb & Hrows & Hperm & Hrun).
  assert (Ht : map row_doc_text (rows t) = flat_map labelled_chunks entries).
  { subst w1; rewrite (index_documents_exact w entries Hdocs Hread) in Hdb.
    cbn [snd db] in Hdb; injection Hdb as <-; cbn [rows].
    apply directory_rows_doc_text. }
  assert (Hlen : length ranked = length (flat_map labelled_chunks entries)).
  { rewrite (Permutation_length Hperm), length_map, <- Ht, length_map.
    symmetry; eapply Forall2_length; exact Hrows. }
  exists (py_slice ranked 0 k), w2; split; [exact Hrun|].
  rewrite py_slice_firstn by assumption; split.
  - unfold len; rewrite length_firstn, Hlen; lia.
  - apply Forall_forall; intros c Hc.
    assert (Hin : In c ranked).
    { rewrite <- (firstn_skipn (Z.to_nat k) ranked).
      apply in_or_app; left; exact Hc. }
    apply (Permutation_in _ Hperm) in Hin.
    apply in_map_iff in Hin as ([[[id d] txt] emb] & <- & Hchunk).
    cbn [tagged snd fst].
    rewrite <- Ht, <- (decodes_doc_text _ _ Hrows).
    apply in_map_iff; exists (id, d, txt, emb); auto.
Qed.

(** X17: once [index_documents] has run, even if it stopped on a file
    it could not decode, answering a query never fails on the store:
    [run_rag_pipeline] returns a message, unless the chat service raises
    something that is not an [Exception], which it lets through. *)
Theorem run_rag_pipeline_after_index (w : world) (query : pystr) :
  let w1 := snd (index_documents w) in
  (exists r, fst (run_rag_pipeline query w1) = Ok r) \/
  (exists n, fst (run_rag_pipeline query w1) = Raise (BaseException n)).
Proof.
  intros w1.
  pose proof (index_documents_store_ok float_parse_repr float_repr_token w)
    as Hok.
  fold w1 in Hok.
  destruct (retrieve_top_k_ok w1 query TOP_K Hok)
    as (t & chunks & qv & w2 & ranked & _ & _ & _ & Hrun).
  rewrite (run_rag_pipeline_unfold w1 w2 query _ Hrun).
  destruct (py_slice ranked 0 TOP_K) as [|c top]; [left; eexists; reflexivity|].
  cbv zeta.
  destruct (chat_completion _ _ _) as [content|[n|n]];
    [left | left | right]; eexists; reflexivity.
Qed.

End Indexed.

(** ** More on the store, the sources and the stored chunks *)

Lemma retrieve_top_k_is_slice (w w1 : world) (query : pystr) (k : Z)
    (top : list scored_chunk) :
  retrieve_top_k query k w = (Ok top, w1) ->
  exists scored, top = py_slice scored 0 k.
Proof.
  unfold retrieve_top_k, bind at 1.
  destruct (get_query_embedding query w) as [[qv|e|] w0]; try discriminate.
  unfold bind.
  destruct (load_all_chunks w0) as [[chunks|e|] w2]; try discriminate.
  unfold ret; intros H; injection H as <- _; eexists; reflexivity.
Qed.

(** X19: an answer never comes with more than [TOP_K] = 3 source
    lines, whatever the store holds. *)
Theorem run_rag_pipeline_at_most_top_k (w w' : world) (query answer : pystr)
    (sources_lines : list pystr) :
  run_rag_pipeline query w = (Ok (answer, sources_lines), w') ->
  len sources_lines <= TOP_K.
Proof.
  intros Hrun.
  destruct (retrieve_top_k query TOP_K w) as [[top|e|] w1] eqn:Hret.
  - destruct (retrieve_top_k_is_slice w w1 query TOP_K top Hret)
      as [scored Htop].
    assert (Hlen : len top <= TOP_K).
    { rewrite Htop, py_slice_firstn by (unfold TOP_K; lia).
      unfold len, TOP_K; rewrite length_firstn; lia. }
    rewrite (run_rag_pipeline_unfold w w1 query top Hret) in Hrun.
    destruct top as [|c top].
    + injection Hrun as _ <- _; unfold TOP_K, len; cbn; lia.
    + cbv zeta in Hrun.
      destruct (chat_completion _ _ _) as [content|[n|n]];
        try discriminate; injection Hrun as _ <- _.
      * unfold sources_of; rewrite pipeline_loop; cbn [app].
        unfold len in *; rewrite length_map; exact Hlen.
      * unfold TOP_K, len; cbn; lia.
  - rewrite (run_rag_pipeline_raise w w1 query e Hret) in Hrun; discriminate.
  - unfold run_rag_pipeline, bind at 1 in Hrun; rewrite Hret in Hrun.
    discriminate.
Qed.

Lemma windows_lengths (text c : pystr) :
  In c (windows text) -> 1 <= len c <= DEFAULT_MAX_CHARS.
Proof.
  unfold windows, DEFAULT_MAX_CHARS.
  destruct (chunk_text_windows text 500) as (cs & Hrun & Hlo & Hhi & Hnth);
    [lia|].
  rewrite Hrun; intros Hc.
  apply (In_nth _ _ (@nil pychar)) in Hc as (i & Hi & <-).
  unfold pystr in *; rewrite (Hnth i Hi), py_slice_len by lia.
  unfold len in *; nia.
Qed.

Lemma windows_slices (text c : pystr) :
  In c (windows text) ->
  exists i, 0 <= i /\ i * 500 < len text /\
            c = py_slice text (i * 500) (i * 500 + 500).
Proof.
  unfold windows, DEFAULT_MAX_CHARS.
  destruct (chunk_text_windows text 500) as (cs & Hrun & Hlo & Hhi & Hnth);
    [lia|].
  rewrite Hrun; intros Hc.
  apply (In_nth _ _ (@nil pychar)) in Hc as (i & Hi & <-).
  unfold pystr, len in *.
  exists (Z.of_nat i); split; [lia|]; split; [lia|].
  exact (Hnth i Hi).
Qed.

(** X20: every row that [index_documents] leaves in the table holds the
    header of its document followed by between 1 and 500 characters of
    the text of a file of the directory with that name, cut at a
    multiple of 500: no stored chunk is a bare header, and none carries
    more than 500 characters of text. *)
Theorem index_documents_chunk_bounds (w : world) (entries : list dirent) :
  docs w = Some entries -> readable entries ->
  exists w' t',
    index_documents w = (Ok tt, w') /\ db w' = Some t' /\
    forall id doc_name chunk emb_json,
      In (id, doc_name, chunk, emb_json) (rows t') ->
      exists e text c i,
        In e entries /\ d_name e = doc_name /\ d_text e = Some text /\
        0 <= i /\ i * 500 < len text /\
        c = py_slice text (i * 500) (i * 500 + 500) /\
        chunk = lit "[DOC: " ++ doc_name ++ lit "]" ++ [nl] ++ c /\
        1 <= len c <= 500 /\
        len chunk = len doc_name + 8 + len c.
Proof.
  intros Hdocs Hread.
  do 2 eexists; split; [exact (index_documents_exact w entries Hdocs Hread)|].
  split; [reflexivity|].
  cbn [rows]; intros id doc_name chunk emb_json Hin.
  apply (in_map row_doc_text) in Hin.
  rewrite directory_rows_doc_text in Hin; cbn in Hin.
  apply in_flat_map in Hin as (e & He & Hin).
  apply labelled_chunks_header in Hin as (text & c & _ & Htext & Hc & Heq).
  injection Heq as -> ->.
  destruct (windows_slices text c Hc) as (i & Hi & Hlt & Hslice).
  exists e, text, c, i; repeat split; try assumption.
  - apply (windows_lengths text c Hc).
  - apply (windows_lengths text c Hc).
  - unfold len; cbn [length]; rewrite length_app; cbn [length]; lia.
Qed.

(** ** The callers: [rag_answer] and the bot handlers *)

Section FrontEndProperties.

Context {U : CaseTable}.

Lemma pystr_in_iff (x : pystr) (l : list pystr) :
  pystr_in x l = true <-> In x l.
Proof.
  unfold pystr_in; rewrite existsb_exists; split.
  - intros (y & Hy & Heq); destruct (pystr_eq_dec y x); congruence.
  - intros Hx; exists x; split; [assumption|].
    destruct (pystr_eq_dec x x); congruence.
Qed.

Lemma lower_ascii (s : pystr) :
  forallb is_ascii s = true -> lower s = map ascii_lower s.
Proof. intros H; unfold lower; rewrite H; reflexivity. Qed.

(** X21: [rag_answer] answers by itself, and leaves the whole state as
    it was (no retrieval, no embedding, no chat completion, no access to
    the store), when the stripped query is empty and when it is, in
    any mix of ASCII upper and lower case, one of [/start], [/help],
    [image] and [/image]. *)
Theorem rag_answer_local (w : world) (query : pystr) :
  (strip query = [] ->
   rag_answer query w = (Ok (ENTER_QUESTION, []), w)) /\
  (forallb is_ascii (strip query) = true ->
   In (map ascii_lower (strip query)) [lit "/start"; lit "/help"] ->
   rag_answer query w = (Ok (get_help_text, LOCAL_HELP_NOTE), w)) /\
  (forallb is_ascii (strip query) = true ->
   In (map ascii_lower (strip query)) [lit "image"; lit "/image"] ->
   rag_answer query w = (Ok (IMAGE_MESSAGE, IMAGE_NOTE), w)).
Proof.
  unfold rag_answer; cbv zeta; split; [|split].
  - intros ->; reflexivity.
  - intros Hascii Hin; rewrite (lower_ascii _ Hascii).
    destruct (strip query) as [|c q] eqn:Hq;
      [cbn in Hin; intuition discriminate|].
    apply pystr_in_iff in Hin; rewrite Hin; reflexivity.
  - intros Hascii Hin; rewrite (lower_ascii _ Hascii).
    destruct (strip query) as [|c q] eqn:Hq;
      [cbn in Hin; intuition discriminate|].
    assert (Hno : pystr_in (map ascii_lower (c :: q))
                           [lit "/start"; lit "/help"] = false).
    { destruct Hin as [<-|[<-|[]]]; reflexivity. }
    apply pystr_in_iff in Hin; rewrite Hno, Hin; reflexivity.
Qed.

(** X22: on any other query [rag_answer] runs the pipeline on the
    stripped query.  With no chunk retrieved it returns the message on
    missing documents and ["Sources used: (none)"]; when the chat
    completion raises an [Exception], the error message and again
    ["Sources used: (none)"]; when it succeeds, the stripped answer and
    ["Sources used:"] followed by one source line per retrieved chunk. *)
Theorem rag_answer_outcomes (w w1 : world) (query : pystr)
    (top_chunks : list scored_chunk) :
  strip query <> [] -> local_command (strip query) = false ->
  retrieve_top_k (strip query) TOP_K w = (Ok top_chunks, w1) ->
  match top_chunks with
  | [] => rag_answer query w = (Ok (NO_DOCS_MESSAGE, NO_SOURCES), w1)
  | _ :: _ =>
      exists w2,
        match chat_completion (llm_calls w1) SYSTEM_PROMPT
                (user_prompt (context_of top_chunks) (strip query)) with
        | inl content =>
            rag_answer query w
            = (Ok (strip content,
                   lit "Sources used:" ++ [nl]
                   ++ join [nl] (map citation top_chunks)), w2)
        | inr (Exception n) =>
            rag_answer query w = (Ok (LLM_ERROR_MESSAGE, NO_SOURCES), w2)
        | inr (BaseException n) =>
            rag_answer query w = (Raise (BaseException n), w2)
        end
  end.
Proof.
  intros Hne Hlocal Hret.
  unfold local_command in Hlocal; apply orb_false_iff in Hlocal as [H1 H2].
  unfold rag_answer; cbv zeta.
  destruct (strip query) as [|c q] eqn:Hq; [congruence|].
  rewrite H1, H2; unfold bind.
  rewrite (run_rag_pipeline_unfold w w1 (c :: q) top_chunks Hret).
  destruct top_chunks as [|x top]; [reflexivity|].
  cbv zeta; eexists.
  destruct (chat_completion _ _ _) as [content|[n|n]]; try reflexivity.
  unfold sources_of; rewrite pipeline_loop; reflexivity.
Qed.

(** *** The history of the bot *)

Lemma history_get_set_same (u : Z) (d : list turn) (h : list (Z * list turn)) :
  history_get u (history_set u d h) = Some d.
Proof.
  induction h as [|[u' d'] h IH]; cbn.
  - rewrite Z.eqb_refl; reflexivity.
  - destruct (Z.eqb_spec u' u) as [->|Hne]; cbn.
    + rewrite Z.eqb_refl; reflexivity.
    + destruct (Z.eqb_spec u' u); [contradiction | exact IH].
Qed.

Lemma history_get_set_other (u u' : Z) (d : list turn)
    (h : list (Z * list turn)) :
  u' <> u -> history_get u' (history_set u d h) = history_get u' h.
Proof.
  intros Hne; induction h as [|[v d'] h IH]; cbn.
  - destruct (Z.eqb_spec u u'); [congruence | reflexivity].
  - destruct (Z.eqb_spec v u) as [->|Hv]; cbn.
    + destruct (Z.eqb_spec u u'); [congruence | reflexivity].
    + destruct (Z.eqb_spec v u'); [reflexivity | exact IH].
Qed.

Lemma deque_append_window (d : list turn) (x : turn) :
  len d <= HISTORY_MAXLEN ->
  deque_append d x = skipn (length d - 2) (d ++ [x]) /\
  len (deque_append d x) <= HISTORY_MAXLEN.
Proof.
  unfold deque_append, HISTORY_MAXLEN; intros Hd; cbv zeta.
  rewrite len_app; change (len [x]) with 1.
  destruct (Z.ltb_spec 3 (len d + 1)) as [Hfull|Hroom].
  - assert (Hlen : length d = 3%nat) by (unfold len in *; lia).
    rewrite Hlen; cbn [Nat.sub skipn].
    destruct d as [|t0 d]; [discriminate|]; cbn [app tl skipn].
    split; [reflexivity|].
    rewrite len_app; unfold len in *; cbn [length] in *; lia.
  - replace (length d - 2)%nat with 0%nat by (unfold len in *; lia).
    split; [reflexivity|].
    rewrite len_app; change (len [x]) with 1; lia.
Qed.

Lemma ask_run (a : pystr) (args : list pystr) (user_id : Z) (b : bot) :
  ask (a :: args) user_id b =
  let query := strip (join [space] (a :: args)) in
  match run_rag_pipeline query (core b) with
  | (Ok (answer, sources_lines), c') =>
      (Ok tt,
       mk_bot c' (record_turn user_id (query, answer) (user_history b))
              (replies b ++ [THINKING; answer_reply answer sources_lines]))
  | (Raise e, c') =>
      (Raise e, mk_bot c' (user_history b) (replies b ++ [THINKING]))
  | (Diverge, c') =>
      (Diverge, mk_bot c' (user_history b) (replies b ++ [THINKING]))
  end.
Proof.
  unfold ask; cbv zeta; cbn [reply_text core user_history replies].
  destruct (run_rag_pipeline _ (core b)) as [[[answer lines]|e|] c'];
    cbn [reply_text core user_history replies];
    rewrite <- ?app_assoc; reflexivity.
Qed.

Lemma summarize_history (user_id : Z) (b : bot) :
  user_history (snd (summarize_cmd user_id b)) = user_history b.
Proof.
  unfold summarize_cmd.
  destruct (history_get user_id (user_history b)) as [[|t d]|];
    try reflexivity.
  destruct (call_llm _ _ (core b)) as [[s|[n|n]|] c']; reflexivity.
Qed.

Lemma handle_bounded (c : command) (b : bot) :
  (forall u, len (history_of u b) <= HISTORY_MAXLEN) ->
  forall u, len (history_of u (snd (handle c b))) <= HISTORY_MAXLEN.
Proof.
  intros Hb u; destruct c as [args user_id|user_id]; cbn [handle].
  - destruct args as [|a args]; [exact (Hb u)|].
    rewrite ask_run; cbv zeta.
    destruct (run_rag_pipeline _ (core b)) as [[[answer lines]|e|] c'];
      cbn [snd]; try exact (Hb u).
    unfold history_of, record_turn; cbn [user_history].
    destruct (Z.eq_dec u user_id) as [->|Hne].
    + rewrite history_get_set_same.
      apply deque_append_window; exact (Hb user_id).
    + rewrite history_get_set_other by assumption; exact (Hb u).
  - unfold history_of; rewrite summarize_history; exact (Hb u).
Qed.

(** X23: the history of every user stays within three turns.  From a
    bot with no history, after any sequence of [/ask] and [/summarize]
    commands by any users, failed ones included, no user has more than
    three turns on record. *)
Theorem bot_history_bounded (cs : list command) (b : bot) :
  user_history b = [] ->
  forall u, len (history_of u (serve cs b)) <= HISTORY_MAXLEN.
Proof.
  intros Hempty.
  assert (Hb : forall u, len (history_of u b) <= HISTORY_MAXLEN).
  { intros u; unfold history_of; rewrite Hempty; cbn.
    unfold HISTORY_MAXLEN, len; cbn; lia. }
  clear Hempty; revert b Hb.
  induction cs as [|c cs IH]; intros b Hb u; cbn [serve]; [exact (Hb u)|].
  apply IH; apply handle_bounded; exact Hb.
Qed.

(** X24: what [/ask] records.  With arguments, when the pipeline
    returns, the handler sends two replies (the notice, then the answer
    with its sources), and the user's history becomes its last three
    turns, the new one (the stripped question and the answer, whatever
    message that answer is) included; the history of every other user
    is untouched.  When the pipeline raises, so does the handler, after
    the notice, and no turn is recorded. *)
Theorem ask_records_turn (a : pystr) (args : list pystr) (user_id : Z)
    (b : bot) :
  len (history_of user_id b) <= HISTORY_MAXLEN ->
  let query := strip (join [space] (a :: args)) in
  let b' := snd (ask (a :: args) user_id b) in
  (forall answer sources_lines c',
     run_rag_pipeline query (core b) = (Ok (answer, sources_lines), c') ->
     fst (ask (a :: args) user_id b) = Ok tt /\
     core b' = c' /\
     replies b' = replies b ++ [THINKING; answer_reply answer sources_lines] /\
     history_of user_id b'
     = skipn (length (history_of user_id b) - 2)
             (history_of user_id b ++ [(query, answer)]) /\
     (forall u, u <> user_id -> history_of u b' = history_of u b)) /\
  (forall e c',
     run_rag_pipeline query (core b) = (Raise e, c') ->
     fst (ask (a :: args) user_id b) = Raise e /\
     replies b' = replies b ++ [THINKING] /\
     user_history b' = user_history b).
Proof.
  intros Hbound query b'; subst b'; rewrite ask_run; cbv zeta.
  fold query; split.
  - intros answer lines c' Hrun; rewrite Hrun; cbn [fst snd core replies].
    repeat split.
    + unfold history_of at 1, record_turn; cbn [user_history].
      rewrite history_get_set_same.
      apply deque_append_window; exact Hbound.
    + intros u Hu; unfold history_of, record_turn; cbn [user_history].
      rewrite history_get_set_other by assumption; reflexivity.
  - intros e c' Hrun; rewrite Hrun; cbn; auto.
Qed.

Lemma convo_loop (history : list turn) :
  forall i convo_text,
    snd (fold_left convo_step history (i, convo_text))
    = convo_text
      ++ concat
           (map (fun p : Z * turn =>
                   lit "Q" ++ str_of_int (fst p) ++ lit ": " ++ fst (snd p)
                   ++ [nl] ++ lit "A" ++ str_of_int (fst p) ++ lit ": "
                   ++ snd (snd p) ++ [nl; nl])
                (combine (map (fun n => i + Z.of_nat n)
                              (List.seq 0 (length history)))
                         history)).
Proof.
  induction history as [|[q a] h IH]; intros i txt.
  - cbn; rewrite app_nil_r; reflexivity.
  - cbn [fold_left convo_step length List.seq map combine concat fst snd].
    rewrite IH, <- seq_shift, map_map.
    change (Z.of_nat 0) with 0; rewrite Z.add_0_r.
    rewrite (map_ext (fun x => i + Z.of_nat (S x))
                     (fun n => i + 1 + Z.of_nat n)) by (intros; lia).
    symmetry; apply app_assoc.
Qed.

(** X25: what [/summarize] does.  It never changes any history.  For a
    user with no turn on record it sends the fixed notice and requests
    no chat completion.  Otherwise it requests exactly one, whose
    context is the user's turns in order as ["Q<i>: ...\nA<i>: ...\n\n"]
    numbered from 1, with the fixed summary question, and sends one
    reply: the stripped summary under its heading, or the fixed error
    text when the completion raises an [Exception]. *)
Theorem summarize_cmd_outcome (user_id : Z) (b : bot) :
  let b' := snd (summarize_cmd user_id b) in
  user_history b' = user_history b /\
  (history_of user_id b = [] ->
   summarize_cmd user_id b
   = (Ok tt, mk_bot (core b) (user_history b)
                    (replies b ++ [NOTHING_TO_SUMMARIZE]))) /\
  (history_of user_id b <> [] ->
   let prompt := user_prompt (convo_text_of (history_of user_id b))
                             SUMMARY_QUESTION in
   llm_calls (core b') = llm_calls (core b) ++ [(SYSTEM_PROMPT, prompt)] /\
   match chat_completion (llm_calls (core b)) SYSTEM_PROMPT prompt with
   | inl content =>
       fst (summarize_cmd user_id b) = Ok tt /\
       replies b' = replies b
                    ++ [lit "Summary of your recent interactions:" ++ [nl]
                        ++ strip content]
   | inr (Exception n) =>
       fst (summarize_cmd user_id b) = Ok tt /\
       replies b' = replies b ++ [SUMMARY_ERROR]
   | inr (BaseException n) =>
       fst (summarize_cmd user_id b) = Raise (BaseException n) /\
       replies b' = replies b
   end) /\
  (forall history,
     convo_text_of history
     = concat
         (map (fun p : Z * turn =>
                 lit "Q" ++ str_of_int (fst p) ++ lit ": " ++ fst (snd p)
                 ++ [nl] ++ lit "A" ++ str_of_int (fst p) ++ lit ": "
                 ++ snd (snd p) ++ [nl; nl])
              (combine (map (fun n => 1 + Z.of_nat n)
                            (List.seq 0 (length history)))
                       history))).
Proof.
  intros b'; split; [apply summarize_history|]; split; [|split].
  - unfold history_of, summarize_cmd.
    destruct (history_get user_id (user_history b)) as [[|t d]|];
      [reflexivity | discriminate | reflexivity].
  - subst b'; unfold history_of, summarize_cmd.
    destruct (history_get user_id (user_history b)) as [[|t d]|];
      [congruence | | congruence].
    intros _; cbv zeta; unfold call_llm.
    destruct (chat_completion _ _ _) as [content|[n|n]];
      cbn; auto.
  - intros history; unfold convo_text_of; rewrite convo_loop; reflexivity.
Qed.

End FrontEndProperties.

End Properties.

(** ** The properties at work on the small instance *)

Lemma chunk_text_partition_witness :
  0 < 4 /\
  exists cs,
    Chunker.chunk_text (lit "hello world") 4 = Some cs /\
    concat cs = lit "hello world" /\
    Forall (fun c => len c <= 4) cs /\
    len cs = Chunker.ceil_div (len (lit "hello world")) 4 /\
    (forall i, (i < length cs)%nat ->
       nth i cs [] =
       py_slice (lit "hello world") (Z.of_nat i * 4) (Z.of_nat i * 4 + 4)) /\
    (lit "hello world" = [] -> cs = []).
Proof.
  split; [lia | apply chunk_text_partition; lia].
Defined.

Lemma chunk_text_terminates_witness :
  (0 < 4 /\
   exists cs, forall fuel, (S (length (lit "hello world")) <= fuel)%nat ->
     Chunker.chunk_text_fuel fuel (lit "hello world") 4 = Some cs) /\
  (0 <= 0 /\ lit "hello world" <> [] /\
   forall fuel, Chunker.chunk_text_fuel fuel (lit "hello world") 0 = None).
Proof.
  split.
  - split; [lia|].
    apply (proj1 (chunk_text_terminates (lit "hello world") 4)); lia.
  - split; [lia|]; split; [discriminate|].
    apply (proj2 (proj2 (chunk_text_terminates (lit "hello world") 0)));
      [lia | discriminate].
Defined.

Lemma many_queries_distinct : NoDup (map strip Toy.many_queries).
Proof.
  replace (map strip Toy.many_queries) with Toy.many_queries
    by (vm_compute; reflexivity).
  unfold Toy.many_queries.
  apply Finite.Injective_map_NoDup; [|apply List.seq_NoDup].
  intros a b Hab; injection Hab as Hab; lia.
Qed.

Lemma query_cache_bounded_fifo_witness :
  cache Toy.no_docs = [] /\
  NoDup (map strip Toy.many_queries) /\
  len Toy.many_queries = MAX_QUERY_CACHE_SIZE + 1 /\
  let c := cache (snd (run_queries (C := Toy.bits) Toy.many_queries Toy.no_docs)) in
  len c = MAX_QUERY_CACHE_SIZE /\
  c = map (entry_of (C := Toy.bits)) (tl Toy.many_queries) /\
  dict_get (strip (hd [] Toy.many_queries)) c = None.
Proof.
  split; [reflexivity|]; split; [apply many_queries_distinct|].
  split; [reflexivity|].
  apply (proj1 (proj2 (query_cache_bounded_fifo Toy.no_docs eq_refl))).
  - apply many_queries_distinct.
  - reflexivity.
Defined.

Lemma get_query_embedding_correct_witness :
  stripped_of (lit "  ab " ++ [nl]) (lit "ab") /\
  strip (lit "  ab " ++ [nl]) = lit "ab" /\
  strip (lit " a b ") = lit "a b" /\
  dict_get (lit "ab") (cache Toy.fresh) = None /\
  exists w',
    get_query_embedding (C := Toy.bits) (lit "  ab " ++ [nl]) Toy.fresh
    = (Ok (encode (Collaborators := Toy.bits) (lit "ab")), w') /\
    embed_calls w' = embed_calls Toy.fresh ++ [[lit "ab"]] /\
    dict_get (lit "ab") (cache w')
    = Some (encode (Collaborators := Toy.bits) (lit "ab")).
Proof.
  assert (Hkey : stripped_of (lit "  ab " ++ [nl]) (lit "ab")).
  { apply (proj1 (get_query_embedding_correct (C := Toy.bits) Toy.fresh)).
    reflexivity. }
  split; [exact Hkey|].
  split; [reflexivity|]; split; [reflexivity|]; split; [reflexivity|].
  apply (proj1 (proj2 (proj2
           (get_query_embedding_correct (C := Toy.bits) Toy.fresh)))
           _ _ Hkey).
  reflexivity.
Defined.

Lemma count_ltb_asym (x y : Z) : (x <? y) = true -> (y <? x) = false.
Proof. intros H; apply Z.ltb_lt in H; apply Z.ltb_ge; lia. Qed.

Lemma count_ltb_negtrans (x y z : Z) :
  (x <? y) = false -> (y <? z) = false -> (x <? z) = false.
Proof.
  intros H1 H2; apply Z.ltb_ge in H1, H2; apply Z.ltb_ge; lia.
Qed.

Lemma stored_table_ok : table_ok Toy.stored_table.
Proof.
  split; cbn.
  - repeat constructor.
  - repeat constructor; cbn; lia.
Qed.


Lemma bit_parse_repr (x : bool) : Toy.bit_parse (Toy.bit_repr x) = Some x.
Proof. destruct x; reflexivity. Qed.

Lemma bit_repr_token (x : bool) : number_token (Toy.bit_repr x).
Proof. destruct x; split; [discriminate | reflexivity | discriminate | reflexivity]. Qed.

Lemma store_round_trip_witness :
  fst (load_all_chunks (C := Toy.bits) Toy.fresh) = Ok Toy.stored_chunks /\
  exists t w1,
    db Toy.fresh = Some t /\
    insert_chunk (C := Toy.bits) (lit "d.txt") (lit "delta") [false; true]
                 Toy.fresh = (Ok tt, w1) /\
    load_all_chunks (C := Toy.bits) w1 =
    (Ok (Toy.stored_chunks
         ++ [(seq t + 1, lit "d.txt", lit "delta", [false; true])]), w1).
Proof.
  split; [reflexivity|].
  apply (store_round_trip (C := Toy.bits) bit_parse_repr bit_repr_token
           Toy.fresh (lit "d.txt") (lit "delta") [false; true]
           Toy.stored_chunks).
  reflexivity.
Defined.

Lemma run_rag_pipeline_llm_error_witness :
  retrieve_top_k (C := Toy.bits) (lit " ab ") TOP_K Toy.busy
  = (Ok (Toy.top_of Toy.busy), Toy.after_retrieval Toy.busy) /\
  Toy.top_of Toy.busy <> [] /\
  exists w2,
    run_rag_pipeline (C := Toy.bits) (lit " ab ") Toy.busy
    = (Ok (LLM_ERROR_MESSAGE, []), w2).
Proof.
  split; [reflexivity|]; split; [discriminate|].
  apply (run_rag_pipeline_llm_error (C := Toy.bits) Toy.busy
           (Toy.after_retrieval Toy.busy) (lit " ab ") (Toy.top_of Toy.busy)
           "openai.error.RateLimitError").
  - reflexivity.
  - discriminate.
  - reflexivity.
Defined.

Lemma run_rag_pipeline_citations_witness :
  retrieve_top_k (C := Toy.bits) (lit " ab ") TOP_K Examples.long_store
  = (Ok [(2, lit "n.txt", Examples.long_text)],
     Toy.after_retrieval Examples.long_store) /\
  len Examples.long_text = 163 /\
  nth_error Examples.long_text 12 = Some nl /\
  make_snippet Examples.long_text
  = lit "[DOC: n.txt] ab ab ab ab ab ab ab ab ab ab ab ab ab ab ab ab ab ab ab ab ab ab ab ab ab ab ab ab ab ab ab ab ab ab ab ab..." /\
  exists w2,
    run_rag_pipeline (C := Toy.bits) (lit " ab ") Examples.long_store
    = (Ok (lit "From the context: yes.",
           [lit "- n.txt (score=2.000) " ++ [rarrow] ++ lit " " ++ [dquote]
            ++ lit "[DOC: n.txt] ab ab ab ab ab ab ab ab ab ab ab ab ab ab ab ab ab ab ab ab ab ab ab ab ab ab ab ab ab ab ab ab ab ab ab ab..."
            ++ [dquote]]), w2).
Proof.
  split; [reflexivity|]; split; [reflexivity|]; split; [reflexivity|].
  split; [reflexivity|].
  destruct (proj1 (run_rag_pipeline_citations (C := Toy.bits)
                     Examples.long_store
                     (Toy.after_retrieval Examples.long_store) (lit " ab ")
                     [(2, lit "n.txt", Examples.long_text)]
                     (lit " From the context: yes. ")
                     eq_refl ltac:(discriminate) eq_refl)) as (w2 & Hrun).
  exists w2; rewrite Hrun; reflexivity.
Defined.

Lemma index_documents_headers_witness :
  docs Toy.one_file
  = Some [mk_dirent (lit "a.txt") true (Some (lit "hello world"))] /\
  readable [mk_dirent (lit "a.txt") true (Some (lit "hello world"))] /\
  exists w' t',
    index_documents (C := Toy.bits) Toy.one_file = (Ok tt, w') /\
    db w' = Some t' /\
    map row_doc_text (rows t')
    = [(lit "a.txt", lit "[DOC: a.txt]" ++ [nl] ++ lit "hello world")].
Proof.
  assert (Hread : readable
            [mk_dirent (lit "a.txt") true (Some (lit "hello world"))])
    by (repeat constructor; discriminate).
  split; [reflexivity|]; split; [exact Hread|].
  destruct (index_documents_headers (C := Toy.bits) Toy.one_file _ eq_refl Hread)
    as (w' & t' & Hrun & Hdb & _ & _ & Hone).
  exists w', t'; repeat split; [exact Hrun | exact Hdb | exact (Hone eq_refl)].
Defined.

Lemma run_rag_pipeline_no_documents_witness :
  docs Toy.no_docs = None /\
  exists w' t',
    index_documents (C := Toy.bits) Toy.no_docs = (Ok tt, w') /\
    db w' = Some t' /\ rows t' = [] /\
    forall query,
      exists w'',
        run_rag_pipeline (C := Toy.bits) query w'
        = (Ok (NO_DOCS_MESSAGE, []), w'') /\
        llm_calls w'' = llm_calls w'.
Proof.
  split; [reflexivity|].
  apply (proj2 (run_rag_pipeline_no_documents (C := Toy.bits) Toy.no_docs)).
  left; reflexivity.
Defined.

(** ** The further properties at work *)

Lemma chunk_text_chunks_full_witness :
  0 < 4 /\
  Chunker.chunk_text (lit "hello world") 4
  = Some [lit "hell"; lit "o wo"; lit "rld"] /\
  Forall (fun c => c <> []) [lit "hell"; lit "o wo"; lit "rld"] /\
  (forall i, (S i < length [lit "hell"; lit "o wo"; lit "rld"])%nat ->
     len (nth i [lit "hell"; lit "o wo"; lit "rld"] []) = 4) /\
  ([lit "hell"; lit "o wo"; lit "rld"] <> [] ->
   len (last [lit "hell"; lit "o wo"; lit "rld"] [])
   = len (lit "hello world")
     - (len [lit "hell"; lit "o wo"; lit "rld"] - 1) * 4).
Proof.
  split; [lia|]; split; [reflexivity|].
  apply (chunk_text_chunks_full (lit "hello world") 4); [lia | reflexivity].
Defined.

Lemma chunk_text_app_witness :
  0 < 2 /\ len (lit "abcd") = 2 * 2 /\
  Chunker.chunk_text (lit "abcd") 2 = Some [lit "ab"; lit "cd"] /\
  Chunker.chunk_text (lit "efg") 2 = Some [lit "ef"; lit "g"] /\
  Chunker.chunk_text (lit "abcd" ++ lit "efg") 2
  = Some ([lit "ab"; lit "cd"] ++ [lit "ef"; lit "g"]).
Proof.
  split; [lia|]; split; [reflexivity|]; split; [reflexivity|].
  split; [reflexivity|].
  apply (chunk_text_app (lit "abcd") (lit "efg") 2 2);
    [lia | reflexivity | reflexivity | reflexivity].
Defined.

Lemma query_cache_transparent_witness :
  cache Toy.no_docs = [] /\
  let w1 := snd (run_queries (C := Toy.bits) [lit " a "; lit "b"] Toy.no_docs) in
  cache_coherent (C := Toy.bits) (cache w1) /\
  fst (get_query_embedding (C := Toy.bits) (lit "a ") w1)
  = Ok (encode (Collaborators := Toy.bits) (strip (lit "a "))).
Proof.
  split; [reflexivity|].
  apply (query_cache_transparent (C := Toy.bits) Toy.no_docs
           [lit " a "; lit "b"] (lit "a ")).
  reflexivity.
Defined.

Lemma full_cache_keys : NoDup (dict_keys (cache Examples.full_cache)).
Proof.
  apply (run_queries_coherent (C := Toy.bits) Toy.many_queries Toy.no_docs).
  split; constructor.
Qed.

Lemma query_cache_hit_no_refresh_witness :
  cache Examples.full_cache
  = ([201%N], [false; false]) :: tl (cache Examples.full_cache) /\
  MAX_QUERY_CACHE_SIZE <= len (cache Examples.full_cache) /\
  strip [201%N] = [201%N] /\
  dict_get (strip (lit "zz")) (cache Examples.full_cache) = None /\
  let w1 := snd (get_query_embedding (C := Toy.bits) [201%N]
                                     Examples.full_cache) in
  let w2 := snd (get_query_embedding (C := Toy.bits) (lit "zz") w1) in
  fst (get_query_embedding (C := Toy.bits) [201%N] Examples.full_cache)
  = Ok [false; false] /\
  cache w2 = tl (cache Examples.full_cache)
             ++ [entry_of (C := Toy.bits) (lit "zz")] /\
  dict_get [201%N] (cache w2) = None.
Proof.
  assert (Hc : cache Examples.full_cache
               = ([201%N], [false; false]) :: tl (cache Examples.full_cache))
    by (vm_compute; reflexivity).
  assert (Hfull : MAX_QUERY_CACHE_SIZE <= len (cache Examples.full_cache))
    by (apply Z.leb_le; vm_compute; reflexivity).
  assert (Hmiss : dict_get (strip (lit "zz")) (cache Examples.full_cache) = None)
    by (vm_compute; reflexivity).
  split; [exact Hc|]; split; [exact Hfull|]; split; [reflexivity|].
  split; [exact Hmiss|].
  apply (query_cache_hit_no_refresh (C := Toy.bits) Examples.full_cache
           [201%N] [false; false] (tl (cache Examples.full_cache))
           [201%N] (lit "zz") Hc full_cache_keys Hfull eq_refl Hmiss).
Defined.

Lemma retrieve_top_k_negative_witness :
  -1 < 0 /\
  db Toy.fresh = Some Toy.stored_table /\
  table_ok Toy.stored_table /\
  decode_rows (C := Toy.bits) (rows Toy.stored_table) [] = Ok Toy.stored_chunks /\
  exists query_vec w' ranked,
    get_query_embedding (C := Toy.bits) (lit " ab ") Toy.fresh
    = (Ok query_vec, w') /\
    Permutation ranked (map (tagged (C := Toy.bits) query_vec) Toy.stored_chunks) /\
    StronglySorted (ranks_before (C := Toy.bits)) ranked /\
    let result := map snd (firstn (length ranked - Z.to_nat (- -1)) ranked) in
    retrieve_top_k (C := Toy.bits) (lit " ab ") (-1) Toy.fresh
    = (Ok result, w') /\
    len result = Z.max 0 (len (rows Toy.stored_table) + -1).
Proof.
  split; [lia|]; split; [reflexivity|]; split; [apply stored_table_ok|].
  split; [reflexivity|].
  apply (retrieve_top_k_negative (C := Toy.bits) Toy.fresh Toy.stored_table
           (lit " ab ") (-1) Toy.stored_chunks).
  - exact count_ltb_asym.
  - exact count_ltb_negtrans.
  - lia.
  - reflexivity.
  - apply stored_table_ok.
  - reflexivity.
Defined.

Lemma run_rag_pipeline_store_error_witness :
  fst (load_all_chunks (C := Toy.bits) Toy.no_docs)
  = Raise (Exception "sqlite3.OperationalError") /\
  let w1 := snd (get_query_embedding (C := Toy.bits) (lit "ab") Toy.no_docs) in
  run_rag_pipeline (C := Toy.bits) (lit "ab") Toy.no_docs
  = (Raise (Exception "sqlite3.OperationalError"), w1) /\
  llm_calls w1 = llm_calls Toy.no_docs /\
  dict_get (strip (lit "ab")) (cache w1) <> None /\
  (db Toy.no_docs = None ->
   Exception "sqlite3.OperationalError" = Exception "sqlite3.OperationalError").
Proof.
  split; [reflexivity|].
  apply (run_rag_pipeline_store_error (C := Toy.bits) Toy.no_docs (lit "ab")
           (Exception "sqlite3.OperationalError")).
  reflexivity.
Defined.

Lemma run_rag_pipeline_prompt_witness :
  retrieve_top_k (C := Toy.bits) (lit " ab ") TOP_K Toy.fresh
  = (Ok (Toy.top_of Toy.fresh), Toy.after_retrieval Toy.fresh) /\
  Toy.top_of Toy.fresh <> [] /\
  llm_calls (snd (run_rag_pipeline (C := Toy.bits) (lit " ab ") Toy.fresh))
  = llm_calls Toy.fresh
    ++ [(SYSTEM_PROMPT,
         lit "Context:" ++ [nl]
         ++ concat (map (block_of (C := Toy.bits)) (Toy.top_of Toy.fresh))
         ++ [nl; nl] ++ lit "Question: " ++ lit " ab ")].
Proof.
  split; [reflexivity|]; split; [discriminate|].
  apply (proj1 (run_rag_pipeline_prompt (C := Toy.bits) Toy.fresh
                  (Toy.after_retrieval Toy.fresh) (lit " ab ")
                  (Toy.top_of Toy.fresh) eq_refl ltac:(discriminate))).
Defined.

Lemma citation_single_line_witness :
  ~ In nl (lit "a.txt") /\
  ~ In nl (format_3f (Collaborators := Toy.bits) 1) /\
  ~ In nl (citation (C := Toy.bits) (1, lit "a.txt", lit "hello" ++ [nl] ++ lit "world")) /\
  len (citation (C := Toy.bits) (1, lit "a.txt", lit "hello" ++ [nl] ++ lit "world"))
  <= len (lit "a.txt") + len (format_3f (Collaborators := Toy.bits) 1) + 139.
Proof.
  assert (H1 : ~ In nl (lit "a.txt"))
    by (cbn; unfold nl; intuition discriminate).
  assert (H2 : ~ In nl (format_3f (Collaborators := Toy.bits) 1))
    by (cbn; unfold nl; intuition discriminate).
  split; [exact H1|]; split; [exact H2|].
  apply (citation_single_line (C := Toy.bits) 1 (lit "a.txt")
           (lit "hello" ++ [nl] ++ lit "world") H1 H2).
Defined.

Lemma a_txt_readable : readable [Examples.a_txt].
Proof. repeat constructor; discriminate. Qed.

Lemma index_documents_fresh_ids_witness :
  db Examples.reindex = Some Toy.stored_table /\
  table_ok Toy.stored_table /\
  docs Examples.reindex = Some [Examples.a_txt] /\
  readable [Examples.a_txt] /\
  exists w' t',
    index_documents (C := Toy.bits) Examples.reindex = (Ok tt, w') /\
    db w' = Some t' /\ table_ok t' /\
    forall r r', In r (rows Toy.stored_table) -> In r' (rows t') ->
                 row_id r < row_id r'.
Proof.
  split; [reflexivity|]; split; [apply stored_table_ok|].
  split; [reflexivity|]; split; [apply a_txt_readable|].
  apply (index_documents_fresh_ids (C := Toy.bits) Examples.reindex
           Toy.stored_table [Examples.a_txt] eq_refl stored_table_ok eq_refl
           a_txt_readable).
Defined.

Lemma index_documents_rebuild_witness :
  docs Examples.reindex = Some [Examples.a_txt] /\
  readable [Examples.a_txt] /\
  let w1 := snd (index_documents (C := Toy.bits) Examples.reindex) in
  let w2 := snd (index_documents (C := Toy.bits) w1) in
  fst (index_documents (C := Toy.bits) Examples.reindex) = Ok tt /\
  stored w1 = Some (directory_contents (C := Toy.bits) [Examples.a_txt]) /\
  fst (index_documents (C := Toy.bits) w1) = Ok tt /\
  stored w2 = stored w1.
Proof.
  split; [reflexivity|]; split; [apply a_txt_readable|].
  apply (index_documents_rebuild (C := Toy.bits) Examples.reindex
           [Examples.a_txt] eq_refl a_txt_readable).
Defined.

Lemma index_documents_partial_witness :
  docs Examples.broken_dir
  = Some ([Examples.a_txt] ++ Examples.b_md_bad :: [Examples.c_txt]) /\
  readable [Examples.a_txt] /\
  indexable Examples.b_md_bad = true /\ d_text Examples.b_md_bad = None /\
  let w' := snd (index_documents (C := Toy.bits) Examples.broken_dir) in
  fst (index_documents (C := Toy.bits) Examples.broken_dir)
  = Raise (Exception "UnicodeDecodeError") /\
  stored w' = Some (directory_contents (C := Toy.bits) [Examples.a_txt]).
Proof.
  split; [reflexivity|]; split; [apply a_txt_readable|].
  split; [reflexivity|]; split; [reflexivity|].
  apply (index_documents_partial (C := Toy.bits) Examples.broken_dir
           [Examples.a_txt] [Examples.c_txt] Examples.b_md_bad
           eq_refl a_txt_readable eq_refl eq_refl).
Defined.

Lemma index_documents_embed_batches_witness :
  docs Examples.reindex = Some [Examples.a_txt] /\
  readable [Examples.a_txt] /\
  embed_calls (snd (index_documents (C := Toy.bits) Examples.reindex))
  = embed_calls Examples.reindex
    ++ map entry_texts (filter indexable [Examples.a_txt]).
Proof.
  split; [reflexivity|]; split; [apply a_txt_readable|].
  apply (proj1 (index_documents_embed_batches (C := Toy.bits) Examples.reindex
                  [Examples.a_txt] eq_refl a_txt_readable)).
Defined.

Lemma index_one_by_name_witness :
  text_file Examples.a_txt /\
  d_text Examples.a_txt = Some (lit "hello world") /\
  db Examples.reindex = Some Toy.stored_table /\
  ~ text_file (mk_dirent (lit ".txt") true (Some (lit "hidden"))) /\
  index_one (C := Toy.bits)
    (mk_dirent (lit ".txt") true (Some (lit "hidden"))) Examples.reindex
  = (Ok tt, Examples.reindex) /\
  exists cs w' t',
    Chunker.chunk_text (lit "hello world") DEFAULT_MAX_CHARS = Some cs /\
    index_one (C := Toy.bits) Examples.a_txt Examples.reindex = (Ok tt, w') /\
    db w' = Some t' /\
    map row_doc_text (rows t')
    = map row_doc_text (rows Toy.stored_table)
      ++ map (fun c => (d_name Examples.a_txt,
                        lit "[DOC: " ++ d_name Examples.a_txt ++ lit "]"
                        ++ [nl] ++ c)) cs /\
    embed_calls w'
    = embed_calls Examples.reindex
      ++ [map (fun c => lit "[DOC: " ++ d_name Examples.a_txt ++ lit "]"
                        ++ [nl] ++ c) cs].
Proof.
  assert (Hyes : text_file Examples.a_txt).
  { split; [reflexivity|]; exists (lit "a"); split; [discriminate|].
    left; reflexivity. }
  assert (Hno : ~ text_file (mk_dirent (lit ".txt") true (Some (lit "hidden")))).
  { intros (_ & stem & Hstem & [Heq|Heq]); cbn in Heq.
    - destruct stem as [|c stem]; [congruence|].
      do 5 (destruct stem as [|? stem]; try discriminate).
    - destruct stem as [|c stem]; [congruence|].
      do 5 (destruct stem as [|? stem]; try discriminate). }
  split; [exact Hyes|]; split; [reflexivity|]; split; [reflexivity|].
  split; [exact Hno|]; split.
  - apply (proj1 (index_one_by_name (C := Toy.bits) Examples.reindex) _ Hno).
  - apply (proj1 (proj2 (proj2
             (index_one_by_name (C := Toy.bits) Examples.reindex)))
             Examples.a_txt Toy.stored_table (lit "hello world")
             Hyes eq_refl eq_refl).
Defined.

Lemma index_then_retrieve_witness :
  docs Examples.reindex = Some [Examples.a_txt] /\
  readable [Examples.a_txt] /\ 0 <= 2 /\
  let w1 := snd (index_documents (C := Toy.bits) Examples.reindex) in
  exists result w2,
    retrieve_top_k (C := Toy.bits) (lit "hello") 2 w1 = (Ok result, w2) /\
    len result = Z.min 2 (len (flat_map labelled_chunks [Examples.a_txt])) /\
    Forall (fun c : scored_chunk (C := Toy.bits) =>
              In (snd (fst c), snd c)
                 (flat_map labelled_chunks [Examples.a_txt]))
           result.
Proof.
  split; [reflexivity|]; split; [apply a_txt_readable|]; split; [lia|].
  apply (index_then_retrieve (C := Toy.bits) bit_parse_repr bit_repr_token
           Examples.reindex [Examples.a_txt] (lit "hello") 2
           eq_refl a_txt_readable).
  lia.
Defined.

Lemma run_rag_pipeline_after_index_witness :
  let w1 := snd (index_documents (C := Toy.bits) Examples.broken_dir) in
  (exists r, fst (run_rag_pipeline (C := Toy.bits) (lit "hello") w1) = Ok r) \/
  (exists n, fst (run_rag_pipeline (C := Toy.bits) (lit "hello") w1)
             = Raise (BaseException n)).
Proof.
  apply (run_rag_pipeline_after_index (C := Toy.bits) bit_parse_repr
           bit_repr_token Examples.broken_dir (lit "hello")).
Defined.

Lemma run_rag_pipeline_at_most_top_k_witness :
  run_rag_pipeline (C := Toy.bits) (lit " ab ") Toy.fresh
  = (Ok (Examples.piped_answer, Examples.piped_sources), snd Examples.piped) /\
  len Examples.piped_sources <= TOP_K.
Proof.
  split; [reflexivity|].
  apply (run_rag_pipeline_at_most_top_k (C := Toy.bits) Toy.fresh
           (snd Examples.piped) (lit " ab ") Examples.piped_answer
           Examples.piped_sources).
  reflexivity.
Defined.

Lemma index_documents_chunk_bounds_witness :
  docs Examples.reindex = Some [Examples.a_txt] /\
  readable [Examples.a_txt] /\
  exists w' t',
    index_documents (C := Toy.bits) Examples.reindex = (Ok tt, w') /\
    db w' = Some t' /\
    forall id doc_name chunk emb_json,
      In (id, doc_name, chunk, emb_json) (rows t') ->
      exists e text c i,
        In e [Examples.a_txt] /\ d_name e = doc_name /\
        d_text e = Some text /\
        0 <= i /\ i * 500 < len text /\
        c = py_slice text (i * 500) (i * 500 + 500) /\
        chunk = lit "[DOC: " ++ doc_name ++ lit "]" ++ [nl] ++ c /\
        1 <= len c <= 500 /\
        len chunk = len doc_name + 8 + len c.
Proof.
  split; [reflexivity|]; split; [apply a_txt_readable|].
  apply (index_documents_chunk_bounds (C := Toy.bits) Examples.reindex
           [Examples.a_txt] eq_refl a_txt_readable).
Defined.

Lemma rag_answer_local_witness :
  forallb is_ascii (strip (lit " /HeLp ")) = true /\
  In (map ascii_lower (strip (lit " /HeLp "))) [lit "/start"; lit "/help"] /\
  rag_answer (C := Toy.bits) (U := Examples.plain_case) (lit " /HeLp ")
             Toy.no_docs
  = (Ok (get_help_text, LOCAL_HELP_NOTE), Toy.no_docs).
Proof.
  assert (Hin : In (map ascii_lower (strip (lit " /HeLp ")))
                   [lit "/start"; lit "/help"])
    by (right; left; reflexivity).
  split; [reflexivity|]; split; [exact Hin|].
  apply (proj1 (proj2 (rag_answer_local (C := Toy.bits)
                         (U := Examples.plain_case) Toy.no_docs
                         (lit " /HeLp "))) eq_refl Hin).
Defined.

Lemma rag_answer_outcomes_witness :
  strip (lit " ab ") <> [] /\
  local_command (U := Examples.plain_case) (strip (lit " ab ")) = false /\
  retrieve_top_k (C := Toy.bits) (strip (lit " ab ")) TOP_K Toy.busy
  = (Ok (Toy.top_of Toy.busy), Toy.after_retrieval Toy.busy) /\
  exists w2,
    rag_answer (C := Toy.bits) (U := Examples.plain_case) (lit " ab ") Toy.busy
    = (Ok (LLM_ERROR_MESSAGE, NO_SOURCES), w2).
Proof.
  split; [discriminate|]; split; [reflexivity|]; split; [reflexivity|].
  exact (rag_answer_outcomes (C := Toy.bits) (U := Examples.plain_case)
           Toy.busy (Toy.after_retrieval Toy.busy) (lit " ab ")
           (Toy.top_of Toy.busy) ltac:(discriminate) eq_refl eq_refl).
Defined.

Lemma bot_history_bounded_witness :
  user_history Examples.idle = [] /\
  forall u,
    len (history_of u (serve (C := Toy.bits) Examples.chat Examples.idle))
    <= HISTORY_MAXLEN.
Proof.
  split; [reflexivity|].
  apply (bot_history_bounded (C := Toy.bits) Examples.chat Examples.idle).
  reflexivity.
Defined.

Lemma ask_records_turn_witness :
  len (history_of 7 Examples.idle) <= HISTORY_MAXLEN /\
  run_rag_pipeline (C := Toy.bits) (strip (join [space] [lit " ab "]))
                   (core Examples.idle)
  = (Ok (Examples.asked_answer, Examples.asked_sources), snd Examples.asked) /\
  let b' := snd (ask (C := Toy.bits) [lit " ab "] 7 Examples.idle) in
  fst (ask (C := Toy.bits) [lit " ab "] 7 Examples.idle) = Ok tt /\
  core b' = snd Examples.asked /\
  replies b'
  = replies Examples.idle
    ++ [THINKING; answer_reply Examples.asked_answer Examples.asked_sources] /\
  history_of 7 b'
  = skipn (length (history_of 7 Examples.idle) - 2)
          (history_of 7 Examples.idle
           ++ [(strip (join [space] [lit " ab "]), Examples.asked_answer)]) /\
  (forall u, u <> 7 -> history_of u b' = history_of u Examples.idle).
Proof.
  assert (Hb : len (history_of 7 Examples.idle) <= HISTORY_MAXLEN)
    by (vm_compute; discriminate).
  split; [exact Hb|]; split; [reflexivity|].
  apply (proj1 (ask_records_turn (C := Toy.bits) (lit " ab ") [] 7
                  Examples.idle Hb)).
  reflexivity.
Defined.

Lemma summarize_cmd_outcome_witness :
  history_of 7 Examples.idle = [] /\
  summarize_cmd (C := Toy.bits) 7 Examples.idle
  = (Ok tt, mk_bot (core Examples.idle) (user_history Examples.idle)
                   (replies Examples.idle ++ [NOTHING_TO_SUMMARIZE])).
Proof.
  split; [reflexivity|].
  apply (proj1 (proj2 (summarize_cmd_outcome (C := Toy.bits) 7 Examples.idle))).
  reflexivity.
Defined.
